(** * DawnChat plugin SDK: chat store, message mapper, realtime client and
      tool-task orchestration

    A shallow embedding of the TypeScript sources

    - [shared-protocol/src/index.ts]            (message mapper),
    - [sdk/.../store/ChatStore.ts], [MemoryAdapter.ts], [IndexedDbAdapter.ts],
    - [sdk/.../client/ZmpLiteClient.ts]         (realtime client),
    - [sdk/.../tool/errors.ts], [client.ts], [task-client.ts], [useToolTask.ts],
    - [sdk/.../composables/useChatSession.ts]   (chat session),

    followed by the properties of these definitions.  JavaScript numbers are
    IEEE 754 binary64 values and are embedded as primitive floats; objects used
    as dictionaries are finite maps; arrays are lists. *)

From Stdlib Require Import ZArith Lia Ascii DecimalString PrimFloat FloatOps FloatAxioms SpecFloat.
From stdpp Require Import gmap strings list sorting.

#[local] Set Warnings "-register-all".

Local Open Scope Z_scope.

(* ===================================================================== *)
(** * Part I: the embedding *)
(* ===================================================================== *)

(** ** JavaScript values and the operators the sources use on them *)

Module Js.

(** A value of type [unknown].  Non-primitive values (objects, arrays) are
    kept by reference: [JObject r] is the object with identity [r]; the
    sources only test such values for truthiness, store them and hand them
    to host functions.  [JArray items] is an array that the sources
    themselves build as a literal. *)
Inductive JsValue : Type :=
| JUndefined
| JNull
| JBool (b : bool)
| JNumber (n : float)
| JString (s : string)
| JObject (ref : nat)
| JArray (items : list JsValue).

#[global] Instance JsValue_inhabited : Inhabited JsValue := populate JUndefined.

(** [Record<string, unknown>] *)
Abbreviation JsRecord := (gmap string JsValue).

(** Property read [o.k]: a missing key reads as [undefined]. *)
Definition get (o : JsRecord) (k : string) : JsValue := default JUndefined (o !! k).

(** Object spread [{ ...a, ...b }]: keys of [b] win. *)
Definition spread (a b : JsRecord) : JsRecord := b ∪ a.

(** ToBoolean. *)
Definition truthy (v : JsValue) : bool :=
  match v with
  | JUndefined | JNull => false
  | JBool b => b
  | JNumber n => negb (is_zero n || is_nan n)
  | JString s => negb (String.eqb s "")
  | JObject _ | JArray _ => true
  end.

(** [a || b] *)
Definition or (a b : JsValue) : JsValue := if truthy a then a else b.

(** [a ?? b] *)
Definition nullish (a b : JsValue) : JsValue :=
  match a with
  | JUndefined | JNull => b
  | _ => a
  end.

(** An optional property [k?: T] of an object: the key is absent, or it
    is present with the value [undefined], or present with a value.  A
    read [o.k] gives [undefined] in the first two cases alike; an object
    spread tells them apart. *)
Inductive Optional (T : Type) : Type :=
| Absent
| Undefined
| Present (v : T).
Arguments Absent {T}.
Arguments Undefined {T}.
Arguments Present {T}.

(** The property [k] of [{ ...a, ...b }]: an own key of [b] wins,
    whatever its value. *)
Definition spread_field {T} (a b : Optional T) : Optional T :=
  match b with
  | Absent => a
  | _ => b
  end.

(** [a === b] against a string constant. *)
Definition is_string (v : JsValue) (s : string) : bool :=
  match v with
  | JString s' => String.eqb s' s
  | _ => false
  end.

(** SameValueZero, the key equality of [Map]. *)
Definition same_value_zero (a b : JsValue) : bool :=
  match a, b with
  | JUndefined, JUndefined => true
  | JNull, JNull => true
  | JBool x, JBool y => Bool.eqb x y
  | JNumber x, JNumber y => (x =? y)%float || (is_nan x && is_nan y)
  | JString x, JString y => String.eqb x y
  | JObject x, JObject y => Nat.eqb x y
  | _, _ => false
  end.

(** A [Map<K, V>] with keys of type [unknown]: insertion-ordered entries,
    at most one per key. *)
Definition JsMap (V : Type) : Type := list (JsValue * V).

Definition map_get {V} (m : JsMap V) (k : JsValue) : option V :=
  snd <$> List.find (fun e => same_value_zero (fst e) k) m.

Definition map_has {V} (m : JsMap V) (k : JsValue) : bool :=
  bool_decide (is_Some (map_get m k)).

Fixpoint map_set {V} (m : JsMap V) (k : JsValue) (v : V) : JsMap V :=
  match m with
  | [] => [(k, v)]
  | e :: m' =>
      if same_value_zero (fst e) k then (fst e, v) :: m' else e :: map_set m' k v
  end.

(** [Number.isFinite] *)
Definition Number_isFinite (x : float) : bool := negb (is_nan x || is_infinity x).

Definition is_pos_zero (x : float) : bool := is_zero x && negb (get_sign x).
Definition is_neg_zero (x : float) : bool := is_zero x && get_sign x.

(** [Math.min] and [Math.max] on two arguments: NaN is contagious and
    [-0] is below [+0]. *)
Definition Math_min (a b : float) : float :=
  if is_nan a || is_nan b then nan
  else if (a <? b)%float then a
  else if (b <? a)%float then b
  else if is_neg_zero a then a else b.

Definition Math_max (a b : float) : float :=
  if is_nan a || is_nan b then nan
  else if (a <? b)%float then b
  else if (b <? a)%float then a
  else if is_pos_zero a then a else b.

(** Strings are kept in their UTF-8 encoding.  The white space and the
    line terminators of the language, which [trim] removes: U+0009 to
    U+000D, U+0020, U+00A0, U+1680, U+2000 to U+200A, U+2028, U+2029,
    U+202F, U+205F, U+3000 and U+FEFF. *)
Definition bytes (codes : list nat) : list ascii := ascii_of_nat <$> codes.

Definition white_space : list (list ascii) :=
  [ bytes [9]; bytes [10]; bytes [11]; bytes [12]; bytes [13]; bytes [32];
    bytes [194; 160];
    bytes [225; 154; 128];
    bytes [226; 128; 128]; bytes [226; 128; 129]; bytes [226; 128; 130];
    bytes [226; 128; 131]; bytes [226; 128; 132]; bytes [226; 128; 133];
    bytes [226; 128; 134]; bytes [226; 128; 135]; bytes [226; 128; 136];
    bytes [226; 128; 137]; bytes [226; 128; 138];
    bytes [226; 128; 168]; bytes [226; 128; 169]; bytes [226; 128; 175];
    bytes [226; 129; 159];
    bytes [227; 128; 128];
    bytes [239; 187; 191] ]%nat.

(** The rest of [s] after one leading item of [prefixes], if it has one. *)
Definition strip_one (prefixes : list (list ascii)) (s : list ascii) : option (list ascii) :=
  (fun w => drop (length w) s)
    <$> List.find (fun w => bool_decide (take (length w) s = w)) prefixes.

Fixpoint strip_all (prefixes : list (list ascii)) (fuel : nat) (s : list ascii) : list ascii :=
  match fuel with
  | O => s
  | S fuel' =>
      match strip_one prefixes s with
      | Some s' => strip_all prefixes fuel' s'
      | None => s
      end
  end.

(** [s.trim()] *)
Definition trim (s : string) : string :=
  let s := String.list_ascii_of_string s in
  let s := strip_all white_space (length s) s in
  let s := strip_all (reverse <$> white_space) (length s) (reverse s) in
  String.string_of_list_ascii (reverse s).

(** The functions of the host (ECMAScript built-ins) that the sources call
    and whose results they only pass along. *)
Record Host : Type := {
  (** [JSON.stringify(v)]: a string, or [undefined] *)
  JSON_stringify : JsValue -> JsValue;
  (** [JSON.stringify(o)] of a record *)
  JSON_stringify_record : JsRecord -> string;
  (** [new Date(t).toISOString()] for a time value [t] *)
  Date_toISOString : Z -> string;
  (** [s.replace(pattern, by)] with a string pattern *)
  String_replace : string -> string -> JsValue -> string;
  (** StringToNumber, the string case of [Number(v)] *)
  StringToNumber : string -> float;
  (** ToNumber of an object (through its primitive value) *)
  ObjectToNumber : JsValue -> float;
  (** Number::toString *)
  NumberToString : float -> string;
  (** ToString of an object *)
  ObjectToString : JsValue -> string
}.

(** [new Date(t).toISOString()] for a timestamp [t], kept as an integer:
    the time values are the integers up to 8.64e15 in absolute value;
    beyond them the date is invalid and the call throws a RangeError
    ([None]). *)
Definition toISOString (h : Host) (t : Z) : option string :=
  if (Z.abs t <=? 8640000000000000)%Z then Some (Date_toISOString h t) else None.

(** [Number(v)] *)
Definition Number (h : Host) (v : JsValue) : float :=
  match v with
  | JUndefined => nan
  | JNull => 0%float
  | JBool b => if b then 1%float else 0%float
  | JNumber n => n
  | JString s => StringToNumber h s
  | JArray [] => 0%float
  | JObject _ | JArray _ => ObjectToNumber h v
  end.

(** [String(v)] *)
Definition String (h : Host) (v : JsValue) : string :=
  match v with
  | JUndefined => "undefined"
  | JNull => "null"
  | JBool b => if b then "true" else "false"
  | JNumber n => NumberToString h n
  | JString s => s
  | JArray [] => ""
  | JObject _ | JArray _ => ObjectToString h v
  end.

End Js.

(** ** The message mapper ([shared-protocol/src/index.ts]) *)

Module Protocol.
Import Js.

Record RawProtocolMessage : Type := {
  id : string;
  trace_id : Optional string;
  message_type : string;
  project_id : Optional string;
  payload : JsRecord;
  timestamp : Z;
  sender_id : Optional string;
  status : Optional string
}.

Inductive UIMessageType : Type :=
| user | response | error | ack | thought | plan | todo_update
| tool_call | tool_result | stream | hil_request | unknown.

#[global] Instance UIMessageType_eq_dec : EqDecision UIMessageType.
Proof. solve_decision. Defined.

Inductive HilStatus : Type := pending | accepted | rejected | edited.

#[global] Instance HilStatus_eq_dec : EqDecision HilStatus.
Proof. solve_decision. Defined.

Record HilStrings : Type := {
  title : string;
  responded : string;
  confirmed : string;
  rejected_text : string;
  userCancelled : string;
  edited_text : string
}.

Record MessageMapperStrings : Type := {
  processing : string;
  unknownError : string;
  hil : HilStrings
}.

Record MessageMapperOptions : Type := {
  strings : MessageMapperStrings;
  (** [(text, shouldTrim?) => string], when the caller supplies one; [None]
      as its result when it throws *)
  sanitizeAssistantText : option (JsValue -> option bool -> option JsValue)
}.

Module MESSAGE_TYPES.
Definition USER_COMMAND : string := "user_command".
Definition AGENT_ACK : string := "agent_ack".
Definition AGENT_THOUGHT : string := "agent_thought".
Definition AGENT_PLAN : string := "agent_plan".
Definition TODO_UPDATE : string := "todo_update".
Definition TOOL_CALL : string := "tool_call".
Definition TOOL_RESULT : string := "tool_result".
Definition AGENT_STREAM : string := "agent_stream".
Definition AGENT_RESPONSE : string := "agent_response".
Definition AGENT_ERROR : string := "agent_error".
Definition HUMAN_INTERVENTION_REQUEST : string := "human_intervention_request".
Definition HUMAN_INTERVENTION_RESPONSE : string := "human_intervention_response".
End MESSAGE_TYPES.

(** The derived message.  Its optional fields hold [JUndefined] when unset;
    fields copied out of the payload hold whatever value the payload has. *)
Module UI.

Record UIMessage : Type := {
  id : string;
  type : UIMessageType;
  content : JsValue;
  createdAt : string;
  stage : JsValue;
  todos : JsValue;
  reasoning : JsValue;
  todoId : JsValue;
  status : JsValue;
  result : JsValue;
  error : JsValue;
  toolName : JsValue;
  success : JsValue;
  actionRequired : JsValue;
  isFinal : JsValue;
  errorCode : JsValue;
  errorMessage : JsValue;
  suggestion : JsValue;
  payload : JsRecord;
  hilRequestId : JsValue;
  hilStatus : option HilStatus;
  hilDescription : JsValue;
  hilRiskLevel : JsValue;
  hilResponseText : JsValue
}.

(** Field assignment [m.f = v] (and the fields an object literal adds to
    [...base]), one function per field. *)
Definition set_type (v : UIMessageType) (m : UIMessage) : UIMessage :=
  {| id := id m; type := v; content := content m; createdAt := createdAt m;
     stage := stage m; todos := todos m; reasoning := reasoning m;
     todoId := todoId m; status := status m; result := result m;
     error := error m; toolName := toolName m; success := success m;
     actionRequired := actionRequired m; isFinal := isFinal m;
     errorCode := errorCode m; errorMessage := errorMessage m;
     suggestion := suggestion m; payload := payload m;
     hilRequestId := hilRequestId m; hilStatus := hilStatus m;
     hilDescription := hilDescription m; hilRiskLevel := hilRiskLevel m;
     hilResponseText := hilResponseText m |}.

Definition set_content (v : JsValue) (m : UIMessage) : UIMessage :=
  {| id := id m; type := type m; content := v; createdAt := createdAt m;
     stage := stage m; todos := todos m; reasoning := reasoning m;
     todoId := todoId m; status := status m; result := result m;
     error := error m; toolName := toolName m; success := success m;
     actionRequired := actionRequired m; isFinal := isFinal m;
     errorCode := errorCode m; errorMessage := errorMessage m;
     suggestion := suggestion m; payload := payload m;
     hilRequestId := hilRequestId m; hilStatus := hilStatus m;
     hilDescription := hilDescription m; hilRiskLevel := hilRiskLevel m;
     hilResponseText := hilResponseText m |}.

Definition set_stage (v : JsValue) (m : UIMessage) : UIMessage :=
  {| id := id m; type := type m; content := content m;
     createdAt := createdAt m; stage := v; todos := todos m;
     reasoning := reasoning m; todoId := todoId m; status := status m;
     result := result m; error := error m; toolName := toolName m;
     success := success m; actionRequired := actionRequired m;
     isFinal := isFinal m; errorCode := errorCode m;
     errorMessage := errorMessage m; suggestion := suggestion m;
     payload := payload m; hilRequestId := hilRequestId m;
     hilStatus := hilStatus m; hilDescription := hilDescription m;
     hilRiskLevel := hilRiskLevel m; hilResponseText := hilResponseText m |}.

Definition set_todos (v : JsValue) (m : UIMessage) : UIMessage :=
  {| id := id m; type := type m; content := content m;
     createdAt := createdAt m; stage := stage m; todos := v;
     reasoning := reasoning m; todoId := todoId m; status := status m;
     result := result m; error := error m; toolName := toolName m;
     success := success m; actionRequired := actionRequired m;
     isFinal := isFinal m; errorCode := errorCode m;
     errorMessage := errorMessage m; suggestion := suggestion m;
     payload := payload m; hilRequestId := hilRequestId m;
     hilStatus := hilStatus m; hilDescription := hilDescription m;
     hilRiskLevel := hilRiskLevel m; hilResponseText := hilResponseText m |}.

Definition set_reasoning (v : JsValue) (m : UIMessage) : UIMessage :=
  {| id := id m; type := type m; content := content m;
     createdAt := createdAt m; stage := stage m; todos := todos m;
     reasoning := v; todoId := todoId m; status := status m;
     result := result m; error := error m; toolName := toolName m;
     success := success m; actionRequired := actionRequired m;
     isFinal := isFinal m; errorCode := errorCode m;
     errorMessage := errorMessage m; suggestion := suggestion m;
     payload := payload m; hilRequestId := hilRequestId m;
     hilStatus := hilStatus m; hilDescription := hilDescription m;
     hilRiskLevel := hilRiskLevel m; hilResponseText := hilResponseText m |}.

Definition set_todoId (v : JsValue) (m : UIMessage) : UIMessage :=
  {| id := id m; type := type m; content := content m;
     createdAt := createdAt m; stage := stage m; todos := todos m;
     reasoning := reasoning m; todoId := v; status := status m;
     result := result m; error := error m; toolName := toolName m;
     success := success m; actionRequired := actionRequired m;
     isFinal := isFinal m; errorCode := errorCode m;
     errorMessage := errorMessage m; suggestion := suggestion m;
     payload := payload m; hilRequestId := hilRequestId m;
     hilStatus := hilStatus m; hilDescription := hilDescription m;
     hilRiskLevel := hilRiskLevel m; hilResponseText := hilResponseText m |}.

Definition set_status (v : JsValue) (m : UIMessage) : UIMessage :=
  {| id := id m; type := type m; content := content m;
     createdAt := createdAt m; stage := stage m; todos := todos m;
     reasoning := reasoning m; todoId := todoId m; status := v;
     result := result m; error := error m; toolName := toolName m;
     success := success m; actionRequired := actionRequired m;
     isFinal := isFinal m; errorCode := errorCode m;
     errorMessage := errorMessage m; suggestion := suggestion m;
     payload := payload m; hilRequestId := hilRequestId m;
     hilStatus := hilStatus m; hilDescription := hilDescription m;
     hilRiskLevel := hilRiskLevel m; hilResponseText := hilResponseText m |}.

Definition set_result (v : JsValue) (m : UIMessage) : UIMessage :=
  {| id := id m; type := type m; content := content m;
     createdAt := createdAt m; stage := stage m; todos := todos m;
     reasoning := reasoning m; todoId := todoId m; status := status m;
     result := v; error := error m; toolName := toolName m;
     success := success m; actionRequired := actionRequired m;
     isFinal := isFinal m; errorCode := errorCode m;
     errorMessage := errorMessage m; suggestion := suggestion m;
     payload := payload m; hilRequestId := hilRequestId m;
     hilStatus := hilStatus m; hilDescription := hilDescription m;
     hilRiskLevel := hilRiskLevel m; hilResponseText := hilResponseText m |}.

Definition set_error (v : JsValue) (m : UIMessage) : UIMessage :=
  {| id := id m; type := type m; content := content m;
     createdAt := createdAt m; stage := stage m; todos := todos m;
     reasoning := reasoning m; todoId := todoId m; status := status m;
     result := result m; error := v; toolName := toolName m;
     success := success m; actionRequired := actionRequired m;
     isFinal := isFinal m; errorCode := errorCode m;
     errorMessage := errorMessage m; suggestion := suggestion m;
     payload := payload m; hilRequestId := hilRequestId m;
     hilStatus := hilStatus m; hilDescription := hilDescription m;
     hilRiskLevel := hilRiskLevel m; hilResponseText := hilResponseText m |}.

Definition set_toolName (v : JsValue) (m : UIMessage) : UIMessage :=
  {| id := id m; type := type m; content := content m;
     createdAt := createdAt m; stage := stage m; todos := todos m;
     reasoning := reasoning m; todoId := todoId m; status := status m;
     result := result m; error := error m; toolName := v;
     success := success m; actionRequired := actionRequired m;
     isFinal := isFinal m; errorCode := errorCode m;
     errorMessage := errorMessage m; suggestion := suggestion m;
     payload := payload m; hilRequestId := hilRequestId m;
     hilStatus := hilStatus m; hilDescription := hilDescription m;
     hilRiskLevel := hilRiskLevel m; hilResponseText := hilResponseText m |}.

Definition set_success (v : JsValue) (m : UIMessage) : UIMessage :=
  {| id := id m; type := type m; content := content m;
     createdAt := createdAt m; stage := stage m; todos := todos m;
     reasoning := reasoning m; todoId := todoId m; status := status m;
     result := result m; error := error m; toolName := toolName m;
     success := v; actionRequired := actionRequired m; isFinal := isFinal m;
     errorCode := errorCode m; errorMessage := errorMessage m;
     suggestion := suggestion m; payload := payload m;
     hilRequestId := hilRequestId m; hilStatus := hilStatus m;
     hilDescription := hilDescription m; hilRiskLevel := hilRiskLevel m;
     hilResponseText := hilResponseText m |}.

Definition set_actionRequired (v : JsValue) (m : UIMessage) : UIMessage :=
  {| id := id m; type := type m; content := content m;
     createdAt := createdAt m; stage := stage m; todos := todos m;
     reasoning := reasoning m; todoId := todoId m; status := status m;
     result := result m; error := error m; toolName := toolName m;
     success := success m; actionRequired := v; isFinal := isFinal m;
     errorCode := errorCode m; errorMessage := errorMessage m;
     suggestion := suggestion m; payload := payload m;
     hilRequestId := hilRequestId m; hilStatus := hilStatus m;
     hilDescription := hilDescription m; hilRiskLevel := hilRiskLevel m;
     hilResponseText := hilResponseText m |}.

Definition set_isFinal (v : JsValue) (m : UIMessage) : UIMessage :=
  {| id := id m; type := type m; content := content m;
     createdAt := createdAt m; stage := stage m; todos := todos m;
     reasoning := reasoning m; todoId := todoId m; status := status m;
     result := result m; error := error m; toolName := toolName m;
     success := success m; actionRequired := actionRequired m; isFinal := v;
     errorCode := errorCode m; errorMessage := errorMessage m;
     suggestion := suggestion m; payload := payload m;
     hilRequestId := hilRequestId m; hilStatus := hilStatus m;
     hilDescription := hilDescription m; hilRiskLevel := hilRiskLevel m;
     hilResponseText := hilResponseText m |}.

Definition set_errorCode (v : JsValue) (m : UIMessage) : UIMessage :=
  {| id := id m; type := type m; content := content m;
     createdAt := createdAt m; stage := stage m; todos := todos m;
     reasoning := reasoning m; todoId := todoId m; status := status m;
     result := result m; error := error m; toolName := toolName m;
     success := success m; actionRequired := actionRequired m;
     isFinal := isFinal m; errorCode := v; errorMessage := errorMessage m;
     suggestion := suggestion m; payload := payload m;
     hilRequestId := hilRequestId m; hilStatus := hilStatus m;
     hilDescription := hilDescription m; hilRiskLevel := hilRiskLevel m;
     hilResponseText := hilResponseText m |}.

Definition set_errorMessage (v : JsValue) (m : UIMessage) : UIMessage :=
  {| id := id m; type := type m; content := content m;
     createdAt := createdAt m; stage := stage m; todos := todos m;
     reasoning := reasoning m; todoId := todoId m; status := status m;
     result := result m; error := error m; toolName := toolName m;
     success := success m; actionRequired := actionRequired m;
     isFinal := isFinal m; errorCode := errorCode m; errorMessage := v;
     suggestion := suggestion m; payload := payload m;
     hilRequestId := hilRequestId m; hilStatus := hilStatus m;
     hilDescription := hilDescription m; hilRiskLevel := hilRiskLevel m;
     hilResponseText := hilResponseText m |}.

Definition set_suggestion (v : JsValue) (m : UIMessage) : UIMessage :=
  {| id := id m; type := type m; content := content m;
     createdAt := createdAt m; stage := stage m; todos := todos m;
     reasoning := reasoning m; todoId := todoId m; status := status m;
     result := result m; error := error m; toolName := toolName m;
     success := success m; actionRequired := actionRequired m;
     isFinal := isFinal m; errorCode := errorCode m;
     errorMessage := errorMessage m; suggestion := v; payload := payload m;
     hilRequestId := hilRequestId m; hilStatus := hilStatus m;
     hilDescription := hilDescription m; hilRiskLevel := hilRiskLevel m;
     hilResponseText := hilResponseText m |}.

Definition set_payload (v : JsRecord) (m : UIMessage) : UIMessage :=
  {| id := id m; type := type m; content := content m;
     createdAt := createdAt m; stage := stage m; todos := todos m;
     reasoning := reasoning m; todoId := todoId m; status := status m;
     result := result m; error := error m; toolName := toolName m;
     success := success m; actionRequired := actionRequired m;
     isFinal := isFinal m; errorCode := errorCode m;
     errorMessage := errorMessage m; suggestion := suggestion m;
     payload := v; hilRequestId := hilRequestId m; hilStatus := hilStatus m;
     hilDescription := hilDescription m; hilRiskLevel := hilRiskLevel m;
     hilResponseText := hilResponseText m |}.

Definition set_hilRequestId (v : JsValue) (m : UIMessage) : UIMessage :=
  {| id := id m; type := type m; content := content m;
     createdAt := createdAt m; stage := stage m; todos := todos m;
     reasoning := reasoning m; todoId := todoId m; status := status m;
     result := result m; error := error m; toolName := toolName m;
     success := success m; actionRequired := actionRequired m;
     isFinal := isFinal m; errorCode := errorCode m;
     errorMessage := errorMessage m; suggestion := suggestion m;
     payload := payload m; hilRequestId := v; hilStatus := hilStatus m;
     hilDescription := hilDescription m; hilRiskLevel := hilRiskLevel m;
     hilResponseText := hilResponseText m |}.

Definition set_hilStatus (v : option HilStatus) (m : UIMessage) : UIMessage :=
  {| id := id m; type := type m; content := content m;
     createdAt := createdAt m; stage := stage m; todos := todos m;
     reasoning := reasoning m; todoId := todoId m; status := status m;
     result := result m; error := error m; toolName := toolName m;
     success := success m; actionRequired := actionRequired m;
     isFinal := isFinal m; errorCode := errorCode m;
     errorMessage := errorMessage m; suggestion := suggestion m;
     payload := payload m; hilRequestId := hilRequestId m; hilStatus := v;
     hilDescription := hilDescription m; hilRiskLevel := hilRiskLevel m;
     hilResponseText := hilResponseText m |}.

Definition set_hilDescription (v : JsValue) (m : UIMessage) : UIMessage :=
  {| id := id m; type := type m; content := content m;
     createdAt := createdAt m; stage := stage m; todos := todos m;
     reasoning := reasoning m; todoId := todoId m; status := status m;
     result := result m; error := error m; toolName := toolName m;
     success := success m; actionRequired := actionRequired m;
     isFinal := isFinal m; errorCode := errorCode m;
     errorMessage := errorMessage m; suggestion := suggestion m;
     payload := payload m; hilRequestId := hilRequestId m;
     hilStatus := hilStatus m; hilDescription := v;
     hilRiskLevel := hilRiskLevel m; hilResponseText := hilResponseText m |}.

Definition set_hilRiskLevel (v : JsValue) (m : UIMessage) : UIMessage :=
  {| id := id m; type := type m; content := content m;
     createdAt := createdAt m; stage := stage m; todos := todos m;
     reasoning := reasoning m; todoId := todoId m; status := status m;
     result := result m; error := error m; toolName := toolName m;
     success := success m; actionRequired := actionRequired m;
     isFinal := isFinal m; errorCode := errorCode m;
     errorMessage := errorMessage m; suggestion := suggestion m;
     payload := payload m; hilRequestId := hilRequestId m;
     hilStatus := hilStatus m; hilDescription := hilDescription m;
     hilRiskLevel := v; hilResponseText := hilResponseText m |}.

Definition set_hilResponseText (v : JsValue) (m : UIMessage) : UIMessage :=
  {| id := id m; type := type m; content := content m;
     createdAt := createdAt m; stage := stage m; todos := todos m;
     reasoning := reasoning m; todoId := todoId m; status := status m;
     result := result m; error := error m; toolName := toolName m;
     success := success m; actionRequired := actionRequired m;
     isFinal := isFinal m; errorCode := errorCode m;
     errorMessage := errorMessage m; suggestion := suggestion m;
     payload := payload m; hilRequestId := hilRequestId m;
     hilStatus := hilStatus m; hilDescription := hilDescription m;
     hilRiskLevel := hilRiskLevel m; hilResponseText := v |}.

End UI.

Import UI.

(** The mapper closes over its options (and, here, over the host). *)
Section createMessageMapper.
Variable h : Host.
Variable options : MessageMapperOptions.

(** The calls below return [None] where the source throws. *)

(** [sanitize(text, shouldTrim)].  The default sanitizer calls
    [text.trim()], which is a TypeError on a value that is not a string
    (the payload holds parsed JSON, where only a string has a [trim]). *)
Definition sanitize (text : JsValue) (shouldTrim : option bool) : option JsValue :=
  match sanitizeAssistantText options with
  | Some f => f text shouldTrim
  | None =>
      if default true shouldTrim then
        match text with
        | JString s => Some (JString (trim s))
        | _ => None
        end
      else Some text
  end.

(** The object literal [base]; it throws with [toISOString]. *)
Definition base (zmpMsg : RawProtocolMessage) : option UIMessage :=
  createdAt ← toISOString h (timestamp zmpMsg);
  Some
  {| UI.id := Protocol.id zmpMsg;
     type := unknown;
     content := JString "";
     createdAt := createdAt;
     stage := JUndefined; todos := JUndefined; reasoning := JUndefined;
     todoId := JUndefined; UI.status := JUndefined; result := JUndefined;
     UI.error := JUndefined; toolName := JUndefined; success := JUndefined;
     actionRequired := JUndefined; isFinal := JUndefined;
     errorCode := JUndefined; errorMessage := JUndefined;
     suggestion := JUndefined;
     UI.payload := Protocol.payload zmpMsg;
     hilRequestId := JUndefined; hilStatus := None;
     hilDescription := JUndefined; hilRiskLevel := JUndefined;
     hilResponseText := JUndefined |}.

Local Notation "m '|>' f" := (f m) (at level 41, left associativity, only parsing).

Definition toUIMessage (zmpMsg : RawProtocolMessage) : option UIMessage :=
  let payload := Protocol.payload zmpMsg in
  let msgType := message_type zmpMsg in
  base ← base zmpMsg;
  if String.eqb msgType MESSAGE_TYPES.USER_COMMAND then
    Some (base |> set_type user
              |> set_content (or (get payload "text") (JString "")))
  else if String.eqb msgType MESSAGE_TYPES.AGENT_ACK then
    Some (base |> set_type ack
              |> set_content (or (get payload "message") (JString (processing (strings options)))))
  else if String.eqb msgType MESSAGE_TYPES.AGENT_THOUGHT then
    Some (base |> set_type thought
              |> set_content (or (get payload "content") (JString ""))
              |> set_stage (or (get payload "stage") (JString "thinking")))
  else if String.eqb msgType MESSAGE_TYPES.AGENT_PLAN then
    Some (base |> set_type plan
              |> set_content (JString "")
              |> set_todos (or (get payload "todos") (JArray []))
              |> set_reasoning (or (get payload "reasoning") (JString "")))
  else if String.eqb msgType MESSAGE_TYPES.TODO_UPDATE then
    Some (base |> set_type todo_update
              |> set_content (JString "")
              |> set_todoId (or (get payload "todo_id") (JString ""))
              |> set_status (or (get payload "status") (JString "pending"))
              |> set_result (get payload "result")
              |> set_error (get payload "error"))
  else if String.eqb msgType MESSAGE_TYPES.TOOL_CALL then
    Some (base |> set_type tool_call
              |> set_content (JString "")
              |> set_toolName (or (get payload "tool_name") (JString "unknown")))
  else if String.eqb msgType MESSAGE_TYPES.TOOL_RESULT then
    Some (base |> set_type tool_result
              |> set_content (JString "")
              |> set_toolName (or (get payload "tool_name") (JString "unknown"))
              |> set_success (nullish (get payload "success") (JBool true))
              |> set_result (match get payload "result" with
                             | JString s => JString s
                             | v => JSON_stringify h v
                             end)
              |> set_actionRequired (get payload "action_required"))
  else if String.eqb msgType MESSAGE_TYPES.AGENT_STREAM then
    content ← sanitize (or (or (get payload "content") (get payload "chunk")) (JString ""))
                       (Some false);
    Some (base |> set_type stream
               |> set_content content
               |> set_isFinal (or (get payload "is_final") (JBool false)))
  else if String.eqb msgType MESSAGE_TYPES.AGENT_RESPONSE then
    content ← sanitize (or (get payload "content") (JString "")) None;
    Some (base |> set_type response
               |> set_content content)
  else if String.eqb msgType MESSAGE_TYPES.AGENT_ERROR then
    Some (base |> set_type Protocol.error
              |> set_content (JString "")
              |> set_errorCode (or (get payload "code") (JString "UNKNOWN"))
              |> set_errorMessage (or (get payload "message") (JString (unknownError (strings options))))
              |> set_suggestion (get payload "suggestion"))
  else if String.eqb msgType MESSAGE_TYPES.HUMAN_INTERVENTION_REQUEST then
    Some (base |> set_type hil_request
              |> set_content (or (get payload "description") (JString (title (hil (strings options)))))
              |> set_hilRequestId (or (get payload "request_id") (JString ""))
              |> set_hilStatus (Some pending)
              |> set_hilDescription (or (get payload "description") (JString ""))
              |> set_hilRiskLevel (or (get payload "risk_level") (JString "medium"))
              |> set_toolName (or (get payload "tool_name") (JString "")))
  else if String.eqb msgType MESSAGE_TYPES.HUMAN_INTERVENTION_RESPONSE then
    Some (base |> set_type unknown
              |> set_content (JString "")
              |> set_hilResponseText
                   (or (get payload "response_text") (JString (responded (hil (strings options))))))
  else
    Some (base |> set_type unknown
              |> set_content (JString (JSON_stringify_record h payload))).

(** The state of one merge pass.  [toolCallMap] and [hilRequestMap] hold
    references to objects that sit in [uiMessages]; a reference is the
    index of the object in that array (objects are only ever pushed). *)
Record MergeState : Type := {
  uiMessages : list UIMessage;
  toolCallMap : JsMap nat;
  hilRequestMap : JsMap nat
}.

Definition merge_init : MergeState :=
  {| uiMessages := []; toolCallMap := []; hilRequestMap := [] |}.

(** The assignments to [callMsg] when a result meets its call. *)
Definition absorb_result (uiMsg callMsg : UIMessage) : UIMessage :=
  callMsg |> set_type tool_result
          |> set_success (success uiMsg)
          |> set_result (result uiMsg)
          |> set_error (UI.error uiMsg)
          |> (fun callMsg =>
                set_payload (<["arguments" := get (UI.payload callMsg) "arguments"]>
                               (spread (UI.payload callMsg) (UI.payload uiMsg)))
                            callMsg).

(** The assignments to [requestMsg] when a response meets its request. *)
Definition absorb_response (uiMsg requestMsg : UIMessage) : UIMessage :=
  let action := get (UI.payload uiMsg) "action" in
  if is_string action "accept" then
    requestMsg |> set_hilStatus (Some accepted)
               |> set_hilResponseText (JString (confirmed (hil (strings options))))
  else if is_string action "reject" then
    requestMsg |> set_hilStatus (Some rejected)
               |> set_hilResponseText
                    (JString (String_replace h (rejected_text (hil (strings options))) "{reason}"
                                (or (get (UI.payload uiMsg) "reason")
                                    (JString (userCancelled (hil (strings options)))))))
  else if is_string action "edit" then
    requestMsg |> set_hilStatus (Some edited)
               |> set_hilResponseText (JString (edited_text (hil (strings options))))
  else requestMsg.

(** The body of the [for] loop of [mergeMessages] below the conversion
    of the message, which is all that it reads. *)
Definition merge_entry (st : MergeState) (uiMsg : UIMessage) : MergeState :=
  let push st :=
    {| uiMessages := uiMessages st ++ [uiMsg];
       toolCallMap := toolCallMap st; hilRequestMap := hilRequestMap st |} in
  if decide (type uiMsg = tool_call) then
    let st' := push st in
    if truthy (get (UI.payload uiMsg) "tool_call_id") then
      {| uiMessages := uiMessages st';
         toolCallMap := map_set (toolCallMap st') (get (UI.payload uiMsg) "tool_call_id")
                                (length (uiMessages st));
         hilRequestMap := hilRequestMap st' |}
    else st'
  else if decide (type uiMsg = tool_result) then
    let toolCallId := get (UI.payload uiMsg) "tool_call_id" in
    match (if truthy toolCallId then map_get (toolCallMap st) toolCallId else None) with
    | Some callMsg =>
        {| uiMessages := alter (absorb_result uiMsg) callMsg (uiMessages st);
           toolCallMap := toolCallMap st; hilRequestMap := hilRequestMap st |}
    | None => push st
    end
  else if decide (type uiMsg = hil_request) then
    let st' := push st in
    if truthy (hilRequestId uiMsg) then
      {| uiMessages := uiMessages st';
         toolCallMap := toolCallMap st';
         hilRequestMap := map_set (hilRequestMap st') (hilRequestId uiMsg)
                                  (length (uiMessages st)) |}
    else st'
  else if bool_decide (type uiMsg = unknown) && truthy (hilResponseText uiMsg) then
    let requestId := get (UI.payload uiMsg) "request_id" in
    match (if truthy requestId then map_get (hilRequestMap st) requestId else None) with
    | Some requestMsg =>
        {| uiMessages := alter (absorb_response uiMsg) requestMsg (uiMessages st);
           toolCallMap := toolCallMap st; hilRequestMap := hilRequestMap st |}
    | None => st
    end
  else push st.

(** One iteration of the loop; it throws when [toUIMessage] does. *)
Definition merge_step (st : MergeState) (zmpMsg : RawProtocolMessage) : option MergeState :=
  uiMsg ← toUIMessage zmpMsg;
  Some (merge_entry st uiMsg).

Fixpoint merge_run (st : MergeState) (rawMessages : list RawProtocolMessage)
  : option MergeState :=
  match rawMessages with
  | [] => Some st
  | zmpMsg :: rawMessages' =>
      st' ← merge_step st zmpMsg;
      merge_run st' rawMessages'
  end.

(** [mergeMessages(rawMessages)]: the derived sequence, or [None] when
    the conversion of one of the messages throws. *)
Definition mergeMessages (rawMessages : list RawProtocolMessage) : option (list UIMessage) :=
  uiMessages <$> merge_run merge_init rawMessages.

End createMessageMapper.

(** [defaultMessageMapperStrings] of [defaults.ts], with which the chat
    store builds its mapper. *)
Definition defaultMessageMapperStrings : MessageMapperStrings :=
  {| processing := "正在处理";
     unknownError := "发生未知错误";
     hil := {| title := "需要确认的操作";
               responded := "已响应";
               confirmed := "已确认";
               rejected_text := "已拒绝";
               userCancelled := "用户取消";
               edited_text := "已编辑" |} |}.

Definition defaultMessageMapperOptions : MessageMapperOptions :=
  {| strings := defaultMessageMapperStrings; sanitizeAssistantText := None |}.

End Protocol.

(** ** The chat store and its storage adapters
       ([store/ChatStore.ts], [MemoryAdapter.ts], [IndexedDbAdapter.ts]) *)

Module Store.
Import Js Protocol.

(** How an [async] method ends: its promise is fulfilled or rejected. *)
Inductive Settled : Type := Fulfilled | Rejected.

(** The interface [StorageAdapter].  An adapter is a value of type [A];
    an operation yields [None] when its promise is rejected. *)
Class StorageAdapter (A : Type) : Type := {
  loadSessionMessages : A -> string -> option (list RawProtocolMessage);
  saveMessage : A -> string -> RawProtocolMessage -> option A;
  updateMessage : A -> string -> RawProtocolMessage -> option A;
  clearSession : A -> string -> option A
}.

(** [items.findIndex(item => item.id === message.id)] *)
Definition findIndex (message : RawProtocolMessage) (items : list RawProtocolMessage)
  : option (nat * RawProtocolMessage) :=
  list_find (fun item => id item = id message) items.

(** [[...messages].sort((a, b) => a.timestamp - b.timestamp)]: the sort of
    the language is stable, so it is the stable ascending sort. *)
Fixpoint insert_by_timestamp (x : RawProtocolMessage) (l : list RawProtocolMessage)
  : list RawProtocolMessage :=
  match l with
  | [] => [x]
  | y :: l' =>
      if (timestamp x <=? timestamp y)%Z then x :: y :: l'
      else y :: insert_by_timestamp x l'
  end.

Definition sort_by_timestamp (l : list RawProtocolMessage) : list RawProtocolMessage :=
  foldr insert_by_timestamp [] l.

(** *** MemoryStorageAdapter *)

Record MemoryStorageAdapter : Type := {
  store : gmap string (list RawProtocolMessage)
}.

Module Memory.

Definition create : MemoryStorageAdapter := {| store := ∅ |}.

Definition loadSessionMessages (a : MemoryStorageAdapter) (sessionId : string)
  : list RawProtocolMessage :=
  default [] (store a !! sessionId).

Definition saveMessage (a : MemoryStorageAdapter) (sessionId : string)
    (message : RawProtocolMessage) : MemoryStorageAdapter :=
  let list := default [] (store a !! sessionId) in
  let list :=
    match findIndex message list with
    | Some (index, _) => <[index := message]> list
    | None => list ++ [message]
    end in
  {| store := <[sessionId := list]> (store a) |}.

Definition updateMessage (a : MemoryStorageAdapter) (sessionId : string)
    (message : RawProtocolMessage) : MemoryStorageAdapter :=
  saveMessage a sessionId message.

Definition clearSession (a : MemoryStorageAdapter) (sessionId : string)
  : MemoryStorageAdapter :=
  {| store := delete sessionId (store a) |}.

End Memory.

#[global] Instance MemoryStorageAdapter_adapter : StorageAdapter MemoryStorageAdapter := {
  loadSessionMessages a k := Some (Memory.loadSessionMessages a k);
  saveMessage a k m := Some (Memory.saveMessage a k m);
  updateMessage a k m := Some (Memory.updateMessage a k m);
  clearSession a k := Some (Memory.clearSession a k)
}.

(** *** IndexedDbAdapter *)

Record StoredMessage : Type := {
  key : string;
  stored_sessionId : string;
  stored_timestamp : Z;
  message : RawProtocolMessage
}.

(** The adapter together with the database it opens: whether the runtime
    has [indexedDB] at all, and the records of the object store
    [storeName] (key path [key]), kept in ascending key order as the
    database keeps them. *)
Record IndexedDbAdapter : Type := {
  indexedDB_available : bool;
  objectStore : list StoredMessage
}.

Module IndexedDb.

(** The database orders keys that are strings by their UTF-16 code
    units.  On the UTF-8 encoding kept here that is the order of the
    bytes, but for the characters beyond U+FFFF (lead bytes from 240),
    which come before U+E000 to U+FFFF (lead bytes 238 and 239), as
    their surrogates do. *)
Definition code_unit_rank (c : ascii) : N :=
  let n := N_of_ascii c in
  if (n <? 238)%N then n
  else if (n <? 240)%N then (n + 16)%N
  else (n - 2)%N.

Fixpoint compare_keys (a b : string) : comparison :=
  match a, b with
  | EmptyString, EmptyString => Eq
  | EmptyString, String.String _ _ => Lt
  | String.String _ _, EmptyString => Gt
  | String.String x a', String.String y b' =>
      match N.compare (code_unit_rank x) (code_unit_rank y) with
      | Eq => compare_keys a' b'
      | c => c
      end
  end.

(** [store.put(record)]: insert, or replace the record with the same key. *)
Fixpoint put (record : StoredMessage) (records : list StoredMessage) : list StoredMessage :=
  match records with
  | [] => [record]
  | r :: records' =>
      match compare_keys (key record) (key r) with
      | Lt => record :: r :: records'
      | Eq => record :: records'
      | Gt => r :: put record records'
      end
  end.

(** [store.index('sessionId').getAll(IDBKeyRange.only(sessionId))]: the
    records of the session, in key order. *)
Definition getAll (sessionId : string) (records : list StoredMessage) : list StoredMessage :=
  List.filter (fun r => String.eqb (stored_sessionId r) sessionId) records.

(** [openDb()] rejects when [indexedDB] is undefined. *)
Definition openDb (a : IndexedDbAdapter) : option (list StoredMessage) :=
  if indexedDB_available a then Some (objectStore a) else None.

Definition loadSessionMessages (a : IndexedDbAdapter) (sessionId : string)
  : option (list RawProtocolMessage) :=
  db ← openDb a;
  let items := getAll sessionId db in
  Some (sort_by_timestamp (message <$> items)).

(** The record that [putMessage] builds. *)
Definition record (sessionId : string) (message : RawProtocolMessage) : StoredMessage :=
  {| key := sessionId +:+ ":" +:+ id message;
     stored_sessionId := sessionId;
     stored_timestamp := timestamp message;
     message := message |}.

Definition putMessage (a : IndexedDbAdapter) (sessionId : string)
    (message : RawProtocolMessage) : option IndexedDbAdapter :=
  db ← openDb a;
  Some {| indexedDB_available := indexedDB_available a;
          objectStore := put (record sessionId message) db |}.

Definition saveMessage := putMessage.
Definition updateMessage := putMessage.

(** The keys of the session are read through the index and deleted one by one. *)
Definition clearSession (a : IndexedDbAdapter) (sessionId : string)
  : option IndexedDbAdapter :=
  db ← openDb a;
  let keys := key <$> getAll sessionId db in
  Some {| indexedDB_available := indexedDB_available a;
          objectStore := List.filter (fun r => negb (bool_decide (key r ∈ keys))) db |}.

End IndexedDb.

#[global] Instance IndexedDbAdapter_adapter : StorageAdapter IndexedDbAdapter := {
  loadSessionMessages := IndexedDb.loadSessionMessages;
  saveMessage := IndexedDb.saveMessage;
  updateMessage := IndexedDb.updateMessage;
  clearSession := IndexedDb.clearSession
}.

(** A run of [saveMessage] calls on one key, each awaited before the
    next; it stops at the first rejection. *)
Definition saveAll {A} `{StorageAdapter A} (sessionId : string)
    (messages : list RawProtocolMessage) (a : A) : option A :=
  foldl (fun a message => a ≫= fun a => saveMessage a sessionId message) (Some a) messages.

(** *** ChatStore *)

Record ChatStore (A : Type) : Type := {
  rawMessages : list RawProtocolMessage;
  messageIds : gset string;
  sessionId : option string;
  storageAdapter : option A;
  storageNamespace : option string
}.
Arguments rawMessages {A}.
Arguments messageIds {A}.
Arguments sessionId {A}.
Arguments storageAdapter {A}.
Arguments storageNamespace {A}.

(** [{ ...existing, ...message }]: every key of [message] overwrites,
    also one whose value is [undefined]; an optional key that [message]
    does not have is kept. *)
Definition spread_message (existing message : RawProtocolMessage) : RawProtocolMessage :=
  {| id := id message;
     trace_id := spread_field (trace_id existing) (trace_id message);
     message_type := message_type message;
     project_id := spread_field (project_id existing) (project_id message);
     payload := payload message;
     timestamp := timestamp message;
     sender_id := spread_field (sender_id existing) (sender_id message);
     status := spread_field (status existing) (status message) |}.

Section ChatStore.
Context {A : Type} `{StorageAdapter A}.

(** [new ChatStore(options)]; the namespace is
    [options?.storageNamespace?.trim() || undefined]. *)
Definition create (sessionId : option string) (storageAdapter : option A)
    (storageNamespace : option string) : ChatStore A :=
  {| rawMessages := []; messageIds := ∅; sessionId := sessionId;
     storageAdapter := storageAdapter;
     storageNamespace :=
       match trim <$> storageNamespace with
       | Some "" | None => None
       | Some ns => Some ns
       end |}.

Definition setSession (sessionId' : string) (s : ChatStore A) : ChatStore A :=
  {| rawMessages := rawMessages s; messageIds := messageIds s;
     sessionId := Some sessionId';
     storageAdapter := storageAdapter s; storageNamespace := storageNamespace s |}.

Definition getStorageKey (s : ChatStore A) (sessionId : string) : string :=
  match storageNamespace s with
  | Some "" | None => sessionId
  | Some ns => ns +:+ ":" +:+ sessionId
  end.

(** A session id that passes [if (target)]: neither [null] nor empty. *)
Definition truthy_session (sessionId : option string) : option string :=
  match sessionId with
  | Some "" | None => None
  | Some sid => Some sid
  end.

Definition loadSession (sessionId' : option string) (s : ChatStore A)
  : ChatStore A * Settled :=
  let target := from_option Some (sessionId s) sessionId' in
  match truthy_session target, storageAdapter s with
  | Some target, Some adapter =>
      match loadSessionMessages adapter (getStorageKey s target) with
      | Some messages =>
          let sorted := sort_by_timestamp messages in
          ({| rawMessages := sorted;
              messageIds := list_to_set (id <$> sorted);
              sessionId := Some target;
              storageAdapter := storageAdapter s;
              storageNamespace := storageNamespace s |}, Fulfilled)
      | None =>
          ({| rawMessages := rawMessages s; messageIds := messageIds s;
              sessionId := Some target;
              storageAdapter := storageAdapter s;
              storageNamespace := storageNamespace s |}, Rejected)
      end
  | _, _ => (s, Fulfilled)
  end.

(** The tail of [addMessage]: hand the message to the adapter, if there
    is one and a session is bound. *)
Definition persist (op : A -> string -> RawProtocolMessage -> option A)
    (message : RawProtocolMessage) (s : ChatStore A) : ChatStore A * Settled :=
  match storageAdapter s, truthy_session (sessionId s) with
  | Some adapter, Some sid =>
      match op adapter (getStorageKey s sid) message with
      | Some adapter' =>
          ({| rawMessages := rawMessages s; messageIds := messageIds s;
              sessionId := sessionId s;
              storageAdapter := Some adapter';
              storageNamespace := storageNamespace s |}, Fulfilled)
      | None => (s, Rejected)
      end
  | _, _ => (s, Fulfilled)
  end.

Definition addMessage (message : RawProtocolMessage) (s : ChatStore A)
  : ChatStore A * Settled :=
  match findIndex message (rawMessages s) with
  | Some (existingIndex, existing) =>
      persist updateMessage message
        {| rawMessages := <[existingIndex := spread_message existing message]> (rawMessages s);
           messageIds := messageIds s;
           sessionId := sessionId s;
           storageAdapter := storageAdapter s;
           storageNamespace := storageNamespace s |}
  | None =>
      persist saveMessage message
        {| rawMessages := rawMessages s ++ [message];
           messageIds := {[ id message ]} ∪ messageIds s;
           sessionId := sessionId s;
           storageAdapter := storageAdapter s;
           storageNamespace := storageNamespace s |}
  end.

Definition clearSession_store (sessionId' : option string) (s : ChatStore A)
  : ChatStore A * Settled :=
  let target := from_option Some (sessionId s) sessionId' in
  let cleared (adapter : option A) :=
    {| rawMessages := []; messageIds := ∅; sessionId := sessionId s;
       storageAdapter := adapter; storageNamespace := storageNamespace s |} in
  match truthy_session target, storageAdapter s with
  | Some target, Some adapter =>
      match clearSession adapter (getStorageKey s target) with
      | Some adapter' => (cleared (Some adapter'), Fulfilled)
      | None => (s, Rejected)
      end
  | _, _ => (cleared (storageAdapter s), Fulfilled)
  end.

(** A run of [addMessage] calls, each awaited before the next. *)
Definition addMessages (messages : list RawProtocolMessage) (s : ChatStore A) : ChatStore A :=
  foldl (fun s message => fst (addMessage message s)) s messages.

End ChatStore.

End Store.

(** ** The tool subsystem
       ([tool/types.ts], [errors.ts], [client.ts], [task-client.ts],
        [useToolTask.ts]) *)

Module Tool.
Import Js.

(** *** types.ts *)

Inductive ToolCallMode : Type := auto | sync | async.

Inductive ToolTaskState : Type :=
| idle | pending | running | completed | failed | cancelled.

#[global] Instance ToolTaskState_eq_dec : EqDecision ToolTaskState.
Proof. solve_decision. Defined.

Inductive ToolErrorCode : Type :=
| UNKNOWN | NETWORK | HTTP_4XX | HTTP_5XX | TOOL_SUBMIT_FAILED
| TASK_TIMEOUT | TASK_CANCELLED | TASK_FAILED | INVALID_RESPONSE.

#[global] Instance ToolErrorCode_eq_dec : EqDecision ToolErrorCode.
Proof. solve_decision. Defined.

Definition code_name (c : ToolErrorCode) : string :=
  match c with
  | UNKNOWN => "UNKNOWN" | NETWORK => "NETWORK"
  | HTTP_4XX => "HTTP_4XX" | HTTP_5XX => "HTTP_5XX"
  | TOOL_SUBMIT_FAILED => "TOOL_SUBMIT_FAILED" | TASK_TIMEOUT => "TASK_TIMEOUT"
  | TASK_CANCELLED => "TASK_CANCELLED" | TASK_FAILED => "TASK_FAILED"
  | INVALID_RESPONSE => "INVALID_RESPONSE"
  end.

Module ToolCallRequest.
Record t : Type := {
  tool_name : string;
  arguments : option JsRecord;
  timeout : option float;
  mode : option ToolCallMode
}.
End ToolCallRequest.

Module ToolCallResponse.
Record t : Type := {
  status : JsValue;
  mode : JsValue;
  task_id : JsValue;
  result : JsValue
}.
End ToolCallResponse.

(** [raw], the untyped cause that is only carried along, is left out. *)
Module ToolErrorDetails.
Record t : Type := {
  code : ToolErrorCode;
  message : string;
  retriable : bool;
  status : option Z;
  detail : option string
}.
End ToolErrorDetails.

Module ToolTaskPayload.
Record t : Type := {
  task_id : JsValue;
  status : JsValue;
  progress : JsValue;
  progress_message : JsValue;
  message : JsValue;
  result : JsValue;
  error : JsValue
}.
End ToolTaskPayload.

Module ToolTaskResponse.
Record t : Type := {
  status : JsValue;
  task : option ToolTaskPayload.t
}.
End ToolTaskResponse.

Inductive ToolLogLevel : Type := debug | info | warn | error_level.

(** [context] and [ts] of a log event are left out. *)
Module ToolLogEvent.
Record t : Type := {
  level : ToolLogLevel;
  code : string;
  message : string
}.
End ToolLogEvent.

(** *** errors.ts *)

(** What a [throw] carries: a [ToolSdkError], another [Error], or any
    other value. *)
Inductive Thrown : Type :=
| ToolSdkError (details : ToolErrorDetails.t)
| Error (message : string)
| ThrownValue (v : JsValue).

(** The result of a call that may throw. *)
Inductive Result (T : Type) : Type :=
| Return (v : T)
| Throw (e : Thrown).
Arguments Return {T}.
Arguments Throw {T}.

Definition normalizeError (h : Host) (input : Thrown) (fallback : ToolErrorCode)
  : ToolErrorDetails.t :=
  match input with
  | ToolSdkError details => details
  | Error message =>
      {| ToolErrorDetails.code := fallback;
         ToolErrorDetails.message := if String.eqb message "" then "Unknown error" else message;
         ToolErrorDetails.retriable :=
           bool_decide (fallback = NETWORK) || bool_decide (fallback = TASK_TIMEOUT);
         ToolErrorDetails.status := None;
         ToolErrorDetails.detail := None |}
  | ThrownValue v =>
      {| ToolErrorDetails.code := fallback;
         ToolErrorDetails.message := String h (nullish v (JString "Unknown error"));
         ToolErrorDetails.retriable := false;
         ToolErrorDetails.status := None;
         ToolErrorDetails.detail := None |}
  end.

Definition codeFromHttpStatus (status : Z) : ToolErrorCode :=
  if (status >=? 500)%Z then HTTP_5XX
  else if (status >=? 400)%Z then HTTP_4XX
  else UNKNOWN.

(** *** The HTTP exchange behind [fetchImpl] *)

(** The JSON body of a response that is not [null], read at the type the
    caller declares for it: its [detail] and [message] fields, and the
    body as a [T].  (A body that is an array, a string, a number or a
    boolean reads as an object with none of the fields.) *)
Record JsonBody (T : Type) : Type := {
  detail : JsValue;
  message : JsValue;
  typed : T
}.
Arguments detail {T}.
Arguments message {T}.
Arguments typed {T}.

(** How [{}] reads at type [T]: every field is [undefined]. *)
Class EmptyObject (T : Type) : Type := empty_object : T.

#[global] Instance ToolCallResponse_empty : EmptyObject ToolCallResponse.t :=
  {| ToolCallResponse.status := JUndefined; ToolCallResponse.mode := JUndefined;
     ToolCallResponse.task_id := JUndefined; ToolCallResponse.result := JUndefined |}.

#[global] Instance ToolTaskResponse_empty : EmptyObject ToolTaskResponse.t :=
  {| ToolTaskResponse.status := JUndefined; ToolTaskResponse.task := None |}.

(** The outcome of [await fetchImpl(url, init)]: the promise rejects, or
    it resolves to a response with a status and a body; [json = None]
    when [response.json()] rejects; [FetchResolvesNull] when the body is
    the JSON literal [null]. *)
Inductive FetchOutcome (T : Type) : Type :=
| FetchRejects (error : Thrown)
| FetchResolves (status : Z) (json : option (JsonBody T))
| FetchResolvesNull (status : Z).
Arguments FetchRejects {T}.
Arguments FetchResolves {T}.
Arguments FetchResolvesNull {T}.

(** The message of the TypeError raised by reading a property of
    [null]. *)
Definition TypeError_null (property : string) : string :=
  "Cannot read properties of null (reading '" +:+ property +:+ "')".

(** [response.ok] *)
Definition ok (status : Z) : bool := (200 <=? status)%Z && (status <=? 299)%Z.

(** The template [`${n}`] for an integer [n]. *)
Definition decimal (n : Z) : string := NilZero.string_of_int (Z.to_int n).

(** The body of both [request] methods.  What it returns is the parsed
    body, which is [null] ([None]) when the server sent that. *)
Definition request_body {T} `{EmptyObject T} (h : Host) (fetched : FetchOutcome T)
  : Result (option T) :=
  match fetched with
  | FetchRejects error =>
      Throw (ToolSdkError
        {| ToolErrorDetails.code := NETWORK;
           ToolErrorDetails.message :=
             match error with
             | ToolSdkError d => ToolErrorDetails.message d
             | Error message => message
             | ThrownValue _ => "Network request failed"
             end;
           ToolErrorDetails.retriable := true;
           ToolErrorDetails.status := None;
           ToolErrorDetails.detail := None |})
  | FetchResolves status json =>
      let body :=
        default {| detail := JUndefined; message := JUndefined; typed := empty_object |} json in
      if negb (ok status) then
        let detail :=
          String h (nullish (detail body)
                      (nullish (message body)
                         (JString ("Request failed: " +:+ decimal status)))) in
        Throw (ToolSdkError
          {| ToolErrorDetails.code := codeFromHttpStatus status;
             ToolErrorDetails.message := detail;
             ToolErrorDetails.retriable := (status >=? 500)%Z;
             ToolErrorDetails.status := Some status;
             ToolErrorDetails.detail := Some detail |})
      else Return (Some (typed body))
  | FetchResolvesNull status =>
      if negb (ok status) then Throw (Error (TypeError_null "detail"))
      else Return None
  end.

(** *** client.ts *)

Module ToolClient.

Definition request {T} `{EmptyObject T} (h : Host) (fetched : FetchOutcome T)
  : Result (option T) :=
  request_body h fetched.

(** [call(request)]: the server's answer to the POST of [/tools/call]. *)
Definition call (h : Host) (fetched : FetchOutcome ToolCallResponse.t)
  : Result (option ToolCallResponse.t) :=
  request h fetched.

End ToolClient.

(** *** task-client.ts *)

Module TaskClient.

Definition request {T} `{EmptyObject T} (h : Host) (fetched : FetchOutcome T)
  : Result (option T) :=
  request_body h fetched.

Definition normalizeProgress (h : Host) (raw : JsValue) : float :=
  let maybeNumber := match raw with JNumber n => n | _ => Number h raw end in
  let numeric := if Number_isFinite maybeNumber then maybeNumber else 0%float in
  let ratio := if (1 <? numeric)%float then (numeric / 100)%float else numeric in
  Math_max 0 (Math_min 1 ratio).

(** [get(taskId)] returns [response.task], which is [undefined] ([None])
    when the body has no such field; on the body [null] the read throws. *)
Definition get (h : Host) (fetched : FetchOutcome ToolTaskResponse.t)
  : Result (option ToolTaskPayload.t) :=
  match request h fetched with
  | Return (Some response) => Return (ToolTaskResponse.task response)
  | Return None => Throw (Error (TypeError_null "task"))
  | Throw e => Throw e
  end.

Definition lower (c : ascii) : ascii :=
  let n := nat_of_ascii c in
  if (65 <=? n)%nat && (n <=? 90)%nat then ascii_of_nat (n + 32) else c.

Fixpoint toLowerCase (s : string) : string :=
  match s with
  | EmptyString => EmptyString
  | String.String c s' => String.String (lower c) (toLowerCase s')
  end.

Module CancelResponse.
Record t : Type := { status : JsValue }.
End CancelResponse.

#[global] Instance CancelResponse_empty : EmptyObject CancelResponse.t :=
  {| CancelResponse.status := JUndefined |}.

Definition cancel (h : Host) (fetched : FetchOutcome CancelResponse.t) : Result bool :=
  match request h fetched with
  | Return (Some response) =>
      Return (String.eqb
                (toLowerCase (String h (nullish (CancelResponse.status response) (JString ""))))
                "success")
  | Return None => Throw (Error (TypeError_null "status"))
  | Throw e => Throw e
  end.

(** One turn of the polling loop as the environment decides it: the time
    elapsed since [start] when the timeout is tested, and the answer to
    the GET that follows. *)
Record Poll : Type := {
  elapsed : Z;
  fetched : FetchOutcome ToolTaskResponse.t
}.

(** How a wait ends; [StillWaiting] when the given polls are used up
    with the task not yet terminal. *)
Inductive WaitOutcome : Type :=
| Completed (task : ToolTaskPayload.t)
| Failed (e : Thrown)
| StillWaiting.

(** The message of the TypeError raised by reading a property of
    [undefined]. *)
Definition TypeError_undefined (property : string) : string :=
  "Cannot read properties of undefined (reading '" +:+ property +:+ "')".

Section waitForCompletion.
Variable h : Host.
(** The caller's state, which [onProgress] may change. *)
Context {St : Type}.
Variable taskId : JsValue.
Variable timeoutMs : Z.
Variable onProgress : option (float -> string -> St -> St).

(** The [while (true)] loop with its two variables. *)
Fixpoint waitForCompletion_loop (lastProgress : float) (lastMessage : string)
    (polls : list Poll) (s : St) : WaitOutcome * St :=
  match polls with
  | [] => (StillWaiting, s)
  | poll :: polls' =>
      if (elapsed poll >? timeoutMs)%Z then
        (Failed (ToolSdkError
           {| ToolErrorDetails.code := TASK_TIMEOUT;
              ToolErrorDetails.message :=
                "Task " +:+ String h taskId +:+ " timed out after "
                  +:+ decimal timeoutMs +:+ "ms";
              ToolErrorDetails.retriable := true;
              ToolErrorDetails.status := None;
              ToolErrorDetails.detail := None |}), s)
      else
        match get h (fetched poll) with
        | Throw e => (Failed e, s)
        | Return None => (Failed (Error (TypeError_undefined "progress")), s)
        | Return (Some task) =>
            let progress := normalizeProgress h (ToolTaskPayload.progress task) in
            let message :=
              String h (nullish (ToolTaskPayload.progress_message task)
                          (nullish (ToolTaskPayload.message task) (JString ""))) in
            let changed :=
              negb (progress =? lastProgress)%float || negb (String.eqb message lastMessage) in
            let '(s, lastProgress, lastMessage) :=
              match onProgress with
              | Some callback =>
                  if changed then (callback progress message s, progress, message)
                  else (s, lastProgress, lastMessage)
              | None => (s, lastProgress, lastMessage)
              end in
            let status := String h (nullish (ToolTaskPayload.status task) (JString "pending")) in
            if String.eqb status "completed" || String.eqb status "failed"
               || String.eqb status "cancelled"
            then
              (Completed
                 {| ToolTaskPayload.task_id := ToolTaskPayload.task_id task;
                    ToolTaskPayload.status := ToolTaskPayload.status task;
                    ToolTaskPayload.progress := JNumber progress;
                    ToolTaskPayload.progress_message := ToolTaskPayload.progress_message task;
                    ToolTaskPayload.message := ToolTaskPayload.message task;
                    ToolTaskPayload.result := ToolTaskPayload.result task;
                    ToolTaskPayload.error := ToolTaskPayload.error task |}, s)
            else waitForCompletion_loop lastProgress lastMessage polls' s
        end
  end.

Definition waitForCompletion (polls : list Poll) (s : St) : WaitOutcome * St :=
  waitForCompletion_loop (-1)%float "" polls s.

End waitForCompletion.

End TaskClient.

(** *** useToolTask.ts *)

Module UseToolTask.

(** The reactive cells of one orchestrator.  [state_history] and
    [progress_history] record, in order, every value assigned to [state]
    and to [progress]; [log_events] the events given to the log sink. *)
Record Refs : Type := {
  taskId : JsValue;
  state : ToolTaskState;
  progress : float;
  message : string;
  result : JsValue;
  error : string;
  errorCode : ToolErrorCode;
  errorDetails : option ToolErrorDetails.t;
  state_history : list ToolTaskState;
  progress_history : list float;
  log_events : list ToolLogEvent.t
}.

(** The assignments [x.value = v].  Those to [state] and [progress] are
    also appended to the histories. *)
Definition set_taskId (v : JsValue) (r : Refs) : Refs :=
  {| taskId := v; state := state r; progress := progress r;
     message := message r; result := result r; error := error r;
     errorCode := errorCode r; errorDetails := errorDetails r;
     state_history := state_history r;
     progress_history := progress_history r; log_events := log_events r |}.

Definition set_state (v : ToolTaskState) (r : Refs) : Refs :=
  {| taskId := taskId r; state := v; progress := progress r;
     message := message r; result := result r; error := error r;
     errorCode := errorCode r; errorDetails := errorDetails r;
     state_history := state_history r ++ [v];
     progress_history := progress_history r; log_events := log_events r |}.

Definition set_progress (v : float) (r : Refs) : Refs :=
  {| taskId := taskId r; state := state r; progress := v;
     message := message r; result := result r; error := error r;
     errorCode := errorCode r; errorDetails := errorDetails r;
     state_history := state_history r;
     progress_history := progress_history r ++ [v];
     log_events := log_events r |}.

Definition set_message (v : string) (r : Refs) : Refs :=
  {| taskId := taskId r; state := state r; progress := progress r;
     message := v; result := result r; error := error r;
     errorCode := errorCode r; errorDetails := errorDetails r;
     state_history := state_history r;
     progress_history := progress_history r; log_events := log_events r |}.

Definition set_result (v : JsValue) (r : Refs) : Refs :=
  {| taskId := taskId r; state := state r; progress := progress r;
     message := message r; result := v; error := error r;
     errorCode := errorCode r; errorDetails := errorDetails r;
     state_history := state_history r;
     progress_history := progress_history r; log_events := log_events r |}.

Definition set_error (v : string) (r : Refs) : Refs :=
  {| taskId := taskId r; state := state r; progress := progress r;
     message := message r; result := result r; error := v;
     errorCode := errorCode r; errorDetails := errorDetails r;
     state_history := state_history r;
     progress_history := progress_history r; log_events := log_events r |}.

Definition set_errorCode (v : ToolErrorCode) (r : Refs) : Refs :=
  {| taskId := taskId r; state := state r; progress := progress r;
     message := message r; result := result r; error := error r;
     errorCode := v; errorDetails := errorDetails r;
     state_history := state_history r;
     progress_history := progress_history r; log_events := log_events r |}.

Definition set_errorDetails (v : option ToolErrorDetails.t) (r : Refs) : Refs :=
  {| taskId := taskId r; state := state r; progress := progress r;
     message := message r; result := result r; error := error r;
     errorCode := errorCode r; errorDetails := v;
     state_history := state_history r;
     progress_history := progress_history r; log_events := log_events r |}.

(** [log(level, code, message, context)]: the event goes to the sink. *)
Definition log (level : ToolLogLevel) (code logMessage : string) (r : Refs) : Refs :=
  {| taskId := taskId r; state := state r; progress := progress r;
     message := message r; result := result r; error := error r;
     errorCode := errorCode r; errorDetails := errorDetails r;
     state_history := state_history r;
     progress_history := progress_history r;
     log_events := log_events r ++
       [{| ToolLogEvent.level := level; ToolLogEvent.code := code;
           ToolLogEvent.message := logMessage |}] |}.

(** [useToolTask()]: the cells at creation. *)
Definition create : Refs :=
  {| taskId := JString ""; state := idle; progress := 0%float; message := "";
     result := JNull; error := ""; errorCode := UNKNOWN; errorDetails := None;
     state_history := []; progress_history := []; log_events := [] |}.

Definition isRunning (r : Refs) : bool :=
  bool_decide (state r = pending) || bool_decide (state r = running).

Definition toError (details : ToolErrorDetails.t) : Thrown :=
  Error ("[" +:+ code_name (ToolErrorDetails.code details) +:+ "] "
           +:+ ToolErrorDetails.message details).

Definition normalizeProgress (h : Host) (raw : JsValue) (floor : float) : float :=
  let maybeNumber := match raw with JNumber n => n | _ => Number h raw end in
  let numeric := if Number_isFinite maybeNumber then maybeNumber else 0%float in
  let ratio := if (1 <? numeric)%float then (numeric / 100)%float else numeric in
  let clamped := Math_max 0 (Math_min 1 ratio) in
  Math_max floor clamped.

Definition reset (keepTaskId : bool) (r : Refs) : Refs :=
  let r := if negb keepTaskId then set_taskId (JString "") r else r in
  let r := set_state idle r in
  let r := set_progress 0 r in
  let r := set_message "" r in
  let r := set_result JNull r in
  let r := set_error "" r in
  let r := set_errorCode UNKNOWN r in
  set_errorDetails None r.

Definition applyError (details : ToolErrorDetails.t) (code : string) (r : Refs) : Refs :=
  let r := set_error (ToolErrorDetails.message details) r in
  let r := set_errorCode (ToolErrorDetails.code details) r in
  let r := set_errorDetails (Some details) r in
  let r :=
    if negb (bool_decide (state r = cancelled)) then
      set_state (if bool_decide (ToolErrorDetails.code details = TASK_CANCELLED)
                 then cancelled else failed) r
    else r in
  log error_level code (ToolErrorDetails.message details) r.

(** The server as one [run] meets it: its answer to the POST of the
    request, and the polls of the task that follow. *)
Record Server : Type := {
  answer : ToolCallRequest.t -> FetchOutcome ToolCallResponse.t;
  polls : list TaskClient.Poll
}.

(** How the promise of [run] ends; [Waiting] when it is still pending
    after the given polls. *)
Inductive RunOutcome : Type :=
| Returns (v : JsValue)
| Throws (e : Thrown)
| Waiting.

(** The [onProgress] callback that [run] passes to [waitForCompletion]. *)
Definition onProgress (h : Host) (p : float) (m : string) (r : Refs) : Refs :=
  let r := set_progress (normalizeProgress h (JNumber p) (progress r)) r in
  set_message (if String.eqb m "" then message r else m) r.

(** [{ ...request, mode }] *)
Definition with_mode (request : ToolCallRequest.t) (mode : ToolCallMode) : ToolCallRequest.t :=
  {| ToolCallRequest.tool_name := ToolCallRequest.tool_name request;
     ToolCallRequest.arguments := ToolCallRequest.arguments request;
     ToolCallRequest.timeout := ToolCallRequest.timeout request;
     ToolCallRequest.mode := Some mode |}.

Definition run (h : Host) (server : Server) (request : ToolCallRequest.t) (r : Refs)
  : RunOutcome * Refs :=
  let r := reset false r in
  let r := set_state pending r in
  let r := log info "TOOL_RUN_STARTED" "Tool execution started" r in
  let mode := default auto (ToolCallRequest.mode request) in
  match ToolClient.call h (answer server (with_mode request mode)) with
  | Throw err =>
      let normalized := normalizeError h err TOOL_SUBMIT_FAILED in
      let r := applyError normalized "TOOL_RUN_SUBMIT_FAILED" r in
      (Throws (toError normalized), r)
  | Return None =>
      (* [response.mode] on [null], outside the [try] *)
      (Throws (Error (TypeError_null "mode")), r)
  | Return (Some response) =>
      if is_string (ToolCallResponse.mode response) "async"
         && truthy (ToolCallResponse.task_id response)
      then
        let r := set_taskId (ToolCallResponse.task_id response) r in
        let r := set_state running r in
        let r := log info "TOOL_TASK_ACCEPTED" "Async tool task accepted" r in
        match TaskClient.waitForCompletion h (ToolCallResponse.task_id response) 3600000
                (Some (onProgress h)) (polls server) r with
        | (TaskClient.StillWaiting, r) => (Waiting, r)
        | (TaskClient.Failed err, r) =>
            let normalized := normalizeError h err TASK_FAILED in
            let r := applyError normalized "TOOL_TASK_WAIT_FAILED" r in
            (Throws (toError normalized), r)
        | (TaskClient.Completed finalTask, r) =>
            let r := set_progress
                       (normalizeProgress h (ToolTaskPayload.progress finalTask) (progress r)) r in
            let r := set_message
                       (String h (nullish (ToolTaskPayload.progress_message finalTask)
                                    (nullish (ToolTaskPayload.message finalTask) (JString "")))) r in
            if is_string (ToolTaskPayload.status finalTask) "completed" then
              let r := set_state completed r in
              let r := set_result (ToolTaskPayload.result finalTask) r in
              let r := log info "TOOL_TASK_COMPLETED" "Async tool task completed" r in
              (Returns (ToolTaskPayload.result finalTask), r)
            else if is_string (ToolTaskPayload.status finalTask) "cancelled" then
              let r := set_state cancelled r in
              let normalized :=
                {| ToolErrorDetails.code := TASK_CANCELLED;
                   ToolErrorDetails.message :=
                     String h (nullish (ToolTaskPayload.error finalTask) (JString "Task cancelled"));
                   ToolErrorDetails.retriable := false;
                   ToolErrorDetails.status := None;
                   ToolErrorDetails.detail := None |} in
              let r := applyError normalized "TOOL_TASK_CANCELLED" r in
              (Throws (toError normalized), r)
            else
              let normalized :=
                {| ToolErrorDetails.code := TASK_FAILED;
                   ToolErrorDetails.message :=
                     String h (nullish (ToolTaskPayload.error finalTask) (JString "Task failed"));
                   ToolErrorDetails.retriable := false;
                   ToolErrorDetails.status := None;
                   ToolErrorDetails.detail := None |} in
              let r := applyError normalized "TOOL_TASK_FAILED" r in
              (Throws (toError normalized), r)
        end
      else
        let r := set_state completed r in
        let r := set_progress 1 r in
        let r := set_result (ToolCallResponse.result response) r in
        let r := log info "TOOL_RUN_SYNC_COMPLETED" "Sync tool call completed" r in
        (Returns (ToolCallResponse.result response), r)
  end.

(** [cancel()]; [fetched] is the answer to the DELETE, should one be sent. *)
Definition cancel (h : Host) (fetched : FetchOutcome TaskClient.CancelResponse.t) (r : Refs)
  : Result bool * Refs :=
  if negb (truthy (taskId r)) || negb (isRunning r) then (Return false, r)
  else
    match TaskClient.cancel h fetched with
    | Throw err =>
        let normalized := normalizeError h err TASK_FAILED in
        let r := applyError normalized "TOOL_TASK_CANCEL_FAILED" r in
        (Throw (toError normalized), r)
    | Return ok =>
        if ok then
          let r := set_state cancelled r in
          let r := set_message "task cancelled" r in
          let r := log warn "TOOL_TASK_CANCELLED" "Task cancelled by user" r in
          (Return ok, r)
        else (Return ok, r)
    end.

End UseToolTask.

End Tool.

(** ** The realtime client ([client/ZmpLiteClient.ts]) *)

Module Client.
Import Js.

Inductive ZmpDirection : Type := request | response | event.

Record ZmpContext : Type := {
  ctx_task_id : option string;
  workflow_id : option string;
  session_id : option string;
  stage_id : option string;
  terminal_id : option string
}.

(** [protocol] and [version] are the constants ['zmp'] and ['2.0']. *)
Record ZmpEnvelope : Type := {
  trace_id : string;
  message_id : string;
  project_id : string;
  timestamp : Z;
  type : string;
  direction : ZmpDirection;
  context : option ZmpContext;
  payload : JsRecord
}.

(** [Partial<ZmpEnvelope>] *)
Record PartialEnvelope : Type := {
  p_trace_id : option string;
  p_message_id : option string;
  p_project_id : option string;
  p_timestamp : option Z;
  p_type : option string;
  p_direction : option ZmpDirection;
  p_context : option ZmpContext;
  p_payload : option JsRecord
}.

Inductive ConnectionState : Type :=
| idle | connecting | open | closed | error | reconnecting.

#[global] Instance ConnectionState_eq_dec : EqDecision ConnectionState.
Proof. solve_decision. Defined.

(** The reconnect policy; counts and delays are whole numbers, and the
    attempt counter, which starts at 0 and is only ever incremented or
    reset, is a natural number. *)
Record ReconnectOptions : Type := {
  enabled : option bool;
  maxAttempts : option Z;
  baseDelay : option Z
}.

Record ZmpLiteClientOptions : Type := {
  url : string;
  projectId : option string;
  capabilities : option (list string);
  heartbeatInterval : option Z;
  reconnect : option ReconnectOptions
}.

Inductive ReadyState : Type := CONNECTING | OPEN | CLOSING | CLOSED.

#[global] Instance ReadyState_eq_dec : EqDecision ReadyState.
Proof. solve_decision. Defined.

(** The host's [WebSocket] as the client uses it: the object is in some
    state [W], shows a [readyState], and [send] may change it. *)
Class WebSocketApi (W : Type) : Type := {
  readyState : W -> ReadyState;
  send : W -> ZmpEnvelope -> W
}.

(** What [emit] hands to the listeners. *)
Inductive Emitted : Type :=
| EmitOpen | EmitClose | EmitError | EmitState (next : ConnectionState).

(** What one [createEnvelope] draws from the host: two fresh ids and the
    clock. *)
Record Fresh : Type := {
  fresh_trace_id : string;
  fresh_message_id : string;
  now : Z
}.

Section ZmpLiteClient.
Context {W : Type} `{WebSocketApi W}.

(** The fields of a client.  [ws] is the socket the client points to, in
    its present state.  [transmitted], [scheduled], [heartbeat] and
    [emitted] record what the client has done: the envelopes given to
    [ws.send], the delays given to [setTimeout] for a reconnect, the
    interval timer that is running, and the events emitted. *)
Record ZmpLiteClient : Type := {
  ws : option W;
  options : ZmpLiteClientOptions;
  pendingMessages : list ZmpEnvelope;
  heartbeatTimer : option Z;
  reconnectAttempts : nat;
  state : ConnectionState;
  transmitted : list ZmpEnvelope;
  scheduled : list Z;
  heartbeat : option Z;
  emitted : list Emitted
}.

Definition set_ws (v : option W) (c : ZmpLiteClient) : ZmpLiteClient :=
  {| ws := v; options := options c; pendingMessages := pendingMessages c;
     heartbeatTimer := heartbeatTimer c;
     reconnectAttempts := reconnectAttempts c; state := state c;
     transmitted := transmitted c; scheduled := scheduled c;
     heartbeat := heartbeat c; emitted := emitted c |}.

Definition set_pendingMessages (v : list ZmpEnvelope) (c : ZmpLiteClient) : ZmpLiteClient :=
  {| ws := ws c; options := options c; pendingMessages := v;
     heartbeatTimer := heartbeatTimer c;
     reconnectAttempts := reconnectAttempts c; state := state c;
     transmitted := transmitted c; scheduled := scheduled c;
     heartbeat := heartbeat c; emitted := emitted c |}.

Definition set_heartbeatTimer (v : option Z) (c : ZmpLiteClient) : ZmpLiteClient :=
  {| ws := ws c; options := options c; pendingMessages := pendingMessages c;
     heartbeatTimer := v; reconnectAttempts := reconnectAttempts c;
     state := state c; transmitted := transmitted c;
     scheduled := scheduled c; heartbeat := heartbeat c;
     emitted := emitted c |}.

Definition set_reconnectAttempts (v : nat) (c : ZmpLiteClient) : ZmpLiteClient :=
  {| ws := ws c; options := options c; pendingMessages := pendingMessages c;
     heartbeatTimer := heartbeatTimer c; reconnectAttempts := v;
     state := state c; transmitted := transmitted c;
     scheduled := scheduled c; heartbeat := heartbeat c;
     emitted := emitted c |}.

Definition set_state (v : ConnectionState) (c : ZmpLiteClient) : ZmpLiteClient :=
  {| ws := ws c; options := options c; pendingMessages := pendingMessages c;
     heartbeatTimer := heartbeatTimer c;
     reconnectAttempts := reconnectAttempts c; state := v;
     transmitted := transmitted c; scheduled := scheduled c;
     heartbeat := heartbeat c; emitted := emitted c |}.

Definition set_transmitted (v : list ZmpEnvelope) (c : ZmpLiteClient) : ZmpLiteClient :=
  {| ws := ws c; options := options c; pendingMessages := pendingMessages c;
     heartbeatTimer := heartbeatTimer c;
     reconnectAttempts := reconnectAttempts c; state := state c;
     transmitted := v; scheduled := scheduled c; heartbeat := heartbeat c;
     emitted := emitted c |}.

Definition set_scheduled (v : list Z) (c : ZmpLiteClient) : ZmpLiteClient :=
  {| ws := ws c; options := options c; pendingMessages := pendingMessages c;
     heartbeatTimer := heartbeatTimer c;
     reconnectAttempts := reconnectAttempts c; state := state c;
     transmitted := transmitted c; scheduled := v; heartbeat := heartbeat c;
     emitted := emitted c |}.

Definition set_heartbeat (v : option Z) (c : ZmpLiteClient) : ZmpLiteClient :=
  {| ws := ws c; options := options c; pendingMessages := pendingMessages c;
     heartbeatTimer := heartbeatTimer c;
     reconnectAttempts := reconnectAttempts c; state := state c;
     transmitted := transmitted c; scheduled := scheduled c; heartbeat := v;
     emitted := emitted c |}.

Definition set_emitted (v : list Emitted) (c : ZmpLiteClient) : ZmpLiteClient :=
  {| ws := ws c; options := options c; pendingMessages := pendingMessages c;
     heartbeatTimer := heartbeatTimer c;
     reconnectAttempts := reconnectAttempts c; state := state c;
     transmitted := transmitted c; scheduled := scheduled c;
     heartbeat := heartbeat c; emitted := v |}.

(** The constructor; the caller's options already stand over the
    defaults ([heartbeatInterval: 30000] and [default_reconnect]). *)
Definition default_reconnect : ReconnectOptions :=
  {| enabled := Some true; maxAttempts := Some 5; baseDelay := Some 1200 |}.

Definition create (options : ZmpLiteClientOptions) : ZmpLiteClient :=
  {| ws := None; options := options; pendingMessages := []; heartbeatTimer := None;
     reconnectAttempts := 0%nat; state := idle;
     transmitted := []; scheduled := []; heartbeat := None; emitted := [] |}.

Definition emit (e : Emitted) (c : ZmpLiteClient) : ZmpLiteClient :=
  set_emitted (emitted c ++ [e]) c.

Definition updateState (next : ConnectionState) (c : ZmpLiteClient) : ZmpLiteClient :=
  emit (EmitState next) (set_state next c).

(** [this.ws?.readyState === WebSocket.OPEN] *)
Definition ws_open (c : ZmpLiteClient) : bool :=
  match ws c with
  | Some w => bool_decide (readyState w = OPEN)
  | None => false
  end.

Definition createEnvelope (f : Fresh) (partial : PartialEnvelope) (c : ZmpLiteClient)
  : ZmpEnvelope :=
  {| trace_id := default (fresh_trace_id f) (p_trace_id partial);
     message_id := default (fresh_message_id f) (p_message_id partial);
     project_id := default (default "" (projectId (options c))) (p_project_id partial);
     timestamp := default (now f) (p_timestamp partial);
     type := default "unknown" (p_type partial);
     direction := default request (p_direction partial);
     context := p_context partial;
     payload := default ∅ (p_payload partial) |}.

Definition sendEnvelopeInternal (envelope : ZmpEnvelope) (c : ZmpLiteClient) : ZmpLiteClient :=
  match ws c with
  | Some w =>
      if bool_decide (readyState w = OPEN) then
        set_transmitted (transmitted c ++ [envelope]) (set_ws (Some (send w envelope)) c)
      else set_pendingMessages (pendingMessages c ++ [envelope]) c
  | None => set_pendingMessages (pendingMessages c ++ [envelope]) c
  end.

Definition sendEnvelope (f : Fresh) (partial : PartialEnvelope) (c : ZmpLiteClient)
  : string * ZmpLiteClient :=
  let envelope := createEnvelope f partial c in
  (message_id envelope, sendEnvelopeInternal envelope c).

(** The [while] loop of [flushPendingMessages], by recursion on the queue:
    [shift] takes the head; it is sent if the socket is open, else put
    back ([unshift]) and the loop ends.  (An envelope is an object, so
    the [if (!msg) break] never fires.) *)
Fixpoint flush_loop (pending : list ZmpEnvelope) (c : ZmpLiteClient) : ZmpLiteClient :=
  match pending with
  | [] => set_pendingMessages [] c
  | msg :: rest =>
      match ws c with
      | Some w =>
          if bool_decide (readyState w = OPEN) then
            flush_loop rest
              (set_transmitted (transmitted c ++ [msg])
                 (set_ws (Some (send w msg)) (set_pendingMessages rest c)))
          else set_pendingMessages (msg :: rest) c
      | None => set_pendingMessages (msg :: rest) c
      end
  end.

Definition flushPendingMessages (c : ZmpLiteClient) : ZmpLiteClient :=
  flush_loop (pendingMessages c) c.

(** One iteration of that loop which sends: the head of the queue leaves
    it and goes to the open socket.  (The other kind of iteration puts the
    head back and changes nothing.) *)
Inductive flush_step : ZmpLiteClient -> ZmpLiteClient -> Prop :=
| flush_send c msg rest w :
    pendingMessages c = msg :: rest ->
    ws c = Some w ->
    readyState w = OPEN ->
    flush_step c
      (set_transmitted (transmitted c ++ [msg])
         (set_ws (Some (send w msg)) (set_pendingMessages rest c))).

Definition sendHandshake (f : Fresh) (c : ZmpLiteClient) : ZmpLiteClient :=
  sendEnvelopeInternal
    (createEnvelope f
       {| p_trace_id := None; p_message_id := None; p_project_id := None;
          p_timestamp := None; p_type := Some "handshake"; p_direction := None;
          p_context := None;
          p_payload :=
            Some {[ "client_version" := JString "2.0.0";
                    "capabilities" :=
                      JArray (JString <$>
                                default ["agent_v2"; "streaming"] (capabilities (options c))) ]}
       |} c) c.

(** [setInterval] returns a handle; the interval stands for it. *)
Definition startHeartbeat (c : ZmpLiteClient) : ZmpLiteClient :=
  let c :=
    match heartbeatTimer c with
    | Some _ => set_heartbeat None c
    | None => c
    end in
  match heartbeatInterval (options c) with
  | Some interval =>
      if (interval =? 0)%Z then c
      else set_heartbeat (Some interval) (set_heartbeatTimer (Some interval) c)
  | None => c
  end.

Definition stopHeartbeat (c : ZmpLiteClient) : ZmpLiteClient :=
  match heartbeatTimer c with
  | Some _ => set_heartbeatTimer None (set_heartbeat None c)
  | None => c
  end.

Definition shouldReconnect (c : ZmpLiteClient) : bool :=
  match reconnect (options c) with
  | None => false
  | Some config =>
      if negb (default false (enabled config)) then false
      else if (Z.of_nat (reconnectAttempts c) >=? default 0 (maxAttempts config))%Z then false
      else true
  end.

Definition scheduleReconnect (c : ZmpLiteClient) : ZmpLiteClient :=
  match reconnect (options c) with
  | None => c
  | Some config =>
      if negb (default false (enabled config)) then c
      else
        let delay := (default 1000 (baseDelay config) * 2 ^ Z.of_nat (reconnectAttempts c))%Z in
        let c := set_reconnectAttempts (reconnectAttempts c + 1)%nat c in
        let c := updateState reconnecting c in
        set_scheduled (scheduled c ++ [delay]) c
  end.

(** [connect()]; [socket] is the object that [new WebSocket(url)] yields. *)
Definition connect (socket : W) (c : ZmpLiteClient) : ZmpLiteClient :=
  match ws c with
  | Some w =>
      if bool_decide (readyState w = OPEN) || bool_decide (readyState w = CONNECTING)
      then c
      else set_ws (Some socket) (updateState connecting c)
  | None => set_ws (Some socket) (updateState connecting c)
  end.

(** The socket changes state by itself; the client sees the new state
    through its reference. *)
Definition socket_now (w : W) (c : ZmpLiteClient) : ZmpLiteClient := set_ws (Some w) c.

Definition ws_onopen (f : Fresh) (c : ZmpLiteClient) : ZmpLiteClient :=
  let c := set_reconnectAttempts 0%nat c in
  let c := updateState open c in
  let c := sendHandshake f c in
  let c := flushPendingMessages c in
  let c := startHeartbeat c in
  emit EmitOpen c.

Definition ws_onclose (c : ZmpLiteClient) : ZmpLiteClient :=
  let c := stopHeartbeat c in
  let c := updateState closed c in
  let c := emit EmitClose c in
  if shouldReconnect c then scheduleReconnect c else c.

Definition ws_onerror (c : ZmpLiteClient) : ZmpLiteClient :=
  emit EmitError (updateState error c).

(** A connection is lost, and then each attempt to reconnect fails: the
    timer fires [connect()], which gets the next of [sockets], and that
    socket closes without having opened. *)
Definition failures (sockets : list W) (c : ZmpLiteClient) : ZmpLiteClient :=
  foldl (fun c socket => ws_onclose (connect socket c)) (ws_onclose c) sockets.

Definition disconnect (c : ZmpLiteClient) : ZmpLiteClient :=
  let c := stopHeartbeat c in
  let c :=
    match ws c with
    | Some w => set_ws None c
    | None => c
    end in
  updateState closed c.

End ZmpLiteClient.
Arguments ZmpLiteClient W : clear implicits.

End Client.

(** ** The specification's own wording, for comparison with the sources *)

Module Spec.
Import Js Protocol.



(** The ids of a sequence of writes in the order of their first
    occurrence: "the number of distinct ids" is its length. *)
Definition first_occurrences (ids : list string) : list string :=
  foldl (fun seen x => if decide (x ∈ seen) then seen else seen ++ [x]) [] ids.

(** "last-write-wins field merge" of the writes of one id, oldest first. *)
Definition last_write_wins (writes : list RawProtocolMessage) : option RawProtocolMessage :=
  match writes with
  | [] => None
  | first :: later => Some (foldl Store.spread_message first later)
  end.

(** "sorted by timestamp", ascending. *)
Definition sorted_by_timestamp (l : list RawProtocolMessage) : Prop :=
  Sorted (fun a b => (timestamp a <= timestamp b)%Z) l.

(** A sequence of numbers none of which is below its predecessor. *)
Definition non_decreasing (l : list float) : Prop :=
  Sorted (fun a b => (a <=? b)%float = true) l.

End Spec.

(** ** Concrete inputs, to run the definitions on *)

Module Samples.
Import Js Protocol.

(** A raw message with no optional field. *)
Definition message (id type : string) (payload : list (string * JsValue)) (timestamp : Z)
  : RawProtocolMessage :=
  {| id := id; trace_id := Absent; message_type := type; project_id := Absent;
     payload := list_to_map payload; timestamp := timestamp;
     sender_id := Absent; status := Absent |}.

(** A host whose functions answer with fixed values; it serves where
    the result does not depend on the host. *)
Definition host : Host :=
  {| JSON_stringify := fun _ => JUndefined;
     JSON_stringify_record := fun _ => "{}";
     Date_toISOString := fun _ => "1970-01-01T00:00:00.000Z";
     String_replace := fun s _ _ => s;
     StringToNumber := fun _ => nan;
     ObjectToNumber := fun _ => nan;
     NumberToString := fun _ => "0";
     ObjectToString := fun _ => "[object Object]" |}.

(** A socket that accepts [budget] more frames; the send that uses up
    the last of them leaves it closing. *)
Record Socket : Type := { ready : Client.ReadyState; budget : nat }.

#[global] Instance Socket_api : Client.WebSocketApi Socket := {
  Client.readyState := ready;
  Client.send w _ :=
    match budget w with
    | O | S O => {| ready := Client.CLOSING; budget := 0 |}
    | S n => {| ready := ready w; budget := n |}
    end
}.

Definition envelope (message_id : string) : Client.ZmpEnvelope :=
  {| Client.trace_id := "t"; Client.message_id := message_id; Client.project_id := "";
     Client.timestamp := 0; Client.type := "user_command";
     Client.direction := Client.request; Client.context := None;
     Client.payload := ∅ |}.

Definition client_options (config : Client.ReconnectOptions) : Client.ZmpLiteClientOptions :=
  {| Client.url := "ws://localhost"; Client.projectId := None;
     Client.capabilities := None; Client.heartbeatInterval := Some 30000;
     Client.reconnect := Some config |}.

End Samples.

(** ** What the further properties need of the embedding *)

(** ** Further samples *)

Module ToolSamples.
Import Js Tool.





End ToolSamples.

(** ** The realtime client, further ([client/ZmpLiteClient.ts]) *)

Module ClientMessages.
Import Js Client.

#[global] Instance ZmpDirection_eq_dec : EqDecision ZmpDirection.
Proof. solve_decision. Defined.

(** [sessionInfo]: the three session fields.  They hold what the payload
    of the handshake response holds ([?? null], [?? []]). *)
Record SessionInfo : Type := {
  info_sessionId : JsValue;
  info_serverVersion : JsValue;
  info_supportedFeatures : JsValue
}.

(** The options of [sendUserCommand]. *)
Record CommandOptions : Type := {
  traceId : option string;
  messageId : option string;
  taskId : option string;
  command_projectId : option string
}.

Inductive HumanAction : Type := accept | reject | edit | respond.

(** The strings ['accept' | 'reject' | 'edit' | 'response']. *)
Definition action_name (a : HumanAction) : string :=
  match a with
  | accept => "accept" | reject => "reject" | edit => "edit" | respond => "response"
  end.

Record HumanResponse : Type := {
  requestId : string;
  action : HumanAction;
  args : JsValue;
  reason : JsValue
}.

(** An envelope read as a [Partial<ZmpEnvelope>]: every field is there,
    [context] as far as the envelope has one. *)
Definition as_partial (e : ZmpEnvelope) : PartialEnvelope :=
  {| p_trace_id := Some (trace_id e); p_message_id := Some (message_id e);
     p_project_id := Some (project_id e); p_timestamp := Some (timestamp e);
     p_type := Some (type e); p_direction := Some (direction e);
     p_context := context e; p_payload := Some (payload e) |}.

Section WithSocket.
Context {W : Type} `{WebSocketApi W}.

(** A client with its session fields, and with what its listeners have
    been called with: [delivered] the envelopes given to the message
    handlers, [handshakes] the session infos emitted as 'handshake'.
    (The handlers are taken not to throw.) *)
Record Session : Type := {
  client : ZmpLiteClient W;
  sessionInfo : SessionInfo;
  delivered : list ZmpEnvelope;
  handshakes : list SessionInfo
}.

Definition start (c : ZmpLiteClient W) : Session :=
  {| client := c;
     sessionInfo := {| info_sessionId := JNull; info_serverVersion := JNull;
                       info_supportedFeatures := JArray [] |};
     delivered := []; handshakes := [] |}.

Definition with_client (c : ZmpLiteClient W) (s : Session) : Session :=
  {| client := c; sessionInfo := sessionInfo s; delivered := delivered s;
     handshakes := handshakes s |}.

(** [handleMessage(message)]; [f] is what the [createEnvelope] of the
    heartbeat reply draws from the host. *)
Definition handleMessage (f : Fresh) (message : ZmpEnvelope) (s : Session) : Session :=
  if String.eqb (type message) "handshake" && bool_decide (direction message = response) then
    let info :=
      {| info_sessionId := nullish (get (payload message) "session_id") JNull;
         info_serverVersion := nullish (get (payload message) "server_version") JNull;
         info_supportedFeatures :=
           nullish (get (payload message) "supported_features") (JArray []) |} in
    {| client := client s; sessionInfo := info; delivered := delivered s;
       handshakes := handshakes s ++ [info] |}
  else if String.eqb (type message) "heartbeat" && bool_decide (direction message = request)
  then
    with_client
      (sendEnvelopeInternal
         (createEnvelope f
            {| p_trace_id := None; p_message_id := None; p_project_id := None;
               p_timestamp := None; p_type := Some "heartbeat"; p_direction := None;
               p_context := None;
               p_payload := Some {[ "ping_time" := get (payload message) "ping_time" ]} |}
            (client s))
         (client s)) s
  else
    {| client := client s; sessionInfo := sessionInfo s;
       delivered := delivered s ++ [message]; handshakes := handshakes s |}.

(** [ws.onmessage]: [parsed] is the envelope that [JSON.parse(event.data)]
    yields, [None] when it throws. *)
Definition ws_onmessage (f : Fresh) (parsed : option ZmpEnvelope) (s : Session) : Session :=
  match parsed with
  | Some message => handleMessage f message s
  | None => with_client (emit EmitError (client s)) s
  end.

(** One firing of the heartbeat interval; [ping_time] is the number that
    the first [Date.now()] returns. *)
Definition heartbeat_tick (f : Fresh) (ping_time : float) (c : ZmpLiteClient W)
  : ZmpLiteClient W :=
  if ws_open c then
    sendEnvelopeInternal
      (createEnvelope f
         {| p_trace_id := None; p_message_id := None; p_project_id := None;
            p_timestamp := None; p_type := Some "heartbeat"; p_direction := None;
            p_context := None;
            p_payload := Some {[ "ping_time" := JNumber ping_time ]} |} c) c
  else c.

(** [sendUserCommand(payload, options)]; [fresh_trace], [fresh_message]
    and [fresh_task] are what [createId()] returns where it is called,
    [f] and [f'] what the two [createEnvelope] calls draw (the one of
    [sendUserCommand] itself and the one inside [sendEnvelope]). *)
Definition sendUserCommand (fresh_trace fresh_message fresh_task : string) (f f' : Fresh)
    (payload : JsRecord) (o : option CommandOptions) (c : ZmpLiteClient W)
  : (string * string * string) * ZmpLiteClient W :=
  let traceId := default fresh_trace (o ≫= traceId) in
  let messageId := default fresh_message (o ≫= messageId) in
  let taskId := default fresh_task (o ≫= taskId) in
  let envelope :=
    createEnvelope f
      {| p_trace_id := Some traceId; p_message_id := Some messageId;
         p_project_id :=
           Some (default (default "" (projectId (options c))) (o ≫= command_projectId));
         p_timestamp := None; p_type := Some "user_command"; p_direction := None;
         p_context :=
           Some {| ctx_task_id := Some taskId; workflow_id := None; session_id := None;
                   stage_id := None; terminal_id := None |};
         p_payload := Some payload |} c in
  ((traceId, messageId, taskId), snd (sendEnvelope f' (as_partial envelope) c)).

(** [sendHumanInterventionResponse(payload)] *)
Definition sendHumanInterventionResponse (f f' : Fresh) (r : HumanResponse)
    (c : ZmpLiteClient W) : string * ZmpLiteClient W :=
  let envelope :=
    createEnvelope f
      {| p_trace_id := None; p_message_id := None; p_project_id := None;
         p_timestamp := None; p_type := Some "human_intervention_response";
         p_direction := None; p_context := None;
         p_payload :=
           Some {[ "request_id" := JString (requestId r);
                   "action" := JString (action_name (action r));
                   "args" := args r;
                   "reason" := reason r ]} |} c in
  (message_id envelope, snd (sendEnvelope f' (as_partial envelope) c)).

End WithSocket.
Arguments Session W : clear implicits.

End ClientMessages.

(** ** The chat session ([composables/useChatSession.ts]) *)

Module ChatSession.
Import Js Protocol Store Client ClientMessages.

(** [toRawProtocolMessage(envelope, senderId = 'assistant')]; an envelope
    has its payload and its timestamp. *)
Definition toRawProtocolMessage (envelope : ZmpEnvelope) (senderId : option string)
  : RawProtocolMessage :=
  {| Protocol.id := message_id envelope;
     Protocol.trace_id := Present (Client.trace_id envelope);
     Protocol.message_type := Client.type envelope;
     Protocol.project_id := Present (Client.project_id envelope);
     Protocol.payload := Client.payload envelope;
     Protocol.timestamp := Client.timestamp envelope;
     Protocol.sender_id := Present (default "assistant" senderId);
     Protocol.status := Absent |}.

(** The part of the configuration that [sendMessage] reads; a field that
    is not set is [undefined]. *)
Record Config : Type := {
  config_projectId : option string;
  config_modelConfig : JsValue;
  config_mode : JsValue;
  config_workflowContext : JsValue;
  config_pluginContext : JsValue
}.

(** The options of [sendMessage]. *)
Record SendOptions : Type := {
  files : JsValue;
  history : JsValue;
  modelConfig : JsValue;
  mode : JsValue;
  workflowContext : JsValue;
  pluginContext : JsValue
}.

(** [options?.x] for every field: no options read as all [undefined]. *)
Definition no_options : SendOptions :=
  {| files := JUndefined; history := JUndefined; modelConfig := JUndefined;
     mode := JUndefined; workflowContext := JUndefined; pluginContext := JUndefined |}.

(** The [UserCommandPayload] that [sendMessage] builds. *)
Definition user_payload (config : Config) (text : string) (options : option SendOptions)
  : JsRecord :=
  let o := default no_options options in
  {[ "text" := JString text;
     "files" := files o;
     "model_config" := nullish (modelConfig o) (config_modelConfig config);
     "mode" := nullish (mode o) (config_mode config);
     "workflow_context" := nullish (workflowContext o) (config_workflowContext config);
     "plugin_context" := nullish (pluginContext o) (config_pluginContext config);
     "chat_history" := history o ]}.

Section WithSocketAndAdapter.
Context {W : Type} `{WebSocketApi W}.
Context {A : Type} `{StorageAdapter A}.

(** The client and the store of one session.  The listener that
    [useChatSession] registers with [client.onMessage] adds every
    envelope delivered to the store. *)
Record ChatSession : Type := {
  session : Session W;
  store : ChatStore A
}.

(** [store.addMessage(toRawProtocolMessage(message))], the listener. *)
Definition onMessage (message : ZmpEnvelope) (st : ChatStore A) : ChatStore A :=
  fst (addMessage (toRawProtocolMessage message None) st).

(** An inbound envelope reaches the client, and the listener runs on
    what the client delivers of it. *)
Definition receive (f : Fresh) (message : ZmpEnvelope) (cs : ChatSession) : ChatSession :=
  let s' := handleMessage f message (session cs) in
  {| session := s';
     store := foldl (fun st m => onMessage m st) (store cs)
                    (drop (length (delivered (session cs))) (delivered s')) |}.

(** [sendMessage(text, options)]; [now_local] is the [Date.now()] of the
    local copy, the other arguments are those of [sendUserCommand]. *)
Definition sendMessage (config : Config)
    (fresh_trace fresh_message fresh_task : string) (f f' : Fresh) (now_local : Z)
    (text : string) (options : option SendOptions) (cs : ChatSession)
  : (string * string * string) * ChatSession :=
  let payload := user_payload config text options in
  let '(result, c') :=
    sendUserCommand fresh_trace fresh_message fresh_task f f' payload
      (Some {| traceId := None; messageId := None; taskId := None;
               command_projectId := config_projectId config |})
      (client (session cs)) in
  let '(traceId, messageId, taskId) := result in
  let raw :=
    toRawProtocolMessage
      {| Client.trace_id := traceId; Client.message_id := messageId;
         Client.project_id := default "" (config_projectId config);
         Client.timestamp := now_local; Client.type := "user_command";
         Client.direction := request;
         Client.context := Some {| ctx_task_id := Some taskId; workflow_id := None;
                            session_id := None; stage_id := None; terminal_id := None |};
         Client.payload := payload |}
      (Some "user") in
  (result,
   {| session := with_client c' (session cs);
      store := fst (addMessage raw (store cs)) |}).

End WithSocketAndAdapter.
Arguments ChatSession W A : clear implicits.

End ChatSession.

(* ===================================================================== *)
(** * Part I': invariants and case analyses that the proofs use *)
(* ===================================================================== *)

(** ** The merge pass *)

Module MergeInvariants.
Import Js Protocol Protocol.UI.

Section Mapper.
Variable h : Host.
Variable options : MessageMapperOptions.

(** For the proofs, the conversion and the loop continued to the
    messages on which the source throws: the time is then formatted by
    the host as it is and the text left unsanitized.  On the messages
    that [toUIMessage] converts, [ui_of] is what it returns
    ([ProtocolFacts.toUIMessage_ui_of]); the theorems speak of
    [toUIMessage] and [mergeMessages] alone. *)
Definition sanitize_of (text : JsValue) (shouldTrim : option bool) : JsValue :=
  default text (sanitize options text shouldTrim).

Definition base_of (zmpMsg : RawProtocolMessage) : UIMessage :=
  {| UI.id := Protocol.id zmpMsg;
     type := unknown;
     content := JString "";
     createdAt := Date_toISOString h (timestamp zmpMsg);
     stage := JUndefined; todos := JUndefined; reasoning := JUndefined;
     todoId := JUndefined; UI.status := JUndefined; result := JUndefined;
     UI.error := JUndefined; toolName := JUndefined; success := JUndefined;
     actionRequired := JUndefined; isFinal := JUndefined;
     errorCode := JUndefined; errorMessage := JUndefined;
     suggestion := JUndefined;
     UI.payload := Protocol.payload zmpMsg;
     hilRequestId := JUndefined; hilStatus := None;
     hilDescription := JUndefined; hilRiskLevel := JUndefined;
     hilResponseText := JUndefined |}.

Local Notation "m '|>' f" := (f m) (at level 41, left associativity, only parsing).

Definition ui_of (zmpMsg : RawProtocolMessage) : UIMessage :=
  let payload := Protocol.payload zmpMsg in
  let msgType := message_type zmpMsg in
  let base := base_of zmpMsg in
  if String.eqb msgType MESSAGE_TYPES.USER_COMMAND then
    base |> set_type user
         |> set_content (or (get payload "text") (JString ""))
  else if String.eqb msgType MESSAGE_TYPES.AGENT_ACK then
    base |> set_type ack
         |> set_content (or (get payload "message") (JString (processing (strings options))))
  else if String.eqb msgType MESSAGE_TYPES.AGENT_THOUGHT then
    base |> set_type thought
         |> set_content (or (get payload "content") (JString ""))
         |> set_stage (or (get payload "stage") (JString "thinking"))
  else if String.eqb msgType MESSAGE_TYPES.AGENT_PLAN then
    base |> set_type plan
         |> set_content (JString "")
         |> set_todos (or (get payload "todos") (JArray []))
         |> set_reasoning (or (get payload "reasoning") (JString ""))
  else if String.eqb msgType MESSAGE_TYPES.TODO_UPDATE then
    base |> set_type todo_update
         |> set_content (JString "")
         |> set_todoId (or (get payload "todo_id") (JString ""))
         |> set_status (or (get payload "status") (JString "pending"))
         |> set_result (get payload "result")
         |> set_error (get payload "error")
  else if String.eqb msgType MESSAGE_TYPES.TOOL_CALL then
    base |> set_type tool_call
         |> set_content (JString "")
         |> set_toolName (or (get payload "tool_name") (JString "unknown"))
  else if String.eqb msgType MESSAGE_TYPES.TOOL_RESULT then
    base |> set_type tool_result
         |> set_content (JString "")
         |> set_toolName (or (get payload "tool_name") (JString "unknown"))
         |> set_success (nullish (get payload "success") (JBool true))
         |> set_result (match get payload "result" with
                        | JString s => JString s
                        | v => JSON_stringify h v
                        end)
         |> set_actionRequired (get payload "action_required")
  else if String.eqb msgType MESSAGE_TYPES.AGENT_STREAM then
    base |> set_type stream
         |> set_content
              (sanitize_of (or (or (get payload "content") (get payload "chunk")) (JString ""))
                           (Some false))
         |> set_isFinal (or (get payload "is_final") (JBool false))
  else if String.eqb msgType MESSAGE_TYPES.AGENT_RESPONSE then
    base |> set_type response
         |> set_content (sanitize_of (or (get payload "content") (JString "")) None)
  else if String.eqb msgType MESSAGE_TYPES.AGENT_ERROR then
    base |> set_type Protocol.error
         |> set_content (JString "")
         |> set_errorCode (or (get payload "code") (JString "UNKNOWN"))
         |> set_errorMessage (or (get payload "message") (JString (unknownError (strings options))))
         |> set_suggestion (get payload "suggestion")
  else if String.eqb msgType MESSAGE_TYPES.HUMAN_INTERVENTION_REQUEST then
    base |> set_type hil_request
         |> set_content (or (get payload "description") (JString (title (hil (strings options)))))
         |> set_hilRequestId (or (get payload "request_id") (JString ""))
         |> set_hilStatus (Some pending)
         |> set_hilDescription (or (get payload "description") (JString ""))
         |> set_hilRiskLevel (or (get payload "risk_level") (JString "medium"))
         |> set_toolName (or (get payload "tool_name") (JString ""))
  else if String.eqb msgType MESSAGE_TYPES.HUMAN_INTERVENTION_RESPONSE then
    base |> set_type unknown
         |> set_content (JString "")
         |> set_hilResponseText
              (or (get payload "response_text") (JString (responded (hil (strings options)))))
  else
    base |> set_type unknown
         |> set_content (JString (JSON_stringify_record h payload)).

Definition step_of (st : MergeState) (zmpMsg : RawProtocolMessage) : MergeState :=
  merge_entry h options st (ui_of zmpMsg).

Definition run_of (st : MergeState) (rawMessages : list RawProtocolMessage) : MergeState :=
  foldl step_of st rawMessages.

Definition merged_of (rawMessages : list RawProtocolMessage) : list UIMessage :=
  uiMessages (run_of merge_init rawMessages).

(** [toUIMessage] returns on [m]. *)
Definition converts (m : RawProtocolMessage) : Prop := is_Some (toUIMessage h options m).

(** The type of the derived message, by the type of the raw one. *)
Definition type_of (message_type : string) : UIMessageType :=
  if String.eqb message_type MESSAGE_TYPES.USER_COMMAND then user
  else if String.eqb message_type MESSAGE_TYPES.AGENT_ACK then ack
  else if String.eqb message_type MESSAGE_TYPES.AGENT_THOUGHT then thought
  else if String.eqb message_type MESSAGE_TYPES.AGENT_PLAN then plan
  else if String.eqb message_type MESSAGE_TYPES.TODO_UPDATE then todo_update
  else if String.eqb message_type MESSAGE_TYPES.TOOL_CALL then tool_call
  else if String.eqb message_type MESSAGE_TYPES.TOOL_RESULT then tool_result
  else if String.eqb message_type MESSAGE_TYPES.AGENT_STREAM then stream
  else if String.eqb message_type MESSAGE_TYPES.AGENT_RESPONSE then response
  else if String.eqb message_type MESSAGE_TYPES.AGENT_ERROR then Protocol.error
  else if String.eqb message_type MESSAGE_TYPES.HUMAN_INTERVENTION_REQUEST then hil_request
  else unknown.

Definition push (ui : UIMessage) (st : MergeState) : MergeState :=
  {| uiMessages := uiMessages st ++ [ui];
     toolCallMap := toolCallMap st; hilRequestMap := hilRequestMap st |}.

(** The ways a step can go. *)
Inductive step_case (st : MergeState) (m : RawProtocolMessage) (st' : MergeState) : Prop :=
| step_tool_call :
    message_type m = MESSAGE_TYPES.TOOL_CALL ->
    uiMessages st' = uiMessages st ++ [ui_of m] ->
    toolCallMap st'
      = (if truthy (get (Protocol.payload m) "tool_call_id")
         then map_set (toolCallMap st) (get (Protocol.payload m) "tool_call_id")
                      (length (uiMessages st))
         else toolCallMap st) ->
    hilRequestMap st' = hilRequestMap st ->
    step_case st m st'
| step_tool_result_merged j :
    message_type m = MESSAGE_TYPES.TOOL_RESULT ->
    truthy (get (Protocol.payload m) "tool_call_id") = true ->
    map_get (toolCallMap st) (get (Protocol.payload m) "tool_call_id") = Some j ->
    uiMessages st' = alter (absorb_result (ui_of m)) j (uiMessages st) ->
    toolCallMap st' = toolCallMap st ->
    hilRequestMap st' = hilRequestMap st ->
    step_case st m st'
| step_tool_result_alone :
    message_type m = MESSAGE_TYPES.TOOL_RESULT ->
    truthy (get (Protocol.payload m) "tool_call_id") = false \/
      map_get (toolCallMap st) (get (Protocol.payload m) "tool_call_id") = None ->
    st' = push (ui_of m) st ->
    step_case st m st'
| step_hil_request :
    message_type m = MESSAGE_TYPES.HUMAN_INTERVENTION_REQUEST ->
    uiMessages st' = uiMessages st ++ [ui_of m] ->
    toolCallMap st' = toolCallMap st ->
    hilRequestMap st'
      = (if truthy (hilRequestId (ui_of m))
         then map_set (hilRequestMap st) (hilRequestId (ui_of m))
                      (length (uiMessages st))
         else hilRequestMap st) ->
    step_case st m st'
| step_hil_response_merged j :
    message_type m = MESSAGE_TYPES.HUMAN_INTERVENTION_RESPONSE ->
    truthy (hilResponseText (ui_of m)) = true ->
    truthy (get (Protocol.payload m) "request_id") = true ->
    map_get (hilRequestMap st) (get (Protocol.payload m) "request_id") = Some j ->
    uiMessages st' = alter (absorb_response h options (ui_of m)) j (uiMessages st) ->
    toolCallMap st' = toolCallMap st ->
    hilRequestMap st' = hilRequestMap st ->
    step_case st m st'
| step_hil_response_dropped :
    message_type m = MESSAGE_TYPES.HUMAN_INTERVENTION_RESPONSE ->
    truthy (hilResponseText (ui_of m)) = true ->
    truthy (get (Protocol.payload m) "request_id") = false \/
      map_get (hilRequestMap st) (get (Protocol.payload m) "request_id") = None ->
    st' = st ->
    step_case st m st'
| step_other :
    message_type m <> MESSAGE_TYPES.TOOL_CALL ->
    message_type m <> MESSAGE_TYPES.TOOL_RESULT ->
    message_type m <> MESSAGE_TYPES.HUMAN_INTERVENTION_REQUEST ->
    truthy (hilResponseText (ui_of m)) = false ->
    st' = push (ui_of m) st ->
    step_case st m st'.






End Mapper.

End MergeInvariants.

(** ** The store *)

Module StoreInvariants.
Import Js Protocol Store.

(** Upsert by id, as [addMessage] and the memory adapter do it: [combine]
    says what replaces the entry found. *)
Definition upsert (combine : RawProtocolMessage -> RawProtocolMessage -> RawProtocolMessage)
    (l : list RawProtocolMessage) (m : RawProtocolMessage) : list RawProtocolMessage :=
  match findIndex m l with
  | Some (i, e) => <[i := combine e m]> l
  | None => l ++ [m]
  end.

End StoreInvariants.

(** ** The orchestrator *)

Module RunInvariants.
Import Js Tool Tool.UseToolTask.

(** The progress writes of a run so far: [base] is what was written
    before the run; the run's own writes start with the 0 of [reset],
    never decrease, and end with the current value, which is a number. *)
Definition progress_inv (base : list float) (r : Refs) : Prop :=
  exists ps,
    progress_history r = base ++ 0%float :: ps /\ Spec.non_decreasing (0%float :: ps) /\
    last (0%float :: ps) = Some (progress r) /\ is_nan (progress r) = false.

End RunInvariants.

(** ** The realtime client *)

Module ClientInvariants.
Import Js Client.

Section WithSocket.
Context {W : Type} `{WebSocketApi W}.
Implicit Types c : ZmpLiteClient W.

(** What [ws_onclose] does before it decides about reconnecting. *)
Definition closed_first c : ZmpLiteClient W :=
  emit EmitClose (updateState closed (stopHeartbeat c)).

(** The delay of the attempt [i]. *)
Definition backoff (base : Z) (i : nat) : Z := (base * 2 ^ Z.of_nat i)%Z.

(** The attempts that the policy still allows when the counter is at [n]. *)
Definition attempts_left (config : ReconnectOptions) (n : nat) : nat :=
  (Z.to_nat (default 0%Z (maxAttempts config)) - n)%nat.

End WithSocket.

End ClientInvariants.

(** ** The merge pass, further *)

Module EntryInvariants.
Import Js Protocol Protocol.UI.



End EntryInvariants.

(** ** The object store of the IndexedDB adapter *)

Module DbInvariants.
Import Js Protocol Store.

(** The records are in strictly ascending key order: no key occurs twice. *)
Definition keys_ascending (db : list StoredMessage) : Prop :=
  Sorted (fun r r' => IndexedDb.compare_keys (key r) (key r') = Lt) db.

(** Every record is the one that [putMessage] builds from its session
    and its message. *)
Definition records_built (db : list StoredMessage) : Prop :=
  forall r, r ∈ db -> r = IndexedDb.record (stored_sessionId r) (message r).

(** The number of colons in a string. *)
Fixpoint colons (s : string) : nat :=
  match s with
  | EmptyString => 0
  | String.String c s' => (if Ascii.eqb c ":" then 1 else 0) + colons s'
  end.

End DbInvariants.

(** ** The polling loop and the orchestrator *)

Module WaitInvariants.
Import Js Tool Tool.UseToolTask.




(** A listener that records the calls of [onProgress]. *)
Definition recorder (p : float) (m : string) (calls : list (float * string))
  : list (float * string) :=
  calls ++ [(p, m)].

(** The call [b] reports the same as the call [a] before it: the
    progress equal as numbers ([===]), and the same text. *)
Definition same_report (a b : float * string) : Prop :=
  (b.1 =? a.1)%float = true /\ b.2 = a.2.

(** The calls that a wait over [polls] makes to its listener, in order. *)
Definition reports (h : Host) (taskId : JsValue) (timeoutMs : Z)
    (polls : list TaskClient.Poll) : list (float * string) :=
  snd (TaskClient.waitForCompletion h taskId timeoutMs (Some recorder) polls []).


(** The cells of an orchestrator, without the records of what was
    assigned and logged. *)
Definition cells (r : Refs)
  : JsValue * ToolTaskState * float * string * JsValue * string * ToolErrorCode
    * option ToolErrorDetails.t :=
  (taskId r, state r, progress r, message r, result r, error r, errorCode r,
   errorDetails r).

(** [r] with the records of [base] before its own. *)
Definition after (base r : Refs) : Refs :=
  {| taskId := taskId r; state := state r; progress := progress r;
     message := message r; result := result r; error := error r;
     errorCode := errorCode r; errorDetails := errorDetails r;
     state_history := state_history base ++ state_history r;
     progress_history := progress_history base ++ progress_history r;
     log_events := log_events base ++ log_events r |}.

End WaitInvariants.

(* ===================================================================== *)
(** * Part II: properties *)
(* ===================================================================== *)

(** ** The message mapper *)

Module ProtocolFacts.
Import Js Protocol Protocol.UI MergeInvariants.

(** *** Maps keyed by strings *)




Lemma map_get_None {V} (m : JsMap V) y key v :
  map_get m y = None -> (key, v) ∈ m -> same_value_zero key y = false.
Proof.
  unfold map_get. destruct (List.find _ m) as [[key' v']|] eqn:Hf; [done|].
  intros _ Hin%list_elem_of_In. by apply (List.find_none _ _ Hf) in Hin.
Qed.





(** *** [ui_of] *)

Section Mapper.
Variable h : Host.
Variable options : MessageMapperOptions.

Ltac by_type :=
  unfold ui_of, type_of;
  repeat match goal with
         | |- context [String.eqb ?a ?b] => destruct (String.eqb a b)
         end; reflexivity.

Lemma ui_of_type m : type (ui_of h options m) = type_of (message_type m).
Proof. by_type. Qed.


Lemma ui_of_payload m : UI.payload (ui_of h options m) = Protocol.payload m.
Proof. by_type. Qed.

Lemma type_of_tool_call mt : type_of mt = tool_call <-> mt = MESSAGE_TYPES.TOOL_CALL.
Proof.
  unfold type_of. split.
  - repeat match goal with
           | |- context [String.eqb ?a ?b] => destruct (String.eqb_spec a b)
           end; try discriminate; done.
  - by intros ->.
Qed.

Lemma type_of_tool_result mt : type_of mt = tool_result <-> mt = MESSAGE_TYPES.TOOL_RESULT.
Proof.
  unfold type_of. split.
  - repeat match goal with
           | |- context [String.eqb ?a ?b] => destruct (String.eqb_spec a b)
           end; try discriminate; done.
  - by intros ->.
Qed.

Lemma type_of_hil_request mt :
  type_of mt = hil_request <-> mt = MESSAGE_TYPES.HUMAN_INTERVENTION_REQUEST.
Proof.
  unfold type_of. split.
  - repeat match goal with
           | |- context [String.eqb ?a ?b] => destruct (String.eqb_spec a b)
           end; try discriminate; done.
  - by intros ->.
Qed.


Lemma ui_of_hil_response m :
  message_type m = MESSAGE_TYPES.HUMAN_INTERVENTION_RESPONSE ->
  type (ui_of h options m) = unknown /\
  hilResponseText (ui_of h options m)
    = or (get (Protocol.payload m) "response_text")
         (JString (responded (hil (strings options)))).
Proof. intros Ht. unfold ui_of. rewrite Ht. by split. Qed.

(** The text by which the merge pass recognises a response is only set
    on responses. *)
Lemma ui_of_hilResponseText m :
  truthy (hilResponseText (ui_of h options m)) = true ->
  message_type m = MESSAGE_TYPES.HUMAN_INTERVENTION_RESPONSE.
Proof.
  unfold ui_of.
  repeat match goal with
         | |- context [String.eqb ?a ?b] => destruct (String.eqb_spec a b)
         end; try discriminate; done.
Qed.

(** *** Where the conversion returns *)

(** On a message that [toUIMessage] converts, [ui_of] is what it
    returns. *)
Lemma toUIMessage_ui_of m u : toUIMessage h options m = Some u -> ui_of h options m = u.
Proof.
  unfold toUIMessage, ui_of, base, toISOString, sanitize_of.
  destruct (Z.abs (timestamp m) <=? 8640000000000000)%Z; [|done].
  cbn [mbind option_bind].
  repeat match goal with
         | |- context [String.eqb ?a ?b] => destruct (String.eqb a b)
         end;
    try (by intros [= <-]).
  all: destruct (sanitize _ _ _); cbn [mbind option_bind default]; [|done].
  all: by intros [= <-].
Qed.

Local Ltac other :=
  let E := fresh in intros E; first [congruence | by rewrite E in *].


Lemma merge_run_run_of st l :
  Forall (fun m => is_Some (toUIMessage h options m)) l ->
  merge_run h options st l = Some (run_of h options st l).
Proof.
  revert st. induction l as [|m l IH]; intros st Hl; [done|].
  apply Forall_cons in Hl as [[u Hu] Hl].
  cbn [merge_run]. unfold merge_step. rewrite Hu. cbn [mbind option_bind].
  rewrite IH by done. unfold run_of, step_of at 2. cbn [foldl].
  by rewrite (toUIMessage_ui_of m u Hu).
Qed.

Lemma merge_run_is_Some st l :
  is_Some (merge_run h options st l) ->
  Forall (fun m => is_Some (toUIMessage h options m)) l.
Proof.
  revert st. induction l as [|m l IH]; intros st; [by constructor|].
  cbn [merge_run]. unfold merge_step.
  destruct (toUIMessage h options m) as [u|] eqn:Hu; cbn [mbind option_bind].
  - intros Hrun%IH. constructor; [by eexists|done].
  - by intros [? ?].
Qed.

(** [mergeMessages] returns exactly when every message converts, and
    then returns [merged_of]. *)
Lemma mergeMessages_merged_of l :
  Forall (fun m => is_Some (toUIMessage h options m)) l ->
  mergeMessages h options l = Some (merged_of h options l).
Proof. intros Hl. unfold mergeMessages. by rewrite merge_run_run_of. Qed.

Lemma mergeMessages_is_Some l :
  is_Some (mergeMessages h options l) <->
  Forall (fun m => is_Some (toUIMessage h options m)) l.
Proof.
  split.
  - unfold mergeMessages. intros Hs. apply (merge_run_is_Some merge_init).
    by apply fmap_is_Some in Hs.
  - intros Hl. rewrite mergeMessages_merged_of by done. by eexists.
Qed.

Lemma mergeMessages_Some l out :
  mergeMessages h options l = Some out ->
  Forall (fun m => is_Some (toUIMessage h options m)) l /\ out = merged_of h options l.
Proof.
  intros Hout. assert (is_Some (mergeMessages h options l)) as Hl by (by eexists).
  apply mergeMessages_is_Some in Hl. split; [done|].
  rewrite mergeMessages_merged_of in Hout by done. by injection Hout.
Qed.

(** Two sequences of which one converts whenever the other does. *)
Lemma mergeMessages_eq l1 l2 :
  (Forall (fun m => is_Some (toUIMessage h options m)) l1 <->
   Forall (fun m => is_Some (toUIMessage h options m)) l2) ->
  merged_of h options l1 = merged_of h options l2 ->
  mergeMessages h options l1 = mergeMessages h options l2.
Proof.
  intros Hiff Heq.
  destruct (mergeMessages h options l2) as [out2|] eqn:H2.
  - apply mergeMessages_Some in H2 as [Hl2 ->].
    rewrite mergeMessages_merged_of by (by apply Hiff). by rewrite Heq.
  - destruct (mergeMessages h options l1) as [out1|] eqn:H1; [|done].
    apply mergeMessages_Some in H1 as [Hl1 _]. apply Hiff in Hl1.
    rewrite mergeMessages_merged_of in H2 by done. done.
Qed.

(** *** One step of the merge pass *)

Lemma step_of_case st m : step_case h options st m (step_of h options st m).
Proof.
  unfold step_of, merge_entry. rewrite !ui_of_type, !ui_of_payload.
  destruct (decide (type_of (message_type m) = tool_call)) as [Hc|Hc].
  { apply type_of_tool_call in Hc. apply step_tool_call; [done|..];
      by destruct (truthy _). }
  destruct (decide (type_of (message_type m) = tool_result)) as [Hr|Hr].
  { apply type_of_tool_result in Hr.
    destruct (truthy (get (Protocol.payload m) "tool_call_id")) eqn:Ht.
    - destruct (map_get _ _) as [j|] eqn:Hg.
      + by eapply step_tool_result_merged.
      + apply step_tool_result_alone; [done|by right|done].
    - apply step_tool_result_alone; [done|by left|done]. }
  destruct (decide (type_of (message_type m) = hil_request)) as [Hq|Hq].
  { apply type_of_hil_request in Hq. apply step_hil_request; [done|..];
      by destruct (truthy _). }
  destruct (bool_decide (type_of (message_type m) = unknown)
            && truthy (hilResponseText (ui_of h options m))) eqn:Hu.
  - apply andb_true_iff in Hu as [_ Hu].
    pose proof (ui_of_hilResponseText m Hu) as Hresp.
    destruct (truthy (get (Protocol.payload m) "request_id")) eqn:Ht.
    + destruct (map_get _ _) as [j|] eqn:Hg.
      * by eapply step_hil_response_merged.
      * apply step_hil_response_dropped; [done|done|by right|done].
    + apply step_hil_response_dropped; [done|done|by left|done].
  - apply step_other; try done.
    + by rewrite <- type_of_tool_call.
    + by rewrite <- type_of_tool_result.
    + by rewrite <- type_of_hil_request.
    + destruct (truthy (hilResponseText _)) eqn:Hu'; [|done].
      pose proof (ui_of_hilResponseText m Hu') as Hresp.
      by rewrite Hresp in Hu.
Qed.

Lemma run_of_snoc st l m :
  run_of h options st (l ++ [m]) = step_of h options (run_of h options st l) m.
Proof. apply foldl_snoc. Qed.

Lemma run_of_app st l1 l2 :
  run_of h options st (l1 ++ l2)
    = run_of h options (run_of h options st l1) l2.
Proof. apply foldl_app. Qed.

Lemma run_of_cons st m l :
  run_of h options st (m :: l) = run_of h options (step_of h options st m) l.
Proof. reflexivity. Qed.






(** *** A tool call and its result *)









(** *** A request for human intervention and its response *)











(** *** The claims *)

Local Abbreviation converted l := (Forall (fun m => is_Some (toUIMessage h options m)) l).




End Mapper.





End ProtocolFacts.

(** ** The chat store and the storage adapters *)

Module StoreFacts.
Import Js Protocol Store StoreInvariants.

(** *** Stable sort by timestamp *)

Lemma insert_by_timestamp_perm x l : insert_by_timestamp x l ≡ₚ x :: l.
Proof.
  induction l as [|y l IH]; [done|]. simpl.
  destruct (_ <=? _)%Z; [done|]. by rewrite IH, Permutation_swap.
Qed.

Lemma sort_by_timestamp_perm l : sort_by_timestamp l ≡ₚ l.
Proof.
  induction l as [|x l IH]; [done|]. simpl.
  by rewrite insert_by_timestamp_perm, IH.
Qed.

Lemma insert_by_timestamp_sorted x l :
  Spec.sorted_by_timestamp l -> Spec.sorted_by_timestamp (insert_by_timestamp x l).
Proof.
  unfold Spec.sorted_by_timestamp. induction l as [|y l IH]; intros Hs; simpl.
  - by repeat constructor.
  - destruct (timestamp x <=? timestamp y)%Z eqn:Hxy.
    + constructor; [done|]. constructor. lia.
    + apply Sorted_inv in Hs as [Hs Hhd]. constructor; [by apply IH|].
      destruct l as [|z l]; simpl.
      * constructor. lia.
      * destruct (timestamp x <=? timestamp z)%Z; constructor; [lia|].
        by apply HdRel_inv in Hhd.
Qed.

Lemma sort_by_timestamp_sorted l : Spec.sorted_by_timestamp (sort_by_timestamp l).
Proof.
  induction l as [|x l IH]; simpl; [constructor|by apply insert_by_timestamp_sorted].
Qed.

Lemma elem_of_sort_by_timestamp m l : m ∈ sort_by_timestamp l <-> m ∈ l.
Proof. by rewrite sort_by_timestamp_perm. Qed.

(** *** Upsert by id, as [addMessage] and the memory adapter do it *)

Lemma findIndex_Some m l i e :
  findIndex m l = Some (i, e) ->
  l !! i = Some e /\ id e = id m.
Proof. unfold findIndex. intros (? & ? & _)%list_find_Some. done. Qed.

Lemma findIndex_None m l :
  findIndex m l = None -> forall x, x ∈ l -> id x <> id m.
Proof.
  unfold findIndex. intros Hn%list_find_None x Hx.
  by eapply Forall_forall in Hn.
Qed.

Lemma upsert_ids combine l m :
  (forall e, id (combine e m) = id m) ->
  id <$> upsert combine l m
    = if decide (id m ∈ id <$> l) then id <$> l else (id <$> l) ++ [id m].
Proof.
  intros Hid. unfold upsert. destruct (findIndex m l) as [[i e]|] eqn:Hf.
  - apply findIndex_Some in Hf as [Hi He].
    rewrite decide_True.
    + rewrite list_fmap_insert, Hid, <- He. apply list_insert_id.
      by rewrite list_lookup_fmap, Hi.
    + rewrite <- He. apply list_elem_of_fmap. exists e. split; [done|].
      by eapply list_elem_of_lookup_2.
  - rewrite decide_False, fmap_app; [done|].
    intros (x & Hx & Hin)%list_elem_of_fmap.
    by eapply (findIndex_None m l Hf x).
Qed.

Lemma upsert_new l m : m ∈ upsert (fun _ m => m) l m.
Proof.
  unfold upsert. destruct (findIndex m l) as [[i e]|] eqn:Hf.
  - apply findIndex_Some in Hf as [Hi _].
    apply list_elem_of_lookup. exists i. apply list_lookup_insert_eq.
    by eapply lookup_lt_Some.
  - apply elem_of_app. right. by apply list_elem_of_singleton.
Qed.

Lemma upsert_keeps combine l m x :
  x ∈ l -> id x <> id m -> x ∈ upsert combine l m.
Proof.
  intros Hx Hne. unfold upsert. destruct (findIndex m l) as [[i e]|] eqn:Hf.
  - apply findIndex_Some in Hf as [Hi He].
    apply list_elem_of_lookup in Hx as [j Hj].
    apply list_elem_of_lookup. exists j. rewrite list_lookup_insert_ne; [done|].
    intros ->. congruence.
  - apply elem_of_app. by left.
Qed.

Lemma upsert_fold_latest l pre m post :
  (forall m', m' ∈ post -> id m' <> id m) ->
  m ∈ foldl (upsert (fun _ m => m)) l (pre ++ m :: post).
Proof.
  intros Hpost. rewrite foldl_app. cbn [foldl].
  generalize (upsert_new (foldl (upsert (fun _ m => m)) l pre) m).
  generalize (upsert (fun _ m0 => m0) (foldl (upsert (fun _ m0 => m0)) l pre) m).
  induction post as [|m' post IH]; intros l' Hin; [done|]. cbn [foldl].
  apply IH.
  - intros m'' Hm''. apply Hpost. by right.
  - apply upsert_keeps; [done|]. symmetry. apply not_eq_sym, not_eq_sym, Hpost. by left.
Qed.

(** *** The ids in the order of their first occurrence *)

Lemma first_occurrences_snoc l x :
  Spec.first_occurrences (l ++ [x])
    = if decide (x ∈ Spec.first_occurrences l) then Spec.first_occurrences l
      else Spec.first_occurrences l ++ [x].
Proof. unfold Spec.first_occurrences. by rewrite foldl_snoc. Qed.

Lemma first_occurrences_elem l x : x ∈ Spec.first_occurrences l <-> x ∈ l.
Proof.
  induction l as [|y l IH] using rev_ind; [done|].
  rewrite first_occurrences_snoc, elem_of_app, list_elem_of_singleton.
  case_decide as Hy.
  - rewrite IH. split; [by left|]. intros [?| ->]; [done|]. by apply IH.
  - by rewrite elem_of_app, list_elem_of_singleton, IH.
Qed.

Lemma first_occurrences_NoDup l : NoDup (Spec.first_occurrences l).
Proof.
  induction l as [|y l IH] using rev_ind; [constructor|].
  rewrite first_occurrences_snoc. case_decide; [done|].
  apply NoDup_app. split; [done|]. split; [|apply NoDup_singleton].
  intros x Hx ->%list_elem_of_singleton. done.
Qed.

Lemma first_occurrences_length l :
  length (Spec.first_occurrences l) = size (list_to_set l : gset string).
Proof.
  rewrite <- (size_list_to_set (C:=gset string)) by apply first_occurrences_NoDup.
  f_equal. apply set_eq. intros x.
  by rewrite !elem_of_list_to_set, first_occurrences_elem.
Qed.

(** *** [addMessage] on the sequence in memory *)

Section WithAdapter.
Context {A : Type} `{StorageAdapter A}.

Lemma rawMessages_persist op m (s : ChatStore A) :
  rawMessages (fst (persist op m s)) = rawMessages s.
Proof.
  unfold persist. destruct (storageAdapter s); [|done].
  destruct (truthy_session _); [|done]. by destruct (op _ _ _).
Qed.

Lemma rawMessages_addMessage m (s : ChatStore A) :
  rawMessages (fst (addMessage m s)) = upsert spread_message (rawMessages s) m.
Proof.
  unfold addMessage, upsert.
  destruct (findIndex m (rawMessages s)) as [[i e]|]; by rewrite rawMessages_persist.
Qed.

Lemma rawMessages_addMessages ms (s : ChatStore A) :
  rawMessages (addMessages ms s) = foldl (upsert spread_message) (rawMessages s) ms.
Proof.
  unfold addMessages. revert s. induction ms as [|m ms IH]; intros s; [done|].
  cbn [foldl]. by rewrite IH, rawMessages_addMessage.
Qed.

End WithAdapter.

Lemma upsert_fold_ids combine ms :
  (forall e m, id (combine e m) = id m) ->
  id <$> foldl (upsert combine) [] ms = Spec.first_occurrences (id <$> ms).
Proof.
  intros Hid. induction ms as [|m ms IH] using rev_ind; [done|].
  rewrite foldl_snoc, fmap_app, upsert_ids by done.
  change (id <$> [m]) with [id m]. by rewrite first_occurrences_snoc, IH.
Qed.

Lemma last_write_wins_snoc writes e m :
  Spec.last_write_wins writes = Some e ->
  Spec.last_write_wins (writes ++ [m]) = Some (spread_message e m).
Proof.
  destruct writes as [|first later]; [done|]. cbn.
  intros [= <-]. by rewrite foldl_snoc.
Qed.

Lemma upsert_fold_content ms e :
  e ∈ foldl (upsert spread_message) [] ms ->
  Spec.last_write_wins (filter (fun m => id m = id e) ms) = Some e.
Proof.
  revert e. induction ms as [|m ms IH] using rev_ind; intros e'.
  { by intros ?%elem_of_nil. }
  rewrite foldl_snoc, filter_app.
  pose proof (upsert_fold_ids spread_message ms (fun _ _ => eq_refl)) as Hids.
  set (l := foldl (upsert spread_message) [] ms) in *.
  assert (NoDup (id <$> l)) as Hnd by (rewrite Hids; apply first_occurrences_NoDup).
  unfold upsert. destruct (findIndex m l) as [[i e]|] eqn:Hf.
  - apply findIndex_Some in Hf as [Hi He].
    intros [j Hj]%list_elem_of_lookup.
    destruct (decide (j = i)) as [->|Hji].
    + rewrite list_lookup_insert_eq in Hj by (by eapply lookup_lt_Some).
      injection Hj as <-. cbn [id spread_message].
      rewrite <- He. rewrite (filter_cons_True _ m []) by done.
      rewrite filter_nil. apply last_write_wins_snoc, IH.
      by eapply list_elem_of_lookup_2.
    + rewrite list_lookup_insert_ne in Hj by done.
      assert (id m <> id e') as Hne.
      { rewrite <- He. intros Heq. apply Hji.
        eapply (NoDup_lookup (id <$> l)); [done| |];
          rewrite list_lookup_fmap; [by rewrite Hj|rewrite Hi; simpl; by rewrite Heq]. }
      rewrite (filter_cons_False _ m []) by done.
      rewrite filter_nil, app_nil_r. apply IH. by eapply list_elem_of_lookup_2.
  - intros [Hin| ->%list_elem_of_singleton]%elem_of_app.
    + rewrite (filter_cons_False _ m []).
      * rewrite filter_nil, app_nil_r. by apply IH.
      * intros Heq. by eapply (findIndex_None m l Hf e').
    + rewrite (filter_cons_True _ m []) by done. rewrite filter_nil.
      assert (filter (fun m0 => id m0 = id m) ms = []) as ->; [|done].
      destruct (filter _ ms) as [|x xs] eqn:Hfil; [done|]. exfalso.
      assert (x ∈ filter (fun m0 => id m0 = id m) ms) as [Hx Hin]%list_elem_of_filter
        by (rewrite Hfil; by left).
      assert (id m ∈ id <$> l) as (y & Hy & Hyl)%list_elem_of_fmap.
      { rewrite Hids, first_occurrences_elem, <- Hx. by apply list_elem_of_fmap_2. }
      by eapply (findIndex_None m l Hf y).
Qed.

(** *** The memory adapter *)

Lemma Memory_saveMessage_load a key m :
  Memory.loadSessionMessages (Memory.saveMessage a key m) key
    = upsert (fun _ m => m) (Memory.loadSessionMessages a key) m.
Proof.
  unfold Memory.loadSessionMessages, Memory.saveMessage, upsert. cbn [store].
  rewrite lookup_insert_eq. cbn.
  by destruct (findIndex m (default [] (store a !! key))) as [[i e]|].
Qed.

Lemma Memory_saveAll a key ms :
  exists a', saveAll key ms a = Some a' /\
    Memory.loadSessionMessages a' key
      = foldl (upsert (fun _ m => m)) (Memory.loadSessionMessages a key) ms.
Proof.
  unfold saveAll. revert a. induction ms as [|m ms IH]; intros a; [by exists a|].
  cbn [foldl mbind option_bind saveMessage MemoryStorageAdapter_adapter].
  destruct (IH (Memory.saveMessage a key m)) as (a' & Hs & Hl).
  exists a'. split; [done|]. by rewrite Hl, Memory_saveMessage_load.
Qed.

(** *** The IndexedDB adapter *)

Lemma code_unit_rank_inj x y :
  IndexedDb.code_unit_rank x = IndexedDb.code_unit_rank y -> x = y.
Proof.
  unfold IndexedDb.code_unit_rank. cbv zeta.
  pose proof (N_ascii_bounded x) as Hx. pose proof (N_ascii_bounded y) as Hy.
  intros Heq. rewrite <- (ascii_N_embedding x), <- (ascii_N_embedding y). f_equal.
  destruct (N.ltb_spec (N_of_ascii x) 238), (N.ltb_spec (N_of_ascii x) 240),
    (N.ltb_spec (N_of_ascii y) 238), (N.ltb_spec (N_of_ascii y) 240); lia.
Qed.

Lemma compare_keys_eq_iff a b : IndexedDb.compare_keys a b = Eq <-> a = b.
Proof.
  revert b. induction a as [|x a IH]; intros [|y b]; simpl; try done.
  destruct (N.compare_spec (IndexedDb.code_unit_rank x) (IndexedDb.code_unit_rank y))
    as [Heq|Hlt|Hgt].
  - apply code_unit_rank_inj in Heq as ->. rewrite IH. split; [by intros ->|by intros [= ->]].
  - split; [done|]. intros [= -> _]. lia.
  - split; [done|]. intros [= -> _]. lia.
Qed.

Lemma compare_keys_refl a : IndexedDb.compare_keys a a = Eq.
Proof. by apply compare_keys_eq_iff. Qed.

Lemma compare_keys_antisym a b :
  IndexedDb.compare_keys a b = CompOpp (IndexedDb.compare_keys b a).
Proof.
  revert b. induction a as [|x a IH]; intros [|y b]; simpl; try done.
  rewrite (N.compare_antisym (IndexedDb.code_unit_rank x) (IndexedDb.code_unit_rank y)).
  destruct (N.compare (IndexedDb.code_unit_rank x) (IndexedDb.code_unit_rank y)); simpl;
    [apply IH|done..].
Qed.

Lemma compare_keys_lt_trans a b c :
  IndexedDb.compare_keys a b = Lt -> IndexedDb.compare_keys b c = Lt ->
  IndexedDb.compare_keys a c = Lt.
Proof.
  revert b c. induction a as [|x a IH]; intros [|y b] [|z c]; simpl; try done.
  destruct (N.compare_spec (IndexedDb.code_unit_rank x) (IndexedDb.code_unit_rank y)),
    (N.compare_spec (IndexedDb.code_unit_rank y) (IndexedDb.code_unit_rank z)),
    (N.compare_spec (IndexedDb.code_unit_rank x) (IndexedDb.code_unit_rank z));
    try done; try (exfalso; lia).
  apply IH.
Qed.

Lemma put_new r db : r ∈ IndexedDb.put r db.
Proof.
  induction db as [|r' db IH]; cbn; [by left|].
  destruct (IndexedDb.compare_keys _ _); [by left|by left|by right].
Qed.

Lemma put_keeps r r' db : r' ∈ db -> key r' <> key r -> r' ∈ IndexedDb.put r db.
Proof.
  intros Hin Hne. induction db as [|r0 db IH]; [by apply elem_of_nil in Hin|]. cbn.
  destruct (IndexedDb.compare_keys (key r) (key r0)) eqn:Hcmp.
  - apply compare_keys_eq_iff in Hcmp.
    apply elem_of_cons in Hin as [->|Hin]; [congruence|by right].
  - by right.
  - apply elem_of_cons in Hin as [->|Hin]; [by left|right; by apply IH].
Qed.

Lemma record_key_inj key m m' :
  IndexedDb.record key m = IndexedDb.record key m' \/
  Store.key (IndexedDb.record key m) = Store.key (IndexedDb.record key m') -> id m = id m'.
Proof.
  intros [Heq|Heq]; [apply (f_equal Store.key) in Heq|]; cbn in Heq;
    by do 2 apply (inj (String.app _)) in Heq.
Qed.

Lemma put_fold_latest key db pre m post :
  (forall m', m' ∈ post -> id m' <> id m) ->
  IndexedDb.record key m
    ∈ foldl (fun db m => IndexedDb.put (IndexedDb.record key m) db) db (pre ++ m :: post).
Proof.
  intros Hpost. rewrite foldl_app. cbn [foldl].
  generalize (put_new (IndexedDb.record key m)
    (foldl (fun db m => IndexedDb.put (IndexedDb.record key m) db) db pre)).
  generalize (IndexedDb.put (IndexedDb.record key m)
    (foldl (fun db m => IndexedDb.put (IndexedDb.record key m) db) db pre)).
  induction post as [|m' post IH]; intros db' Hin; [done|]. cbn [foldl].
  apply IH.
  - intros m'' Hm''. apply Hpost. by right.
  - apply put_keeps; [done|]. intros Hk.
    apply (Hpost m'); [by left|]. symmetry. apply (record_key_inj key). by right.
Qed.

Lemma IndexedDb_saveAll a key ms :
  indexedDB_available a = true ->
  saveAll key ms a
    = Some {| indexedDB_available := true;
              objectStore :=
                foldl (fun db m => IndexedDb.put (IndexedDb.record key m) db)
                      (objectStore a) ms |}.
Proof.
  unfold saveAll. revert a. induction ms as [|m ms IH]; intros a Ha.
  - cbn. by destruct a as [? ?]; simplify_eq/=.
  - cbn [foldl mbind option_bind saveMessage IndexedDbAdapter_adapter].
    unfold IndexedDb.saveMessage, IndexedDb.putMessage, IndexedDb.openDb.
    rewrite Ha. cbn [mbind option_bind]. by rewrite IH.
Qed.

Lemma IndexedDb_load a key :
  indexedDB_available a = true ->
  IndexedDb.loadSessionMessages a key
    = Some (sort_by_timestamp (message <$> IndexedDb.getAll key (objectStore a))).
Proof.
  intros Ha. unfold IndexedDb.loadSessionMessages, IndexedDb.openDb. by rewrite Ha.
Qed.

Lemma getAll_record key m db :
  IndexedDb.record key m ∈ db -> m ∈ message <$> IndexedDb.getAll key db.
Proof.
  intros Hin. apply list_elem_of_fmap. exists (IndexedDb.record key m). split; [done|].
  unfold IndexedDb.getAll. apply list_elem_of_In, filter_In. split.
  - by apply list_elem_of_In.
  - cbn. apply String.eqb_refl.
Qed.

(** *** The claims *)

(** C3.  After any sequence of [addMessage] calls on a new store, with
    or without an adapter, the raw sequence holds one entry per distinct
    id, in the order in which the ids first came; its length is the number
    of distinct ids; every entry is the last-write-wins merge of all the
    messages with its id; and in such a merge an optional field whose key
    the later write does not have keeps its earlier value, while a key
    that the later write has overwrites, be its value [undefined]. *)
Theorem addMessage_upsert {A} `{StorageAdapter A}
    (sessionId : option string) (adapter : option A) (namespace : option string)
    (messages : list RawProtocolMessage) :
  id <$> rawMessages (addMessages messages (create sessionId adapter namespace))
    = Spec.first_occurrences (id <$> messages) /\
  length (rawMessages (addMessages messages (create sessionId adapter namespace)))
    = size (list_to_set (id <$> messages) : gset string) /\
  (forall e, e ∈ rawMessages (addMessages messages (create sessionId adapter namespace)) ->
     Spec.last_write_wins (filter (fun m => id m = id e) messages) = Some e) /\
  (forall existing message,
     (trace_id message = Absent ->
        trace_id (spread_message existing message) = trace_id existing) /\
     (project_id message = Absent ->
        project_id (spread_message existing message) = project_id existing) /\
     (sender_id message = Absent ->
        sender_id (spread_message existing message) = sender_id existing) /\
     (status message = Absent ->
        status (spread_message existing message) = status existing) /\
     (trace_id message <> Absent ->
        trace_id (spread_message existing message) = trace_id message) /\
     (project_id message <> Absent ->
        project_id (spread_message existing message) = project_id message) /\
     (sender_id message <> Absent ->
        sender_id (spread_message existing message) = sender_id message) /\
     (status message <> Absent ->
        status (spread_message existing message) = status message) /\
     id (spread_message existing message) = id message /\
     message_type (spread_message existing message) = message_type message /\
     payload (spread_message existing message) = payload message /\
     timestamp (spread_message existing message) = timestamp message).
Proof.
  rewrite rawMessages_addMessages. cbn [create rawMessages].
  pose proof (upsert_fold_ids spread_message messages (fun _ _ => eq_refl)) as Hids.
  split; [done|]. split.
  { by rewrite <- first_occurrences_length, <- Hids, length_fmap. }
  split; [intros e; apply upsert_fold_content|].
  intros existing message. cbn.
  repeat split; try (by intros ->).
  all: by destruct message as [? [] ? [] ? ? [] []].
Qed.

(** C7 (as amended).  Messages saved on a key, the last of them with the
    id of [m] being [m] itself, and then loaded with that key: with either
    adapter the save and the load succeed and the sequence loaded
    contains [m].  The IndexedDB adapter returns it sorted ascending by
    timestamp.  The in-memory adapter returns it in the order in which the
    ids were first saved; it is [ChatStore.loadSession] that sorts what an
    adapter returns. *)
Theorem adapters_roundtrip (key : string) (pre : list RawProtocolMessage)
    (m : RawProtocolMessage) (post : list RawProtocolMessage) :
  (forall m', m' ∈ post -> id m' <> id m) ->
  (forall a : MemoryStorageAdapter, exists a' l,
     saveAll key (pre ++ m :: post) a = Some a' /\
     loadSessionMessages a' key = Some l /\ m ∈ l) /\
  (exists a' l,
     saveAll key (pre ++ m :: post) Memory.create = Some a' /\
     loadSessionMessages a' key = Some l /\
     id <$> l = Spec.first_occurrences (id <$> (pre ++ m :: post))) /\
  (forall a : IndexedDbAdapter, indexedDB_available a = true -> exists a' l,
     saveAll key (pre ++ m :: post) a = Some a' /\
     loadSessionMessages a' key = Some l /\ m ∈ l /\ Spec.sorted_by_timestamp l) /\
  (forall (A : Type) (HA : StorageAdapter A) (s : ChatStore A) (a : A) target l,
     storageAdapter s = Some a -> truthy_session (Some target) = Some target ->
     loadSessionMessages a (getStorageKey s target) = Some l ->
     rawMessages (fst (loadSession (Some target) s)) = sort_by_timestamp l /\
     Spec.sorted_by_timestamp (rawMessages (fst (loadSession (Some target) s))) /\
     (forall x, x ∈ rawMessages (fst (loadSession (Some target) s)) <-> x ∈ l)).
Proof.
  intros Hlatest. split; [|split; [|split]].
  - intros a. destruct (Memory_saveAll a key (pre ++ m :: post)) as (a' & Hs & Hl).
    exists a', (Memory.loadSessionMessages a' key). split; [done|]. split; [done|].
    rewrite Hl. by apply upsert_fold_latest.
  - destruct (Memory_saveAll Memory.create key (pre ++ m :: post)) as (a' & Hs & Hl).
    exists a', (Memory.loadSessionMessages a' key). split; [done|]. split; [done|].
    rewrite Hl. by apply upsert_fold_ids.
  - intros a Ha. eexists _, _. split; [by apply IndexedDb_saveAll|].
    split; [by apply IndexedDb_load|]. split; [|apply sort_by_timestamp_sorted].
    apply elem_of_sort_by_timestamp, getAll_record. cbn [objectStore].
    by apply put_fold_latest.
  - intros A HA s a target l Hs Ht Hl. unfold loadSession.
    cbn [from_option]. rewrite Ht, Hs, Hl. cbn [fst rawMessages].
    split; [done|]. split; [apply sort_by_timestamp_sorted|].
    intros x. apply elem_of_sort_by_timestamp.
Qed.

(** C7, the claim as stated fails.  The in-memory adapter is given a
    message of timestamp 2 and then one of timestamp 1: it returns them in
    that order, which is not ascending. *)
Lemma memory_adapter_unsorted :
  let late := Samples.message "a" "text" [] 2 in
  let early := Samples.message "b" "text" [] 1 in
  (saveAll "k" [late; early] Memory.create ≫= fun a => loadSessionMessages a "k")
    = Some [late; early] /\
  ~ Spec.sorted_by_timestamp [late; early].
Proof.
  intros late early. split; [by vm_compute|].
  intros Hsorted. inversion Hsorted as [|? ? _ Hhd]. inversion Hhd as [|? ? Hle].
  vm_compute in Hle. by apply Hle.
Qed.

(** The round trip at a concrete run of saves: the message "a" of
    timestamp 2, then "b" of timestamp 1. *)
Lemma adapters_roundtrip_witness :
  let late := Samples.message "a" "text" [] 2 in
  let early := Samples.message "b" "text" [] 1 in
  (forall m', m' ∈ [early] -> id m' <> id late) /\
  (exists a' l,
     saveAll "k" [late; early] Memory.create = Some a' /\
     loadSessionMessages a' "k" = Some l /\ id <$> l = ["a"; "b"]) /\
  (forall a : IndexedDbAdapter, indexedDB_available a = true -> exists a' l,
     saveAll "k" [late; early] a = Some a' /\
     loadSessionMessages a' "k" = Some l /\ late ∈ l /\ Spec.sorted_by_timestamp l).
Proof.
  intros late early.
  assert (forall m', m' ∈ [early] -> id m' <> id late) as Hlatest.
  { intros m' Hm'. apply list_elem_of_singleton in Hm'. by rewrite Hm'. }
  destruct (adapters_roundtrip "k" [] late [early] Hlatest) as (_ & Hmemory & Hdb & _).
  split; [exact Hlatest|]. split; [exact Hmemory|exact Hdb].
Defined.

End StoreFacts.

Module FloatFacts.

Lemma compare_cont_refl p : Pos.compare_cont Eq p p = Eq.
Proof. apply Pos.compare_cont_refl. Qed.

Lemma SFcompare_refl x : x <> S754_nan -> SFcompare x x = Some Eq.
Proof.
  destruct x as [s|s| |s m e]; intros Hx; try congruence; simpl.
  - done.
  - by destruct s.
  - destruct s; rewrite Z.compare_refl, Pos.compare_cont_refl; done.
Qed.

Lemma SFcompare_antisym x y c :
  SFcompare x y = Some c -> SFcompare y x = Some (CompOpp c).
Proof.
  destruct x as [sx|sx| |sx mx ex], y as [sy|sy| |sy my ey]; simpl;
    intros Hc; try discriminate; injection Hc as <-;
    try (by destruct sx); try (by destruct sy); try (by destruct sx, sy).
  destruct sx, sy; try done.
  - rewrite (Z.compare_antisym ex ey). destruct (ex ?= ey)%Z; simpl; try done.
    rewrite CompOpp_involutive. f_equal. exact (Pos.compare_cont_antisym my mx Eq).
  - rewrite (Z.compare_antisym ex ey). destruct (ex ?= ey)%Z; simpl; try done.
    f_equal. symmetry. exact (Pos.compare_cont_antisym mx my Eq).
Qed.

Lemma is_nan_false f : is_nan f = false <-> Prim2SF f <> S754_nan.
Proof.
  unfold is_nan. rewrite FloatAxioms.eqb_spec. unfold SFeqb. split.
  - intros Hn Heq. rewrite Heq in Hn. done.
  - intros Hn. by rewrite SFcompare_refl.
Qed.

Lemma is_nan_compare a b :
  is_nan a = false -> is_nan b = false ->
  exists c, SFcompare (Prim2SF a) (Prim2SF b) = Some c.
Proof.
  rewrite !is_nan_false. intros Ha Hb.
  destruct (Prim2SF a), (Prim2SF b); simpl; try congruence; eauto.
Qed.

Lemma ltb_leb a b : (a <? b)%float = true -> (a <=? b)%float = true.
Proof.
  rewrite ltb_spec, leb_spec. unfold SFltb, SFleb.
  by destruct (SFcompare _ _) as [[]|].
Qed.

Lemma leb_refl a : is_nan a = false -> (a <=? a)%float = true.
Proof.
  rewrite is_nan_false, leb_spec. intros Ha. unfold SFleb. by rewrite SFcompare_refl.
Qed.

Lemma not_ltb_leb a b :
  is_nan a = false -> is_nan b = false ->
  (b <? a)%float = false -> (a <=? b)%float = true.
Proof.
  intros Ha Hb. destruct (is_nan_compare a b Ha Hb) as [c Hc].
  rewrite ltb_spec, leb_spec. unfold SFltb, SFleb.
  rewrite (SFcompare_antisym _ _ _ Hc), Hc. by destruct c.
Qed.

Lemma leb_not_nan a b : (a <=? b)%float = true -> is_nan a = false /\ is_nan b = false.
Proof.
  rewrite leb_spec, !is_nan_false. unfold SFleb.
  destruct (Prim2SF a), (Prim2SF b); simpl; try done.
Qed.

(** Rounding a non-negative mantissa never yields NaN. *)
Lemma shr_1_nonneg mrs : 0 <= shr_m mrs -> 0 <= shr_m (shr_1 mrs).
Proof. destruct mrs as [[|[p|p|]|p] r s]; simpl; lia. Qed.

Lemma iter_pos_shr_1_nonneg p mrs :
  0 <= shr_m mrs -> 0 <= shr_m (SpecFloat.iter_pos shr_1 p mrs).
Proof.
  revert mrs. induction p as [p IH|p IH|]; intros mrs Hm; simpl.
  - apply IH, IH. by apply shr_1_nonneg.
  - by apply IH, IH.
  - by apply shr_1_nonneg.
Qed.

Lemma shr_fexp_nonneg prec emax m e l :
  0 <= m -> 0 <= shr_m (fst (shr_fexp prec emax m e l)).
Proof.
  intros Hm. unfold shr_fexp, shr.
  assert (0 <= shr_m (shr_record_of_loc m l)) by (by destruct l as [|[]]).
  destruct (_ - e); simpl; try done. by apply iter_pos_shr_1_nonneg.
Qed.

Lemma binary_round_aux_not_nan prec emax sx mx ex lx :
  0 <= mx -> binary_round_aux prec emax sx mx ex lx <> S754_nan.
Proof.
  intros Hm. unfold binary_round_aux.
  pose proof (shr_fexp_nonneg prec emax mx ex lx Hm) as H1.
  destruct (shr_fexp prec emax mx ex lx) as [mrs' e']. simpl in H1.
  set (m2 := round_nearest_even _ _).
  assert (0 <= m2) as H2.
  { unfold m2, round_nearest_even. destruct (loc_of_shr_record mrs') as [|[]]; try lia.
    destruct (Z.even _); lia. }
  pose proof (shr_fexp_nonneg prec emax m2 e' loc_Exact H2) as H3.
  destruct (shr_fexp prec emax m2 e' loc_Exact) as [mrs'' e'']. simpl in H3.
  destruct (shr_m mrs''); try lia; try done. by destruct (_ <=? _).
Qed.

Lemma SFdiv_finite_not_nan prec emax x sy my ey :
  x <> S754_nan -> SFdiv prec emax x (S754_finite sy my ey) <> S754_nan.
Proof.
  destruct x as [sx|sx| |sx mx ex]; intros Hx; simpl; try done.
  unfold SFdiv_core_binary.
  set (m' := match _ with Z0 => _ | Zpos _ => _ | Zneg _ => _ end).
  assert (0 <= m') as Hm'.
  { unfold m'. destruct (_ - _ - _); try lia. apply Z.shiftl_nonneg. lia. }
  pose proof (Z_div_mod m' (Z.pos my) ltac:(lia)) as Hdiv.
  destruct (Z.div_eucl m' (Z.pos my)) as [q r].
  apply binary_round_aux_not_nan. nia.
Qed.

Lemma div_100_not_nan a : is_nan a = false -> is_nan (a / 100)%float = false.
Proof.
  rewrite !is_nan_false, div_spec. intros Ha. unfold SF64div.
  replace (Prim2SF 100) with (S754_finite false 7036874417766400 (-46)) by (by vm_compute).
  by apply SFdiv_finite_not_nan.
Qed.

End FloatFacts.

(** ** Progress normalization *)

Module ProgressFacts.
Import Js Tool FloatFacts.

Lemma eqb_refl a : is_nan a = false -> (a =? a)%float = true.
Proof. unfold is_nan. by destruct (a =? a)%float. Qed.


Lemma ltb_irrefl_of a b : (a <? b)%float = true -> (b <? a)%float = false.
Proof.
  rewrite !ltb_spec. unfold SFltb.
  destruct (SFcompare (Prim2SF a) (Prim2SF b)) as [c|] eqn:Hc; [|done].
  rewrite (SFcompare_antisym _ _ _ Hc). by destruct c.
Qed.

Lemma isFinite_not_nan n : Number_isFinite n = true -> is_nan n = false.
Proof. unfold Number_isFinite. by destruct (is_nan n). Qed.

(** [Math.min(1, r)] for a number [r]. *)
Lemma Math_min_1 r :
  is_nan r = false ->
  is_nan (Math_min 1 r) = false /\ (Math_min 1 r <=? 1)%float = true /\
  (Math_min 1 r = 1%float /\ (r <? 1)%float = false \/
   Math_min 1 r = r /\ (1 <? r)%float = false).
Proof.
  intros Hr. unfold Math_min. rewrite Hr.
  change (is_nan 1) with false. cbn [orb].
  destruct (1 <? r)%float eqn:H1.
  - split; [done|]. split; [done|]. left. split; [done|]. by apply ltb_irrefl_of.
  - destruct (r <? 1)%float eqn:H2.
    + split; [done|]. split; [by apply ltb_leb|]. by right.
    + change (is_neg_zero 1) with false. cbn iota.
      split; [done|]. split; [by apply not_ltb_leb|]. by right.
Qed.

(** [Math.max(0, m)] for a number [m] that is at most 1. *)
Lemma Math_max_0 m :
  is_nan m = false -> (m <=? 1)%float = true ->
  is_nan (Math_max 0 m) = false /\ (0 <=? Math_max 0 m)%float = true /\
  (Math_max 0 m <=? 1)%float = true /\
  (Math_max 0 m = 0%float /\ (0 <? m)%float = false \/
   Math_max 0 m = m /\ (0 <? m)%float = true).
Proof.
  intros Hm H1. unfold Math_max. rewrite Hm.
  change (is_nan 0) with false. cbn [orb].
  destruct (0 <? m)%float eqn:H0.
  - repeat split; try done; [by apply ltb_leb|by right].
  - assert (Math_max_zero : (if (m <? 0)%float then 0%float
                             else if is_pos_zero 0 then 0%float else m) = 0%float).
    { destruct (m <? 0)%float; [done|]. by change (is_pos_zero 0) with true. }
    rewrite Math_max_zero. repeat split; try done. by left.
Qed.

(** The number the clamp is applied to is never NaN. *)
Lemma ratio_not_nan n :
  let numeric := if Number_isFinite n then n else 0%float in
  is_nan (if (1 <? numeric)%float then (numeric / 100)%float else numeric) = false.
Proof.
  intros numeric.
  assert (is_nan numeric = false) as Hn.
  { unfold numeric. destruct (Number_isFinite n) eqn:Hf; [by apply isFinite_not_nan|done]. }
  destruct (1 <? numeric)%float; [by apply div_100_not_nan|done].
Qed.

(** [typeof raw === 'number' ? raw : Number(raw)] is [Number(raw)]. *)
Lemma maybeNumber_Number h raw :
  match raw with JNumber n => n | _ => Number h raw end = Number h raw.
Proof. by destruct raw. Qed.


Lemma normalizeProgress_range h raw :
  is_nan (TaskClient.normalizeProgress h raw) = false /\
  (0 <=? TaskClient.normalizeProgress h raw)%float = true /\
  (TaskClient.normalizeProgress h raw <=? 1)%float = true.
Proof.
  unfold TaskClient.normalizeProgress. rewrite maybeNumber_Number.
  pose proof (ratio_not_nan (Number h raw)) as Hr. cbv zeta in Hr.
  destruct (Math_min_1 _ Hr) as (Hn & Hle & _).
  destruct (Math_max_0 _ Hn Hle) as (Hn' & H0 & H1 & _). done.
Qed.

(** The two-argument variant of the orchestrator is the one-argument
    one followed by [Math.max(floor, _)]. *)
Lemma normalizeProgress_floor h raw floor :
  UseToolTask.normalizeProgress h raw floor =
  Math_max floor (TaskClient.normalizeProgress h raw).
Proof. reflexivity. Qed.

Lemma Math_max_floor floor c :
  is_nan floor = false -> is_nan c = false ->
  is_nan (Math_max floor c) = false /\ (floor <=? Math_max floor c)%float = true /\
  (c <=? Math_max floor c)%float = true.
Proof.
  intros Hf Hc. unfold Math_max. rewrite Hf, Hc. cbn [orb].
  destruct (floor <? c)%float eqn:H1.
  - split; [done|]. split; [by apply ltb_leb|by apply leb_refl].
  - destruct (c <? floor)%float eqn:H2.
    + split; [done|]. split; [by apply leb_refl|by apply ltb_leb].
    + destruct (is_pos_zero floor).
      * split; [done|]. split; [by apply leb_refl|by apply not_ltb_leb].
      * split; [done|]. split; [by apply not_ltb_leb|by apply leb_refl].
Qed.

End ProgressFacts.

(** ** The HTTP error classification *)

Module ToolFacts.
Import Js Tool FloatFacts ProgressFacts.

(** Both clients classify alike. *)
Lemma request_same {T} `{EmptyObject T} h (fetched : FetchOutcome T) :
  ToolClient.request h fetched = TaskClient.request h fetched.
Proof. reflexivity. Qed.



(** ** The orchestrator *)

Import UseToolTask RunInvariants.

Lemma non_decreasing_snoc ps a b :
  Spec.non_decreasing ps -> last ps = Some a -> (a <=? b)%float = true ->
  Spec.non_decreasing (ps ++ [b]).
Proof.
  unfold Spec.non_decreasing. induction ps as [|x ps IH]; [done|].
  intros Hs Hl Hab. apply Sorted_inv in Hs as [Hs Hhd].
  destruct ps as [|y ps].
  - simpl in *. injection Hl as ->. repeat constructor. done.
  - simpl. constructor.
    + apply IH; [done| |done]. by rewrite last_cons_cons in Hl.
    + constructor. by apply HdRel_inv in Hhd.
Qed.

Lemma progress_inv_set_progress base r v :
  progress_inv base r -> (progress r <=? v)%float = true ->
  progress_inv base (set_progress v r).
Proof.
  intros (ps & Hh & Hs & Hl & Hn) Hv. exists (ps ++ [v]). simpl.
  split; [by rewrite Hh, <- app_assoc|].
  split; [by apply (non_decreasing_snoc (0%float :: ps) (progress r))|].
  split; [change (last ((0%float :: ps) ++ [v]) = Some v); apply last_snoc|].
  by apply leb_not_nan in Hv as [_ ?].
Qed.

Lemma progress_inv_same base r r' :
  progress_history r' = progress_history r -> progress r' = progress r ->
  progress_inv base r -> progress_inv base r'.
Proof. intros Hh Hp (ps & ? & ? & ? & ?). exists ps. by rewrite Hh, Hp. Qed.

Lemma progress_inv_set_state base v r :
  progress_inv base r -> progress_inv base (set_state v r).
Proof. by apply progress_inv_same. Qed.

Lemma progress_inv_set_taskId base v r :
  progress_inv base r -> progress_inv base (set_taskId v r).
Proof. by apply progress_inv_same. Qed.

Lemma progress_inv_set_message base v r :
  progress_inv base r -> progress_inv base (set_message v r).
Proof. by apply progress_inv_same. Qed.

Lemma progress_inv_set_result base v r :
  progress_inv base r -> progress_inv base (set_result v r).
Proof. by apply progress_inv_same. Qed.

Lemma progress_inv_log base level code m r :
  progress_inv base r -> progress_inv base (log level code m r).
Proof. by apply progress_inv_same. Qed.

Lemma progress_inv_reset r :
  progress_inv (progress_history r) (reset false r).
Proof.
  exists []. simpl. repeat split; try done. repeat constructor.
Qed.

Lemma progress_inv_applyError base d code r :
  progress_inv base r -> progress_inv base (applyError d code r).
Proof.
  apply progress_inv_same; unfold applyError; simpl;
    by destruct (negb _).
Qed.

Lemma progress_inv_onProgress base h p m r :
  progress_inv base r -> progress_inv base (onProgress h p m r).
Proof.
  intros Hinv. unfold onProgress.
  eapply progress_inv_same; [reflexivity|reflexivity|].
  apply progress_inv_set_progress; [done|].
  destruct Hinv as (_ & _ & _ & _ & Hn).
  rewrite normalizeProgress_floor.
  destruct (normalizeProgress_range h (JNumber p)) as (Hc & _).
  by destruct (Math_max_floor _ _ Hn Hc) as (_ & ? & _).
Qed.

Lemma progress_inv_wait base h taskId timeoutMs last_p last_m polls r out r' :
  TaskClient.waitForCompletion_loop h taskId timeoutMs (Some (onProgress h))
    last_p last_m polls r = (out, r') ->
  progress_inv base r -> progress_inv base r'.
Proof.
  revert last_p last_m r. induction polls as [|poll polls IH]; intros last_p last_m r; simpl.
  - by intros [= _ <-].
  - destruct (TaskClient.elapsed _ >? timeoutMs)%Z; [by intros [= _ <-]|].
    destruct (TaskClient.get h _) as [[task|]|e]; try by intros [= _ <-].
    destruct (negb _ || negb _).
    + destruct (_ || _ || _); [intros [= _ <-]|intros Hw Hi; eapply IH; [done|]];
        by apply progress_inv_onProgress.
    + destruct (_ || _ || _); [by intros [= _ <-]|]. apply IH.
Qed.






(** C10.  During one [run] the progress is non-decreasing: the values
    assigned to it are the 0 of the reset followed by values none of
    which is below its predecessor.  Every update through the progress
    callback is the maximum of the current value and the normalized new
    one, so it never lowers the progress; and a callback with an empty
    message leaves the stored message as it is. *)
Theorem run_progress_monotone (h : Host) (server : Server) (request : ToolCallRequest.t)
    (r : Refs) :
  (exists ps,
     progress_history (snd (run h server request r)) = progress_history r ++ 0%float :: ps /\
     Spec.non_decreasing (0%float :: ps)) /\
  (forall p m r0,
     progress (onProgress h p m r0)
       = Math_max (progress r0) (TaskClient.normalizeProgress h (JNumber p))) /\
  (forall p m r0, is_nan (progress r0) = false ->
     (progress r0 <=? progress (onProgress h p m r0))%float = true) /\
  (forall p r0, message (onProgress h p "" r0) = message r0) /\
  (forall p m r0, m <> "" -> message (onProgress h p m r0) = m).
Proof.
  split; [|split; [done|split; [|split; [done|]]]].
  - cut (progress_inv (progress_history r) (snd (run h server request r))).
    { intros (ps & ? & ? & _). by exists ps. }
    assert (H1 : progress_inv (progress_history r)
                   (log info "TOOL_RUN_STARTED" "Tool execution started"
                      (set_state pending (reset false r)))).
    { apply progress_inv_log, progress_inv_set_state, progress_inv_reset. }
    unfold run. cbv zeta.
    destruct (ToolClient.call h _) as [[response|]|err]; cbv beta iota.
    2: { exact H1. }
    2: { cbn [snd]. by apply progress_inv_applyError. }
    destruct (is_string _ _ && truthy _).
    2: { cbn [snd]. apply progress_inv_log, progress_inv_set_result.
         apply progress_inv_set_progress; [by apply progress_inv_set_state|].
         reflexivity. }
    unfold TaskClient.waitForCompletion.
    destruct (TaskClient.waitForCompletion_loop _ _ _ _ _ _ _ _) as [out r3] eqn:Hwait.
    apply (progress_inv_wait (progress_history r)) in Hwait.
    2: { by apply progress_inv_log, progress_inv_set_state, progress_inv_set_taskId. }
    destruct out as [finalTask|e|]; cbv beta iota; cbn [snd];
      [|by apply progress_inv_applyError|done].
    assert (H4 : progress_inv (progress_history r)
              (set_message
                 (String h (nullish (ToolTaskPayload.progress_message finalTask)
                    (nullish (ToolTaskPayload.message finalTask) (JString ""))))
                 (set_progress
                    (normalizeProgress h (ToolTaskPayload.progress finalTask) (progress r3))
                    r3))).
    { apply progress_inv_set_message, progress_inv_set_progress; [done|].
      destruct Hwait as (_ & _ & _ & _ & Hn).
      rewrite normalizeProgress_floor.
      destruct (normalizeProgress_range h (ToolTaskPayload.progress finalTask)) as (Hc & _).
      by destruct (Math_max_floor _ _ Hn Hc) as (_ & ? & _). }
    destruct (is_string _ "completed"); cbn [snd].
    { by apply progress_inv_log, progress_inv_set_result, progress_inv_set_state. }
    destruct (is_string _ "cancelled"); cbn [snd].
    + by apply progress_inv_applyError, progress_inv_set_state.
    + by apply progress_inv_applyError.
  - intros p m r0 Hn. unfold onProgress. cbn [progress set_message set_progress].
    rewrite normalizeProgress_floor.
    destruct (normalizeProgress_range h (JNumber p)) as (Hc & _).
    by destruct (Math_max_floor _ _ Hn Hc) as (_ & ? & _).
  - intros p m r0 Hm. unfold onProgress. cbn [message set_message].
    destruct (String.eqb_spec m "") as [Hempty|_]; [by destruct Hm|reflexivity].
Qed.



End ToolFacts.

(** ** The realtime client *)

Module ClientFacts.
Import Js Client ClientInvariants.

Section WithSocket.
Context {W : Type} `{WebSocketApi W}.
Implicit Types c : ZmpLiteClient W.

Lemma stopHeartbeat_same c :
  options (stopHeartbeat c) = options c /\
  reconnectAttempts (stopHeartbeat c) = reconnectAttempts c /\
  scheduled (stopHeartbeat c) = scheduled c.
Proof. unfold stopHeartbeat. by destruct (heartbeatTimer c). Qed.

Lemma closed_first_same c :
  options (closed_first c) = options c /\
  reconnectAttempts (closed_first c) = reconnectAttempts c /\
  scheduled (closed_first c) = scheduled c /\
  state (closed_first c) = closed.
Proof.
  destruct (stopHeartbeat_same c) as (? & ? & ?). by repeat split.
Qed.

Lemma ws_onclose_unfold c :
  ws_onclose c =
  if shouldReconnect (closed_first c) then scheduleReconnect (closed_first c)
  else closed_first c.
Proof. reflexivity. Qed.

Lemma shouldReconnect_closed_first c :
  shouldReconnect (closed_first c) = shouldReconnect c.
Proof.
  destruct (closed_first_same c) as (Ho & Ha & _).
  unfold shouldReconnect. by rewrite Ho, Ha.
Qed.

(** A close that schedules a reconnect. *)
Lemma ws_onclose_schedules c config :
  reconnect (options c) = Some config ->
  enabled config = Some true ->
  (Z.of_nat (reconnectAttempts c) < default 0 (maxAttempts config))%Z ->
  scheduled (ws_onclose c)
    = scheduled c ++ [(default 1000 (baseDelay config) * 2 ^ Z.of_nat (reconnectAttempts c))%Z] /\
  reconnectAttempts (ws_onclose c) = S (reconnectAttempts c) /\
  state (ws_onclose c) = reconnecting /\
  options (ws_onclose c) = options c.
Proof.
  intros Hc He Hlt. rewrite ws_onclose_unfold, shouldReconnect_closed_first.
  destruct (closed_first_same c) as (Ho & Ha & Hs & _).
  assert (shouldReconnect c = true) as ->.
  { unfold shouldReconnect. rewrite Hc, He. simpl.
    destruct (_ >=? _)%Z eqn:Hge; [lia|done]. }
  unfold scheduleReconnect. rewrite Ho, Hc, He. cbn [default from_option id negb].
  cbn [scheduled set_scheduled updateState emit set_emitted set_state
       set_reconnectAttempts reconnectAttempts state options].
  rewrite ?Ha, ?Hs, ?Ho. repeat split; try done. lia.
Qed.

(** A close that schedules nothing. *)
Lemma ws_onclose_stops c :
  shouldReconnect c = false ->
  scheduled (ws_onclose c) = scheduled c /\
  reconnectAttempts (ws_onclose c) = reconnectAttempts c /\
  state (ws_onclose c) = closed /\
  options (ws_onclose c) = options c.
Proof.
  intros Hno. rewrite ws_onclose_unfold, shouldReconnect_closed_first, Hno.
  destruct (closed_first_same c) as (? & ? & ? & ?). done.
Qed.

Lemma connect_same socket c :
  options (connect socket c) = options c /\
  reconnectAttempts (connect socket c) = reconnectAttempts c /\
  scheduled (connect socket c) = scheduled c.
Proof.
  unfold connect. destruct (ws c) as [w|]; [|done].
  by destruct (_ || _).
Qed.

(** Closes in a row, from any value of the counter. *)
Lemma failures_from c config sockets :
  reconnect (options c) = Some config ->
  enabled config = Some true ->
  scheduled (failures sockets c)
    = scheduled c ++
      (backoff (default 1000 (baseDelay config)) <$>
         seq (reconnectAttempts c)
             (S (length sockets) `min` attempts_left config (reconnectAttempts c))) /\
  reconnectAttempts (failures sockets c)
    = (reconnectAttempts c
       + S (length sockets) `min` attempts_left config (reconnectAttempts c))%nat /\
  options (failures sockets c) = options c /\
  state (failures sockets c)
    = (if decide (S (length sockets) <= attempts_left config (reconnectAttempts c))%nat
       then reconnecting else closed).
Proof.
  intros Hc He. unfold failures, attempts_left.
  set (n := reconnectAttempts c). set (m := Z.to_nat (default 0 (maxAttempts config))).
  induction sockets as [|socket sockets IH] using rev_ind.
  - cbn [foldl length].
    destruct (decide (Z.of_nat n < default 0 (maxAttempts config))%Z) as [Hlt|Hge].
    + destruct (ws_onclose_schedules c config Hc He Hlt) as (Hs & Ha & Hst & Ho).
      rewrite Hs, Ha, Hst, Ho. fold n.
      replace (1 `min` (m - n))%nat with 1%nat by (unfold m; lia).
      rewrite decide_True by (unfold m; lia).
      repeat split. lia.
    + assert (shouldReconnect c = false) as Hno.
      { unfold shouldReconnect. rewrite Hc, He. simpl.
        destruct (_ >=? _)%Z eqn:Hx; [done|]. fold n in Hx. lia. }
      destruct (ws_onclose_stops c Hno) as (Hs & Ha & Hst & Ho).
      rewrite Hs, Ha, Hst, Ho. fold n.
      replace (1 `min` (m - n))%nat with 0%nat by (unfold m; lia).
      rewrite decide_False by (unfold m; lia).
      rewrite app_nil_r. repeat split. lia.
  - rewrite foldl_snoc.
    set (c' := foldl _ _ sockets) in *.
    destruct IH as (Hs & Ha & Ho & Hst).
    destruct (connect_same socket c') as (Ho' & Ha' & Hs').
    set (c'' := connect socket c') in *.
    assert (reconnect (options c'') = Some config) as Hc'' by (by rewrite Ho', Ho).
    rewrite length_app. cbn [length].
    destruct (decide (Z.of_nat (reconnectAttempts c'') < default 0 (maxAttempts config))%Z)
      as [Hlt|Hge].
    + destruct (ws_onclose_schedules c'' config Hc'' He Hlt) as (Hs2 & Ha2 & Hst2 & Ho2).
      rewrite Hs2, Ha2, Hst2, Ho2, Hs', Ha', Ho', Hs, Ha, Ho.
      rewrite Ha', Ha in Hlt.
      assert ((S (length sockets) `min` (m - n)) = S (length sockets))%nat as Hk
        by (unfold m in *; lia).
      assert ((S (length sockets + 1) `min` (m - n)) = S (S (length sockets)))%nat as ->
        by (unfold m in *; lia).
      rewrite Hk. rewrite decide_True by (unfold m in *; lia).
      repeat split; [|lia].
      rewrite <- app_assoc. f_equal. by rewrite (seq_S (S (length sockets))), fmap_app.
    + assert (shouldReconnect c'' = false) as Hno.
      { unfold shouldReconnect. rewrite Hc'', He. simpl.
        destruct (_ >=? _)%Z eqn:Hx; [done|lia]. }
      destruct (ws_onclose_stops c'' Hno) as (Hs2 & Ha2 & Hst2 & Ho2).
      rewrite Hs2, Ha2, Hst2, Ho2, Hs', Ha', Ho', Hs, Ha, Ho.
      rewrite Ha', Ha in Hge.
      assert ((S (length sockets + 1) `min` (m - n))
              = (S (length sockets) `min` (m - n)))%nat as -> by (unfold m in *; lia).
      rewrite decide_False by (unfold m in *; lia). done.
Qed.

(** *** The outbound queue *)

Lemma set_pendingMessages_same c : set_pendingMessages (pendingMessages c) c = c.
Proof. by destruct c. Qed.

Lemma flush_step_inv c c' :
  flush_step c c' ->
  transmitted c' ++ pendingMessages c' = transmitted c ++ pendingMessages c.
Proof.
  intros [c0 msg rest w Hp Hw Ho]. cbn. by rewrite Hp, <- app_assoc.
Qed.

Lemma flush_steps_inv c c' :
  rtc flush_step c c' ->
  exists sent,
    transmitted c' = transmitted c ++ sent /\
    pendingMessages c = sent ++ pendingMessages c'.
Proof.
  induction 1 as [c|c c1 c' Hstep _ IH].
  - exists []. by rewrite app_nil_r.
  - destruct IH as (sent & Ht & Hp).
    destruct Hstep as [c0 msg rest w Hp0 Hw Ho]. cbn in Ht, Hp.
    exists (msg :: sent). rewrite Ht, Hp0, Hp, <- app_assoc. done.
Qed.

Lemma flush_steps_open c c' :
  (forall w msg, readyState w = OPEN -> readyState (send w msg) = OPEN) ->
  rtc flush_step c c' -> ws_open c = true -> ws_open c' = true.
Proof.
  intros Hstay. induction 1 as [c|c c1 c' Hstep _ IH]; [done|].
  intros _. apply IH. destruct Hstep as [c0 msg rest w Hp0 Hw Ho].
  unfold ws_open. cbn. apply bool_decide_eq_true. by apply Hstay.
Qed.

Lemma flush_loop_steps pending c :
  pendingMessages c = pending ->
  rtc flush_step c (flush_loop pending c) /\
  (pendingMessages (flush_loop pending c) = [] \/ ws_open (flush_loop pending c) = false).
Proof.
  revert c. induction pending as [|msg rest IH]; intros c Hp; cbn [flush_loop].
  - rewrite <- Hp, set_pendingMessages_same. split; [done|by left].
  - unfold ws_open. destruct (ws c) as [w|] eqn:Hw.
    + destruct (bool_decide (readyState w = OPEN)) eqn:Ho.
      * apply bool_decide_eq_true in Ho.
        set (c1 := set_transmitted _ _).
        destruct (IH c1 eq_refl) as [Hsteps Hend].
        split; [|done]. eapply rtc_l; [|exact Hsteps]. by eapply flush_send.
      * rewrite <- Hp, set_pendingMessages_same, Hw, Ho. split; [done|by right].
    + rewrite <- Hp, set_pendingMessages_same, Hw. split; [done|by right].
Qed.

Lemma enqueue_when_closed envelope c :
  ws_open c = false ->
  pendingMessages (sendEnvelopeInternal envelope c) = pendingMessages c ++ [envelope] /\
  transmitted (sendEnvelopeInternal envelope c) = transmitted c /\
  ws (sendEnvelopeInternal envelope c) = ws c.
Proof.
  unfold ws_open, sendEnvelopeInternal. destruct (ws c) as [w|] eqn:Hw.
  - intros ->. by repeat split.
  - intros _. by repeat split.
Qed.

Ltac fields :=
  cbn [ws options pendingMessages heartbeatTimer reconnectAttempts state transmitted
       scheduled heartbeat emitted
       set_ws set_pendingMessages set_heartbeatTimer set_reconnectAttempts set_state
       set_transmitted set_scheduled set_heartbeat set_emitted emit updateState].

(** What only the reconnect policy and the state machine write. *)
Lemma sendEnvelopeInternal_frame e c :
  options (sendEnvelopeInternal e c) = options c /\
  reconnectAttempts (sendEnvelopeInternal e c) = reconnectAttempts c /\
  scheduled (sendEnvelopeInternal e c) = scheduled c /\
  state (sendEnvelopeInternal e c) = state c /\
  heartbeatTimer (sendEnvelopeInternal e c) = heartbeatTimer c /\
  heartbeat (sendEnvelopeInternal e c) = heartbeat c /\
  emitted (sendEnvelopeInternal e c) = emitted c.
Proof.
  unfold sendEnvelopeInternal. destruct (ws c) as [w|]; [|done].
  by destruct (bool_decide _).
Qed.

Lemma flush_loop_frame pending c :
  options (flush_loop pending c) = options c /\
  reconnectAttempts (flush_loop pending c) = reconnectAttempts c /\
  scheduled (flush_loop pending c) = scheduled c /\
  state (flush_loop pending c) = state c /\
  heartbeatTimer (flush_loop pending c) = heartbeatTimer c /\
  heartbeat (flush_loop pending c) = heartbeat c /\
  emitted (flush_loop pending c) = emitted c.
Proof.
  revert c. induction pending as [|msg rest IH]; intros c; simpl; [done|].
  destruct (ws c) as [w|]; [|done]. destruct (bool_decide _); [|done].
  destruct (IH (set_transmitted (transmitted c ++ [msg])
                  (set_ws (Some (send w msg)) (set_pendingMessages rest c))))
    as (-> & -> & -> & -> & -> & -> & ->). done.
Qed.

Lemma startHeartbeat_frame c :
  options (startHeartbeat c) = options c /\
  reconnectAttempts (startHeartbeat c) = reconnectAttempts c /\
  scheduled (startHeartbeat c) = scheduled c /\
  state (startHeartbeat c) = state c /\
  ws (startHeartbeat c) = ws c /\
  transmitted (startHeartbeat c) = transmitted c /\
  pendingMessages (startHeartbeat c) = pendingMessages c /\
  emitted (startHeartbeat c) = emitted c.
Proof.
  unfold startHeartbeat. cbv zeta.
  destruct (heartbeatTimer c); fields; destruct (heartbeatInterval _) as [i|]; try done;
    by destruct (i =? 0)%Z.
Qed.

(** The handshake that [sendHandshake] builds. *)
Lemma sendHandshake_envelope f c :
  exists hs,
    sendHandshake f c = sendEnvelopeInternal hs c /\
    type hs = "handshake" /\ direction hs = request /\
    message_id hs = fresh_message_id f /\
    get (payload hs) "client_version" = JString "2.0.0".
Proof. eexists. split; [reflexivity|]. by repeat split. Qed.

Lemma sendEnvelopeInternal_open e c :
  ws_open c = true ->
  transmitted (sendEnvelopeInternal e c) = transmitted c ++ [e] /\
  pendingMessages (sendEnvelopeInternal e c) = pendingMessages c.
Proof.
  unfold ws_open, sendEnvelopeInternal. destruct (ws c) as [w|]; [|done].
  by intros ->.
Qed.

(** The queue through an open event: the handshake joins it (at the
    socket if that is open, at the end of the queue if not), and the
    flush follows. *)
Lemma ws_onopen_order f c :
  exists hs,
    type hs = "handshake" /\
    transmitted (ws_onopen f c) ++ pendingMessages (ws_onopen f c)
      = transmitted c ++
        (if ws_open c then hs :: pendingMessages c else pendingMessages c ++ [hs]) /\
    (exists sent, transmitted (ws_onopen f c) = transmitted c ++ sent) /\
    (pendingMessages (ws_onopen f c) = [] \/ ws_open (ws_onopen f c) = false) /\
    ((forall w msg, readyState w = OPEN -> readyState (send w msg) = OPEN) ->
     ws_open c = true ->
     transmitted (ws_onopen f c) = transmitted c ++ hs :: pendingMessages c /\
     pendingMessages (ws_onopen f c) = []).
Proof.
  unfold ws_onopen. cbv zeta.
  set (c1 := updateState open (set_reconnectAttempts 0 c)).
  assert (ws_open c1 = ws_open c /\ transmitted c1 = transmitted c /\
          pendingMessages c1 = pendingMessages c) as (Hopen1 & Ht1 & Hp1) by done.
  destruct (sendHandshake_envelope f c1) as (hs & -> & Hty & _).
  clearbody c1. set (c2 := sendEnvelopeInternal hs c1).
  assert (transmitted c2 ++ pendingMessages c2
          = transmitted c ++
            (if ws_open c then hs :: pendingMessages c else pendingMessages c ++ [hs]) /\
          (exists sent0, transmitted c2 = transmitted c ++ sent0) /\
          (ws_open c = true ->
           transmitted c2 = transmitted c ++ [hs] /\ pendingMessages c2 = pendingMessages c))
    as (Hq2 & [sent0 Hs2] & Ho2).
  { rewrite <- Hopen1, <- Ht1, <- Hp1. destruct (ws_open c1) eqn:Hopen.
    - destruct (sendEnvelopeInternal_open hs c1 Hopen) as [Ht2 Hp2]. fold c2 in Ht2, Hp2.
      rewrite Ht2, Hp2, <- app_assoc. split; [done|]. split; [by exists [hs]|done].
    - destruct (enqueue_when_closed hs c1 Hopen) as (Hp2 & Ht2 & _). fold c2 in Ht2, Hp2.
      rewrite Ht2, Hp2. split; [done|]. split; [|done]. exists []. by rewrite app_nil_r. }
  set (c3 := flushPendingMessages c2).
  destruct (flush_loop_steps (pendingMessages c2) c2 eq_refl) as [Hsteps Hend].
  fold (flushPendingMessages c2) in Hsteps, Hend. fold c3 in Hsteps, Hend.
  destruct (flush_steps_inv c2 c3 Hsteps) as (sent & Ht3 & Hp3).
  destruct (startHeartbeat_frame c3) as (_ & _ & _ & _ & Hw4 & Ht4 & Hp4 & _).
  assert (ws_open (emit EmitOpen (startHeartbeat c3)) = ws_open c3) as Hopen4.
  { unfold ws_open. fields. by rewrite Hw4. }
  exists hs. split; [done|]. fields. rewrite Ht4, Hp4, Hopen4.
  split. { rewrite <- Hq2, Ht3, Hp3. by rewrite app_assoc. }
  split. { exists (sent0 ++ sent). by rewrite Ht3, Hs2, app_assoc. }
  split; [done|].
  intros Hstay Hopen. destruct (Ho2 Hopen) as [Ht2 Hp2].
  assert (ws_open c2 = true) as Hopen2.
  { rewrite <- Hopen1 in Hopen.
    unfold c2, ws_open, sendEnvelopeInternal in *. destruct (ws c1) as [w|]; [|done].
    apply bool_decide_eq_true in Hopen. rewrite bool_decide_eq_true_2 by done. fields.
    apply bool_decide_eq_true_2. by apply Hstay. }
  pose proof (flush_steps_open c2 c3 Hstay Hsteps Hopen2) as Hopen3.
  destruct Hend as [Hnil|Hclosed]; [|congruence].
  rewrite Hnil, app_nil_r in Hp3. split; [|done].
  rewrite Ht3, Ht2, <- app_assoc. simpl. congruence.
Qed.

(** Neither [connect] nor a close touches the queue. *)
Lemma connect_queue socket c :
  pendingMessages (connect socket c) = pendingMessages c /\
  transmitted (connect socket c) = transmitted c.
Proof.
  unfold connect. destruct (ws c) as [w|]; [|done]. by destruct (_ || _).
Qed.

Lemma ws_onclose_queue c :
  pendingMessages (ws_onclose c) = pendingMessages c /\
  transmitted (ws_onclose c) = transmitted c.
Proof.
  unfold ws_onclose. cbv zeta.
  assert (pendingMessages (stopHeartbeat c) = pendingMessages c /\
          transmitted (stopHeartbeat c) = transmitted c) as [Hp Ht].
  { unfold stopHeartbeat. by destruct (heartbeatTimer c). }
  destruct (shouldReconnect _); [|by fields].
  unfold scheduleReconnect. fields.
  destruct (reconnect (options (stopHeartbeat c))) as [config|]; [|by fields].
  destruct (negb _); by fields.
Qed.

(** C9.  An envelope sent while the socket is not open goes to the end of
    the queue.  A flush moves envelopes from the head of the queue to the
    socket, one by one: at every point of it, the envelopes transmitted
    followed by the queue are what they were before -- the original order;
    it ends with the queue empty or the socket no longer open, what was
    sent being a prefix of the queue and what remains its suffix; and if
    the socket stays open it sends the whole queue, in order.  The flush
    runs when a socket opens, on the first connection as on a
    reconnection: the open handler sends the handshake and then flushes,
    so that what has been transmitted followed by the queue is, after it,
    the earlier transmissions, the handshake and the queue in its order,
    all of it transmitted when the socket stays open; a close and the
    [connect] that follows it leave the queue as it is. *)
Theorem flush_fifo c :
  (forall envelope, ws_open c = false ->
     pendingMessages (sendEnvelopeInternal envelope c) = pendingMessages c ++ [envelope] /\
     transmitted (sendEnvelopeInternal envelope c) = transmitted c) /\
  (forall c', rtc flush_step c c' ->
     transmitted c' ++ pendingMessages c' = transmitted c ++ pendingMessages c) /\
  rtc flush_step c (flushPendingMessages c) /\
  (pendingMessages (flushPendingMessages c) = [] \/
   ws_open (flushPendingMessages c) = false) /\
  (exists sent,
     transmitted (flushPendingMessages c) = transmitted c ++ sent /\
     pendingMessages c = sent ++ pendingMessages (flushPendingMessages c)) /\
  ((forall w msg, readyState w = OPEN -> readyState (send w msg) = OPEN) ->
   ws_open c = true ->
   transmitted (flushPendingMessages c) = transmitted c ++ pendingMessages c /\
   pendingMessages (flushPendingMessages c) = []) /\
  (forall f, exists hs,
     type hs = "handshake" /\
     transmitted (ws_onopen f c) ++ pendingMessages (ws_onopen f c)
       = transmitted c ++
         (if ws_open c then hs :: pendingMessages c else pendingMessages c ++ [hs]) /\
     (exists sent, transmitted (ws_onopen f c) = transmitted c ++ sent) /\
     (pendingMessages (ws_onopen f c) = [] \/ ws_open (ws_onopen f c) = false) /\
     ((forall w msg, readyState w = OPEN -> readyState (send w msg) = OPEN) ->
      ws_open c = true ->
      transmitted (ws_onopen f c) = transmitted c ++ hs :: pendingMessages c /\
      pendingMessages (ws_onopen f c) = [])) /\
  (forall socket,
     pendingMessages (connect socket (ws_onclose c)) = pendingMessages c /\
     transmitted (connect socket (ws_onclose c)) = transmitted c).
Proof.
  destruct (flush_loop_steps (pendingMessages c) c eq_refl) as [Hsteps Hend].
  fold (flushPendingMessages c) in Hsteps, Hend.
  split. { intros envelope Hc. by destruct (enqueue_when_closed envelope c Hc) as (? & ? & _). }
  split.
  { intros c' Hc'. destruct (flush_steps_inv c c' Hc') as (sent & -> & ->).
    by rewrite app_assoc. }
  split; [done|]. split; [done|].
  split; [by apply flush_steps_inv|].
  split.
  { intros Hstay Hopen.
    pose proof (flush_steps_open _ _ Hstay Hsteps Hopen) as Hopen'.
    destruct Hend as [Hnil|Hclosed]; [|congruence].
    destruct (flush_steps_inv _ _ Hsteps) as (sent & Ht & Hp).
    rewrite Hnil, app_nil_r in Hp. by rewrite Ht, Hp. }
  split; [intros f; apply ws_onopen_order|].
  intros socket. destruct (connect_queue socket (ws_onclose c)) as [-> ->].
  apply ws_onclose_queue.
Qed.

(** C6.  The reconnect policy at a close that was not asked for.  With
    reconnection enabled, a base delay of 1000 and the attempt counter at
    [n] below the maximum, the close schedules a reconnect after
    [1000 * 2^n] ms, increments the counter and leaves the state
    reconnecting; with the counter at the maximum or beyond, or with
    reconnection disabled, it schedules nothing and the state stays
    closed.  From counter 0, closes in a row therefore schedule the delays
    1000, 2000, 4000, ... until the maximum is reached. *)
Theorem reconnect_backoff c :
  (forall config,
     reconnect (options c) = Some config -> enabled config = Some true ->
     baseDelay config = Some 1000%Z ->
     (Z.of_nat (reconnectAttempts c) < default 0 (maxAttempts config))%Z ->
     scheduled (ws_onclose c)
       = scheduled c ++ [(1000 * 2 ^ Z.of_nat (reconnectAttempts c))%Z] /\
     reconnectAttempts (ws_onclose c) = S (reconnectAttempts c) /\
     state (ws_onclose c) = reconnecting) /\
  (forall config,
     reconnect (options c) = Some config ->
     (default 0 (maxAttempts config) <= Z.of_nat (reconnectAttempts c))%Z ->
     scheduled (ws_onclose c) = scheduled c /\
     reconnectAttempts (ws_onclose c) = reconnectAttempts c /\
     state (ws_onclose c) = closed) /\
  ((reconnect (options c) = None \/
    exists config, reconnect (options c) = Some config /\
                   default false (enabled config) = false) ->
   scheduled (ws_onclose c) = scheduled c /\
   reconnectAttempts (ws_onclose c) = reconnectAttempts c /\
   state (ws_onclose c) = closed) /\
  (forall config sockets,
     reconnect (options c) = Some config -> enabled config = Some true ->
     baseDelay config = Some 1000%Z -> reconnectAttempts c = 0%nat ->
     scheduled (failures sockets c)
       = scheduled c ++
         ((fun i => (1000 * 2 ^ Z.of_nat i)%Z) <$>
            seq 0 (S (length sockets) `min` Z.to_nat (default 0%Z (maxAttempts config)))) /\
     ((Z.to_nat (default 0%Z (maxAttempts config)) <= length sockets)%nat ->
      state (failures sockets c) = closed)).
Proof.
  split; [|split; [|split]].
  - intros config Hc He Hb Hlt.
    destruct (ws_onclose_schedules c config Hc He Hlt) as (Hs & Ha & Hst & _).
    rewrite Hb in Hs. done.
  - intros config Hc Hge.
    assert (shouldReconnect c = false) as Hno.
    { unfold shouldReconnect. rewrite Hc. destruct (negb _); [done|].
      destruct (_ >=? _)%Z eqn:Hx; [done|lia]. }
    by destruct (ws_onclose_stops c Hno) as (? & ? & ? & _).
  - intros Hoff.
    assert (shouldReconnect c = false) as Hno.
    { unfold shouldReconnect. by destruct Hoff as [->|(config & -> & ->)]. }
    by destruct (ws_onclose_stops c Hno) as (? & ? & ? & _).
  - intros config sockets Hc He Hb H0.
    destruct (failures_from c config sockets Hc He) as (Hs & _ & _ & Hst).
    rewrite H0, Hb in *. unfold attempts_left in *. rewrite Nat.sub_0_r in *.
    split; [done|]. intros Hm. rewrite Hst. rewrite decide_False by lia. done.
Qed.

End WithSocket.

(** The flush at a concrete client: three envelopes are queued and the
    socket closes after the second frame.  When the open event finds
    that queue, the handshake and the first envelope go out and the
    other two stay queued; a reconnection to a socket that takes nine
    frames then sends a new handshake and the rest, in order. *)
Lemma flush_fifo_witness :
  let socket := {| Samples.ready := OPEN; Samples.budget := 2 |} in
  let queue := [Samples.envelope "1"; Samples.envelope "2"; Samples.envelope "3"] in
  let c :=
    set_pendingMessages queue
      (set_ws (Some socket) (create (Samples.client_options default_reconnect))) in
  let f := {| fresh_trace_id := "t"; fresh_message_id := "h"; now := 7 |} in
  let opened := ws_onopen f c in
  let again :=
    ws_onopen f
      (socket_now {| Samples.ready := OPEN; Samples.budget := 9 |}
         (connect {| Samples.ready := CONNECTING; Samples.budget := 9 |}
            (ws_onclose (socket_now {| Samples.ready := CLOSED; Samples.budget := 0 |}
                           opened)))) in
  transmitted (flushPendingMessages c) ++ pendingMessages (flushPendingMessages c) = queue /\
  transmitted (flushPendingMessages c) = [Samples.envelope "1"; Samples.envelope "2"] /\
  (pendingMessages (flushPendingMessages c) = [] \/ ws_open (flushPendingMessages c) = false) /\
  message_id <$> transmitted opened = ["h"; "1"] /\
  message_id <$> pendingMessages opened = ["2"; "3"] /\
  message_id <$> transmitted again = ["h"; "1"; "h"; "2"; "3"] /\
  pendingMessages again = [].
Proof.
  intros socket queue c f opened again.
  destruct (flush_fifo c) as (_ & Hinv & Hsteps & Hend & _).
  split; [exact (Hinv _ Hsteps)|]. split; [reflexivity|]. split; [exact Hend|].
  by repeat split.
Defined.

(** The policy at a concrete client: base delay 1000, at most 3
    attempts, and four closes in a row. *)
Lemma reconnect_backoff_witness :
  let config := {| enabled := Some true; maxAttempts := Some 3; baseDelay := Some 1000 |} in
  let c : ZmpLiteClient Samples.Socket := create (Samples.client_options config) in
  let socket := {| Samples.ready := CONNECTING; Samples.budget := 0 |} in
  scheduled (ws_onclose c) = [1000] /\
  scheduled (failures [socket; socket; socket] c) = [1000; 2000; 4000] /\
  state (failures [socket; socket; socket] c) = closed.
Proof.
  intros config c socket.
  destruct (reconnect_backoff c) as (Hone & _ & _ & Hrow).
  destruct (Hone config) as (Hfirst & _); [reflexivity..|].
  destruct (Hrow config [socket; socket; socket]) as (Hdelays & Hclosed); [reflexivity..|].
  split; [exact Hfirst|]. split; [exact Hdelays|]. apply Hclosed. apply le_n.
Defined.

End ClientFacts.

(* ===================================================================== *)
(** * Part III: further properties *)
(* ===================================================================== *)

(** ** The merge pass as a whole *)

Module MergeProps.
Import Js Protocol Protocol.UI MergeInvariants EntryInvariants ProtocolFacts.

Section Mapper.
Variable h : Host.
Variable options : MessageMapperOptions.






Lemma run_of_plain st l :
  Forall (fun m => message_type m <> MESSAGE_TYPES.TOOL_RESULT /\
                   message_type m <> MESSAGE_TYPES.HUMAN_INTERVENTION_RESPONSE) l ->
  uiMessages (run_of h options st l) = uiMessages st ++ (ui_of h options <$> l).
Proof.
  induction l as [|m l IH] using rev_ind; intros Hl.
  { by rewrite app_nil_r. }
  apply Forall_app in Hl as [Hl Hm]. apply Forall_singleton in Hm as [Hres Hresp].
  rewrite run_of_snoc, fmap_app, app_assoc, <- (IH Hl).
  destruct (step_of_case h options (run_of h options st l) m) as
    [_ Hu _ _|j Ht|Ht|_ Hu _ _|j Ht|Ht|_ _ _ _ ->]; try done.
Qed.

Lemma mapM_toUIMessage l :
  Forall (fun m => is_Some (toUIMessage h options m)) l ->
  mapM (toUIMessage h options) l = Some (ui_of h options <$> l).
Proof.
  intros Hl. apply mapM_Some. induction Hl as [|m l [u Hu] Hl IH]; [constructor|].
  rewrite fmap_cons. constructor; [|done]. by rewrite (toUIMessage_ui_of h options m u Hu).
Qed.

(** A raw sequence with no tool result and no response to a human
    intervention is mapped message by message, in order: [mergeMessages]
    returns the results of [toUIMessage], and it throws where one of
    these calls throws. *)
Theorem merge_without_results (l : list RawProtocolMessage) :
  Forall (fun m => message_type m <> MESSAGE_TYPES.TOOL_RESULT /\
                   message_type m <> MESSAGE_TYPES.HUMAN_INTERVENTION_RESPONSE) l ->
  mergeMessages h options l = mapM (toUIMessage h options) l.
Proof.
  intros Hl. destruct (mergeMessages h options l) as [out|] eqn:Hout.
  - apply mergeMessages_Some in Hout as [Hconv ->].
    rewrite mapM_toUIMessage by done. unfold merged_of. by rewrite run_of_plain.
  - destruct (mapM (toUIMessage h options) l) as [k|] eqn:Hmap; [|done].
    assert (is_Some (mapM (toUIMessage h options) l)) as Hsome by (by eexists).
    apply mapM_is_Some in Hsome. apply mergeMessages_is_Some in Hsome.
    rewrite Hout in Hsome. by destruct Hsome.
Qed.

(** *** Responses to a human intervention, by action *)

Lemma is_string_ne v s : v <> JString s -> is_string v s = false.
Proof.
  destruct v as [| | | |s'| |]; try done. simpl. intros Hne.
  destruct (String.eqb_spec s' s) as [->|]; [by destruct Hne|done].
Qed.

Lemma merge_state_eq (st st' : MergeState) :
  uiMessages st' = uiMessages st -> toolCallMap st' = toolCallMap st ->
  hilRequestMap st' = hilRequestMap st -> st' = st.
Proof. destruct st, st'. simpl. by intros -> -> ->. Qed.

Lemma absorb_response_other ui e :
  get (UI.payload ui) "action" <> JString "accept" ->
  get (UI.payload ui) "action" <> JString "reject" ->
  get (UI.payload ui) "action" <> JString "edit" ->
  absorb_response h options ui e = e.
Proof.
  intros Ha Hr He. unfold absorb_response.
  by rewrite (is_string_ne _ _ Ha), (is_string_ne _ _ Hr), (is_string_ne _ _ He).
Qed.




Lemma merged_other_action (pre : list RawProtocolMessage)
    (resp : RawProtocolMessage) (post : list RawProtocolMessage) :
  message_type resp = MESSAGE_TYPES.HUMAN_INTERVENTION_RESPONSE ->
  truthy (or (get (Protocol.payload resp) "response_text")
             (JString (responded (hil (strings options))))) = true ->
  get (Protocol.payload resp) "action" <> JString "accept" ->
  get (Protocol.payload resp) "action" <> JString "reject" ->
  get (Protocol.payload resp) "action" <> JString "edit" ->
  merged_of h options (pre ++ resp :: post) = merged_of h options (pre ++ post).
Proof.
  intros Hresp Htext Ha Hr He. unfold merged_of.
  rewrite !run_of_app, run_of_cons. f_equal. f_equal.
  assert (truthy (hilResponseText (ui_of h options resp)) = true) as Htext'.
  { by destruct (ui_of_hil_response h options resp Hresp) as [_ ->]. }
  destruct (step_of_case h options (run_of h options merge_init pre) resp) as
    [Ht|j Ht|Ht|Ht|j _ _ _ _ Hu Htm Hhm|_ _ _ ->|_ _ _ Ht _];
    try (by rewrite Hresp in Ht); [|done|by rewrite Htext' in Ht].
  apply merge_state_eq; [|done..]. rewrite Hu. apply list_alter_id. intros e.
  apply absorb_response_other; by rewrite ui_of_payload.
Qed.

(** A response to a human intervention whose action is none of
    "accept", "reject" and "edit" (the client can send "response"), and
    which [toUIMessage] converts (its timestamp is a time value),
    changes nothing, whether a request matches it or not: what
    [mergeMessages] returns, or that it throws, is as without that
    message. *)
Theorem hil_response_other_action (pre : list RawProtocolMessage)
    (resp : RawProtocolMessage) (post : list RawProtocolMessage) :
  message_type resp = MESSAGE_TYPES.HUMAN_INTERVENTION_RESPONSE ->
  truthy (or (get (Protocol.payload resp) "response_text")
             (JString (responded (hil (strings options))))) = true ->
  get (Protocol.payload resp) "action" <> JString "accept" ->
  get (Protocol.payload resp) "action" <> JString "reject" ->
  get (Protocol.payload resp) "action" <> JString "edit" ->
  is_Some (toUIMessage h options resp) ->
  mergeMessages h options (pre ++ resp :: post) = mergeMessages h options (pre ++ post).
Proof.
  intros Hresp Htext Ha Hr He Hconv. apply mergeMessages_eq.
  - rewrite !Forall_app, Forall_cons. tauto.
  - by apply merged_other_action.
Qed.



End Mapper.

(** [merge_without_results] at a user command followed by a tool call. *)
Lemma merge_without_results_witness :
  let l :=
    [Samples.message "a" "user_command" [("text", JString "hi")] 1;
     Samples.message "b" "tool_call" [("tool_call_id", JString "x")] 2] in
  mergeMessages Samples.host defaultMessageMapperOptions l
    = mapM (toUIMessage Samples.host defaultMessageMapperOptions) l /\
  is_Some (mergeMessages Samples.host defaultMessageMapperOptions l).
Proof.
  intros l. split; [|by eexists]. apply merge_without_results.
  repeat (constructor; [split; discriminate|]). constructor.
Defined.

(** [hil_response_other_action] at a request and a response with the
    action "response". *)
Lemma hil_response_other_action_witness :
  let req :=
    Samples.message "a" "human_intervention_request" [("request_id", JString "r1")] 1 in
  let resp :=
    Samples.message "b" "human_intervention_response"
      [("request_id", JString "r1"); ("action", JString "response")] 2 in
  mergeMessages Samples.host defaultMessageMapperOptions [req; resp]
    = mergeMessages Samples.host defaultMessageMapperOptions [req] /\
  is_Some (mergeMessages Samples.host defaultMessageMapperOptions [req]).
Proof.
  intros req resp. split; [|by eexists].
  apply (hil_response_other_action Samples.host defaultMessageMapperOptions [req] resp []);
    [reflexivity|reflexivity|discriminate..|by eexists].
Defined.


End MergeProps.

(** ** The chat store and its adapters, further *)

Module StoreProps.
Import Js Protocol Store StoreInvariants StoreFacts.

(** *** The sort of a load *)

Lemma insert_by_timestamp_filter (P : RawProtocolMessage -> Prop)
    `{forall m, Decision (P m)} x l :
  (forall a b, P a -> P b -> timestamp a = timestamp b) ->
  filter P (insert_by_timestamp x l) = filter P (x :: l).
Proof.
  intros Hsame. induction l as [|y l IH]; [done|]. simpl.
  destruct (Z.leb_spec (timestamp x) (timestamp y)) as [Hle|Hlt]; [done|].
  rewrite filter_cons, IH, !filter_cons.
  destruct (decide (P y)) as [Hy|Hy], (decide (P x)) as [Hx|Hx]; try done.
  pose proof (Hsame _ _ Hx Hy). lia.
Qed.

(** The sort that [loadSession] and the IndexedDB adapter apply is
    stable: the result is a permutation of the messages loaded, ascending
    by timestamp, and messages with the same timestamp keep the order in
    which they were loaded. *)
Theorem sort_by_timestamp_stable (l : list RawProtocolMessage) :
  sort_by_timestamp l ≡ₚ l /\
  Spec.sorted_by_timestamp (sort_by_timestamp l) /\
  (forall t, filter (fun m => timestamp m = t) (sort_by_timestamp l)
             = filter (fun m => timestamp m = t) l).
Proof.
  split; [apply sort_by_timestamp_perm|]. split; [apply sort_by_timestamp_sorted|].
  intros t. induction l as [|x l IH]; [done|].
  cbn [sort_by_timestamp foldr]. fold (sort_by_timestamp l).
  rewrite insert_by_timestamp_filter by (intros a b; congruence).
  by rewrite !filter_cons, IH.
Qed.

(** *** What the store hands to its adapter *)

Lemma upsert_fold_last ms e :
  e ∈ foldl (upsert (fun _ m => m)) [] ms ->
  last (filter (fun m => id m = id e) ms) = Some e.
Proof.
  revert e. induction ms as [|m ms IH] using rev_ind; intros e'.
  { by intros ?%elem_of_nil. }
  rewrite foldl_snoc, filter_app.
  pose proof (upsert_fold_ids (fun _ m => m) ms (fun _ _ => eq_refl)) as Hids.
  set (l := foldl (upsert (fun _ m => m)) [] ms) in *.
  assert (NoDup (id <$> l)) as Hnd by (rewrite Hids; apply first_occurrences_NoDup).
  unfold upsert. destruct (findIndex m l) as [[i e]|] eqn:Hf.
  - apply findIndex_Some in Hf as [Hi He].
    intros [j Hj]%list_elem_of_lookup.
    destruct (decide (j = i)) as [->|Hji].
    + rewrite list_lookup_insert_eq in Hj by (by eapply lookup_lt_Some).
      injection Hj as <-.
      rewrite (filter_cons_True _ m []) by done.
      rewrite filter_nil. apply last_snoc.
    + rewrite list_lookup_insert_ne in Hj by done.
      assert (id m <> id e') as Hne.
      { rewrite <- He. intros Heq. apply Hji.
        eapply (NoDup_lookup (id <$> l)); [done| |];
          rewrite list_lookup_fmap; [by rewrite Hj|rewrite Hi; simpl; by rewrite Heq]. }
      rewrite (filter_cons_False _ m []) by done.
      rewrite filter_nil, app_nil_r. apply IH. by eapply list_elem_of_lookup_2.
  - intros [Hin| ->%list_elem_of_singleton]%elem_of_app.
    + rewrite (filter_cons_False _ m []).
      * rewrite filter_nil, app_nil_r. by apply IH.
      * intros Heq. by eapply (findIndex_None m l Hf e').
    + rewrite (filter_cons_True _ m []) by done. rewrite filter_nil. apply last_snoc.
Qed.

Section WithMemory.

Lemma addMessage_memory m (s : ChatStore MemoryStorageAdapter) a sid :
  storageAdapter s = Some a -> truthy_session (sessionId s) = Some sid ->
  storageAdapter (fst (addMessage m s))
    = Some (Memory.saveMessage a (getStorageKey s sid) m) /\
  sessionId (fst (addMessage m s)) = sessionId s /\
  storageNamespace (fst (addMessage m s)) = storageNamespace s /\
  snd (addMessage m s) = Fulfilled.
Proof.
  intros Ha Hs. unfold addMessage, persist.
  destruct (findIndex m (rawMessages s)) as [[i e]|]; cbn; by rewrite Ha, Hs.
Qed.

Lemma getStorageKey_namespace (s s' : ChatStore MemoryStorageAdapter) sid :
  storageNamespace s' = storageNamespace s -> getStorageKey s' sid = getStorageKey s sid.
Proof. unfold getStorageKey. by intros ->. Qed.

Lemma addMessages_memory ms (s : ChatStore MemoryStorageAdapter) a sid :
  storageAdapter s = Some a -> truthy_session (sessionId s) = Some sid ->
  exists a',
    storageAdapter (addMessages ms s) = Some a' /\
    sessionId (addMessages ms s) = sessionId s /\
    storageNamespace (addMessages ms s) = storageNamespace s /\
    Memory.loadSessionMessages a' (getStorageKey s sid)
      = foldl (upsert (fun _ m => m))
              (Memory.loadSessionMessages a (getStorageKey s sid)) ms /\
    (forall key, key <> getStorageKey s sid ->
       Memory.loadSessionMessages a' key = Memory.loadSessionMessages a key).
Proof.
  intros Ha Hs. induction ms as [|m ms IH] using rev_ind.
  { exists a. by repeat split. }
  destruct IH as (a' & Ha' & Hsid & Hns & Hload & Hother).
  unfold addMessages in *. rewrite foldl_snoc.
  set (s' := foldl _ s ms) in *.
  destruct (addMessage_memory m s' a' sid Ha') as (Hm & Hsid' & Hns' & _).
  { by rewrite Hsid. }
  exists (Memory.saveMessage a' (getStorageKey s' sid) m).
  split; [done|]. split; [congruence|]. split; [congruence|].
  rewrite (getStorageKey_namespace s s' sid Hns). split.
  - by rewrite Memory_saveMessage_load, Hload, foldl_snoc.
  - intros key Hkey. rewrite <- (Hother key Hkey).
    unfold Memory.loadSessionMessages, Memory.saveMessage. cbn [store].
    by rewrite lookup_insert_ne.
Qed.

End WithMemory.

(** A store bound to a session and to the in-memory adapter persists
    every message as it was written: what the adapter holds under the
    storage key of the session is, for each id, the last message added
    with that id -- not the merge that the store shows in memory -- and
    the other keys of the adapter are untouched.  Loading the session
    again therefore gives one entry per id, ascending by timestamp, each
    the last write of its id. *)
Theorem store_reload (sid : string) (namespace : option string)
    (a : MemoryStorageAdapter) (ms : list RawProtocolMessage) :
  sid <> "" ->
  let s := create (Some sid) (Some a) namespace in
  Memory.loadSessionMessages a (getStorageKey s sid) = [] ->
  exists a',
    storageAdapter (addMessages ms s) = Some a' /\
    (forall key, key <> getStorageKey s sid ->
       Memory.loadSessionMessages a' key = Memory.loadSessionMessages a key) /\
    id <$> Memory.loadSessionMessages a' (getStorageKey s sid)
      = Spec.first_occurrences (id <$> ms) /\
    (forall e, e ∈ Memory.loadSessionMessages a' (getStorageKey s sid) ->
       last (filter (fun m => id m = id e) ms) = Some e) /\
    snd (loadSession None (addMessages ms s)) = Fulfilled /\
    rawMessages (fst (loadSession None (addMessages ms s)))
      = sort_by_timestamp (Memory.loadSessionMessages a' (getStorageKey s sid)).
Proof.
  intros Hsid s Hempty.
  assert (truthy_session (sessionId s) = Some sid) as Hs.
  { cbn. by destruct sid. }
  destruct (addMessages_memory ms s a sid eq_refl Hs)
    as (a' & Ha' & Hsid' & Hns' & Hload & Hother).
  rewrite Hempty in Hload.
  exists a'. split; [done|]. split; [done|]. split.
  { rewrite Hload. by apply upsert_fold_ids. }
  split. { intros e. rewrite Hload. apply upsert_fold_last. }
  unfold loadSession. cbn [from_option]. rewrite Hsid', Hs, Ha'.
  rewrite (getStorageKey_namespace s _ sid Hns').
  by cbn [loadSessionMessages MemoryStorageAdapter_adapter snd fst rawMessages].
Qed.

(** [store_reload] at three writes, two of them with the id "a": in
    memory the later write keeps the sender of the earlier one, the
    reloaded entry is the later write alone. *)
Lemma store_reload_witness :
  let first :=
    {| id := "a"; trace_id := Absent; message_type := "user_command"; project_id := Absent;
       payload := ∅; timestamp := 2; sender_id := Present "user"; status := Absent |} in
  let other := Samples.message "b" "agent_ack" [] 1 in
  let again := Samples.message "a" "user_command" [] 3 in
  let s :=
    addMessages [first; other; again] (create (Some "s1") (Some Memory.create) (Some " ns ")) in
  getStorageKey s "s1" = "ns:s1" /\
  sender_id <$> rawMessages s = [Present "user"; Absent] /\
  snd (loadSession None s) = Fulfilled /\
  rawMessages (fst (loadSession None s)) = [other; again].
Proof.
  intros first other again s.
  destruct (store_reload "s1" (Some " ns ") Memory.create [first; other; again])
    as (a' & _ & _ & _ & _ & Hok & _); [discriminate|reflexivity|].
  split; [reflexivity|]. split; [reflexivity|]. split; [exact Hok|reflexivity].
Defined.

(** *** When the adapter fails *)

Section WithAdapter.
Context {A : Type} `{StorageAdapter A}.

(** [addMessage] changes the sequence in memory before it turns to the
    adapter, and a rejection of the adapter undoes nothing: the sequence
    in memory is what it is with any other adapter, or with none, and it
    holds the id of the message; the promise is rejected and the adapter
    stays as it was. *)
Theorem addMessage_memory_first (m : RawProtocolMessage) (s : ChatStore A) :
  (forall s' : ChatStore A, rawMessages s' = rawMessages s ->
     rawMessages (fst (addMessage m s')) = rawMessages (fst (addMessage m s))) /\
  id m ∈ id <$> rawMessages (fst (addMessage m s)) /\
  (forall a sid,
     storageAdapter s = Some a -> truthy_session (sessionId s) = Some sid ->
     saveMessage a (getStorageKey s sid) m = None ->
     updateMessage a (getStorageKey s sid) m = None ->
     snd (addMessage m s) = Rejected /\
     storageAdapter (fst (addMessage m s)) = Some a) /\
  (storageAdapter s = None \/ truthy_session (sessionId s) = None ->
     snd (addMessage m s) = Fulfilled /\
     storageAdapter (fst (addMessage m s)) = storageAdapter s).
Proof.
  split; [|split; [|split]].
  - intros s' Hs'. by rewrite !rawMessages_addMessage, Hs'.
  - rewrite rawMessages_addMessage, upsert_ids by done.
    destruct (decide _) as [Hin|_]; [done|]. apply elem_of_app. right. by left.
  - intros a sid Ha Hsid Hsave Hupdate. unfold addMessage, persist.
    unfold getStorageKey in *.
    destruct (findIndex m (rawMessages s)) as [[i e]|];
      cbn [storageAdapter sessionId storageNamespace];
      rewrite Ha, Hsid; [by rewrite Hupdate|by rewrite Hsave].
  - intros Hnone. unfold addMessage, persist.
    destruct (findIndex m (rawMessages s)) as [[i e]|]; cbn;
      destruct Hnone as [-> | ->]; try done; by destruct (storageAdapter s).
Qed.

(** A load that the adapter rejects leaves the messages in memory as
    they are but has already bound the store to the session asked for; a
    clear that the adapter rejects clears nothing, in memory either.
    With no adapter, or no session to work on, a load does nothing and a
    clear empties the memory. *)
Theorem load_and_clear_failures (s : ChatStore A) :
  (forall a target requested,
     storageAdapter s = Some a ->
     truthy_session (from_option Some (sessionId s) requested) = Some target ->
     loadSessionMessages a (getStorageKey s target) = None ->
     snd (loadSession requested s) = Rejected /\
     rawMessages (fst (loadSession requested s)) = rawMessages s /\
     sessionId (fst (loadSession requested s)) = Some target) /\
  (forall a target requested,
     storageAdapter s = Some a ->
     truthy_session (from_option Some (sessionId s) requested) = Some target ->
     clearSession a (getStorageKey s target) = None ->
     clearSession_store requested s = (s, Rejected)) /\
  (forall requested,
     storageAdapter s = None \/
     truthy_session (from_option Some (sessionId s) requested) = None ->
     loadSession requested s = (s, Fulfilled) /\
     snd (clearSession_store requested s) = Fulfilled /\
     rawMessages (fst (clearSession_store requested s)) = [] /\
     storageAdapter (fst (clearSession_store requested s)) = storageAdapter s /\
     sessionId (fst (clearSession_store requested s)) = sessionId s).
Proof.
  split; [|split].
  - intros a target requested Ha Ht Hload. unfold loadSession.
    by rewrite Ht, Ha, Hload.
  - intros a target requested Ha Ht Hclear. unfold clearSession_store.
    by rewrite Ht, Ha, Hclear.
  - intros requested Hnone. unfold loadSession, clearSession_store.
    destruct Hnone as [-> | ->]; [|done].
    by destruct (truthy_session _).
Qed.

End WithAdapter.

(** [load_and_clear_failures] where the runtime has no IndexedDB. *)
Lemma load_and_clear_failures_witness :
  let adapter := {| indexedDB_available := false; objectStore := [] |} in
  let s := fst (addMessage (Samples.message "a" "user_command" [] 1)
                           (create (Some "s1") (Some adapter) None)) in
  snd (loadSession (Some "s2") s) = Rejected /\
  rawMessages (fst (loadSession (Some "s2") s)) = rawMessages s /\
  sessionId (fst (loadSession (Some "s2") s)) = Some "s2" /\
  clearSession_store None s = (s, Rejected).
Proof.
  intros adapter s.
  destruct (load_and_clear_failures s) as (Hload & Hclear & _).
  destruct (Hload adapter "s2" (Some "s2")) as (? & ? & ?); [reflexivity..|].
  split; [assumption|]. split; [assumption|]. split; [assumption|].
  by apply (Hclear adapter "s1" None).
Defined.

(** *** Clearing a session *)

(** [clearSession] on a store with the in-memory adapter: the memory of
    the store is emptied, the session cleared loads as empty afterwards,
    every other key of the adapter keeps its messages, and the store
    stays bound to the session it was bound to. *)
Theorem clearSession_memory (s : ChatStore MemoryStorageAdapter)
    (a : MemoryStorageAdapter) (requested : option string) (target : string) :
  storageAdapter s = Some a ->
  truthy_session (from_option Some (sessionId s) requested) = Some target ->
  exists a',
    clearSession_store requested s
      = ({| rawMessages := []; messageIds := ∅; sessionId := sessionId s;
            storageAdapter := Some a'; storageNamespace := storageNamespace s |}, Fulfilled) /\
    Memory.loadSessionMessages a' (getStorageKey s target) = [] /\
    (forall key, key <> getStorageKey s target ->
       Memory.loadSessionMessages a' key = Memory.loadSessionMessages a key).
Proof.
  intros Ha Ht. exists (Memory.clearSession a (getStorageKey s target)).
  split; [|split].
  - unfold clearSession_store. by rewrite Ht, Ha.
  - unfold Memory.loadSessionMessages, Memory.clearSession. cbn [store].
    by rewrite lookup_delete_eq.
  - intros key Hkey. unfold Memory.loadSessionMessages, Memory.clearSession. cbn [store].
    by rewrite lookup_delete_ne.
Qed.

(** [clearSession_memory] at a store with two sessions saved. *)
Lemma clearSession_memory_witness :
  let m := Samples.message "a" "user_command" [] 1 in
  let a := Memory.saveMessage (Memory.saveMessage Memory.create "s1" m) "s2" m in
  let s := create (Some "s1") (Some a) None in
  exists a',
    storageAdapter (fst (clearSession_store None s)) = Some a' /\
    Memory.loadSessionMessages a' "s1" = [] /\
    Memory.loadSessionMessages a' "s2" = [m].
Proof.
  intros m a s.
  destruct (clearSession_memory s a None "s1") as (a' & Hclear & Hgone & Hkept);
    [reflexivity..|].
  exists a'. split; [by rewrite Hclear|]. split; [exact Hgone|].
  by rewrite (Hkept "s2").
Defined.

(** *** The sessions of the IndexedDB adapter *)

#[local] Instance key_lt_trans :
  Transitive (fun r r' : StoredMessage => IndexedDb.compare_keys (key r) (key r') = Lt).
Proof. intros r1 r2 r3. apply compare_keys_lt_trans. Qed.

Lemma put_ascending r db :
  DbInvariants.keys_ascending db -> DbInvariants.keys_ascending (IndexedDb.put r db).
Proof.
  unfold DbInvariants.keys_ascending. induction db as [|y db IH]; intros Hs.
  { by repeat constructor. }
  apply Sorted_inv in Hs as [Hs Hhd]. simpl.
  destruct (IndexedDb.compare_keys (key r) (key y)) eqn:Hc.
  - apply compare_keys_eq_iff in Hc. constructor; [done|].
    destruct Hhd as [|z db' Hz]; constructor. by rewrite Hc.
  - constructor; [by constructor|by constructor].
  - constructor; [by apply IH|].
    assert (IndexedDb.compare_keys (key y) (key r) = Lt) as Hyr.
    { rewrite compare_keys_antisym, Hc. done. }
    destruct db as [|z db']; simpl; [by constructor|].
    apply HdRel_inv in Hhd.
    destruct (IndexedDb.compare_keys (key r) (key z)); by constructor.
Qed.

Lemma ascending_unique db r r' :
  DbInvariants.keys_ascending db -> r ∈ db -> r' ∈ db -> key r = key r' -> r = r'.
Proof.
  unfold DbInvariants.keys_ascending. intros Hs%Sorted_StronglySorted; [|apply _].
  induction Hs as [|y db Hs IH Hall]; [by intros ?%elem_of_nil|].
  rewrite Forall_forall in Hall.
  intros [->|Hr]%elem_of_cons [->|Hr']%elem_of_cons Hk; [done| | |by apply IH].
  - apply Hall in Hr'. rewrite Hk, compare_keys_refl in Hr'. done.
  - apply Hall in Hr. rewrite Hk, compare_keys_refl in Hr. done.
Qed.

Lemma filter_ascending (f : StoredMessage -> bool) db :
  DbInvariants.keys_ascending db -> DbInvariants.keys_ascending (List.filter f db).
Proof.
  unfold DbInvariants.keys_ascending. intros Hs%Sorted_StronglySorted; [|apply _].
  apply StronglySorted_Sorted.
  induction Hs as [|y db Hs IH Hall]; [constructor|]. simpl.
  destruct (f y); [|done]. constructor; [done|].
  rewrite Forall_forall in Hall |- *. intros x Hx.
  apply list_elem_of_In, filter_In in Hx as [Hx _]. by apply Hall, list_elem_of_In.
Qed.

Lemma elem_of_put r' r db : r' ∈ IndexedDb.put r db -> r' = r \/ r' ∈ db.
Proof.
  induction db as [|y db IH]; simpl.
  { intros ->%list_elem_of_singleton. by left. }
  destruct (IndexedDb.compare_keys (key r) (key y)).
  - intros [->|?]%elem_of_cons; [by left|right; by right].
  - intros [->|?]%elem_of_cons; [by left|by right].
  - intros [->|[->|?]%IH]%elem_of_cons; [right; by left|by left|right; by right].
Qed.

Lemma put_built sid m db :
  DbInvariants.records_built db ->
  DbInvariants.records_built (IndexedDb.put (IndexedDb.record sid m) db).
Proof. intros Hdb r [->|Hr]%elem_of_put; [done|by apply Hdb]. Qed.

(** A put keeps the records of every session none of whose keys is the
    key put. *)
Lemma getAll_put r db sid :
  stored_sessionId r <> sid ->
  (forall r', r' ∈ db -> stored_sessionId r' = sid -> key r' <> key r) ->
  IndexedDb.getAll sid (IndexedDb.put r db) = IndexedDb.getAll sid db.
Proof.
  intros Hr. unfold IndexedDb.getAll.
  assert (String.eqb (stored_sessionId r) sid = false) as Hrb by (by apply String.eqb_neq).
  induction db as [|y db IH]; intros Hfree; simpl.
  { by rewrite Hrb. }
  destruct (IndexedDb.compare_keys (key r) (key y)) eqn:Hc; simpl; rewrite ?Hrb.
  - apply compare_keys_eq_iff in Hc.
    destruct (String.eqb_spec (stored_sessionId y) sid) as [Hy|_]; [|done].
    destruct (Hfree y); [by left|done|done].
  - done.
  - rewrite IH; [done|]. intros r' Hr'. apply Hfree. by right.
Qed.

Lemma colons_prefix s s' x y :
  DbInvariants.colons s = DbInvariants.colons s' ->
  s +:+ ":" +:+ x = s' +:+ ":" +:+ y -> s = s'.
Proof.
  revert s'. induction s as [|c s IH]; intros [|c' s']; simpl; try done.
  - intros Hn [= <- _]. done.
  - intros Hn [= -> _]. done.
  - intros Hn [= <- Heq]. f_equal. apply IH; [|done]. lia.
Qed.

(** Saving a message under one session leaves what every other session
    loads as it is, provided the two session keys hold the same number of
    colons.  (The record key is the session key, a colon and the message
    id, so without the proviso two sessions can meet in one record key,
    and the later put then replaces the record of the other session: the
    message saved under "a" with the id "b:c" is gone once a message
    with the id "c" is saved under "a:b".)  The object store keeps its
    keys strictly ascending, and its records stay the ones that
    [putMessage] builds. *)
Theorem indexeddb_sessions_apart (a : IndexedDbAdapter) (sid sid' : string)
    (m : RawProtocolMessage) :
  indexedDB_available a = true ->
  DbInvariants.keys_ascending (objectStore a) ->
  DbInvariants.records_built (objectStore a) ->
  sid <> sid' ->
  DbInvariants.colons sid = DbInvariants.colons sid' ->
  (exists a',
     saveMessage a sid m = Some a' /\
     loadSessionMessages a' sid' = loadSessionMessages a sid' /\
     DbInvariants.keys_ascending (objectStore a') /\
     DbInvariants.records_built (objectStore a')) /\
  (let fresh := {| indexedDB_available := true; objectStore := [] |} in
   let first := Samples.message "b:c" "user_command" [] 1 in
   let second := Samples.message "c" "user_command" [] 2 in
   (saveMessage fresh "a" first ≫= fun a1 => loadSessionMessages a1 "a") = Some [first] /\
   (saveMessage fresh "a" first ≫= fun a1 =>
    saveMessage a1 "a:b" second ≫= fun a2 => loadSessionMessages a2 "a") = Some []).
Proof.
  intros Ha Hasc Hbuilt Hne Hcolons. split; [|by vm_compute].
  exists {| indexedDB_available := indexedDB_available a;
            objectStore := IndexedDb.put (IndexedDb.record sid m) (objectStore a) |}.
  cbn [saveMessage loadSessionMessages IndexedDbAdapter_adapter objectStore].
  unfold IndexedDb.saveMessage, IndexedDb.putMessage, IndexedDb.loadSessionMessages,
    IndexedDb.openDb.
  cbn [indexedDB_available objectStore]. rewrite Ha. cbn [mbind option_bind].
  split; [done|]. split; [|split; [by apply put_ascending|by apply put_built]].
  rewrite getAll_put; [done|done|].
  intros r' Hr' Hsid' Hkey. rewrite (Hbuilt r' Hr'), Hsid' in Hkey. cbn [key IndexedDb.record] in Hkey.
  apply Hne. symmetry. by eapply colons_prefix.
Qed.

(** [indexeddb_sessions_apart] at two sessions of one namespace. *)
Lemma indexeddb_sessions_apart_witness :
  let m := Samples.message "a" "user_command" [] 1 in
  let a := {| indexedDB_available := true;
              objectStore := [IndexedDb.record "ns:s2" m] |} in
  exists a',
    saveMessage a "ns:s1" m = Some a' /\
    loadSessionMessages a' "ns:s2" = Some [m].
Proof.
  intros m a.
  destruct (indexeddb_sessions_apart a "ns:s1" "ns:s2" m) as [(a' & Hsave & Hload & _) _];
    [reflexivity|repeat constructor| |discriminate|reflexivity|].
  - by intros r ->%list_elem_of_singleton.
  - exists a'. split; [exact Hsave|]. by rewrite Hload.
Defined.

Lemma filter_filter_sub {T} (f g : T -> bool) (l : list T) :
  (forall x, x ∈ l -> f x = true -> g x = true) ->
  List.filter f (List.filter g l) = List.filter f l.
Proof.
  induction l as [|x l IH]; intros Hsub; [done|]. simpl.
  assert (List.filter f (List.filter g l) = List.filter f l) as IH'.
  { apply IH. intros y Hy. apply Hsub. by right. }
  destruct (f x) eqn:Hf.
  - rewrite (Hsub x) by (done || by left). simpl. by rewrite Hf, IH'.
  - destruct (g x); simpl; by rewrite ?Hf, IH'.
Qed.

Lemma getAll_elem r sid db :
  r ∈ IndexedDb.getAll sid db <-> r ∈ db /\ stored_sessionId r = sid.
Proof.
  unfold IndexedDb.getAll. by rewrite !list_elem_of_In, filter_In, String.eqb_eq.
Qed.

(** [clearSession] of the IndexedDB adapter removes the records of the
    session and no other: the session loads as empty afterwards, every
    other session loads what it did, and the keys stay strictly
    ascending. *)
Theorem indexeddb_clearSession (a : IndexedDbAdapter) (sid : string) :
  indexedDB_available a = true ->
  DbInvariants.keys_ascending (objectStore a) ->
  exists a',
    clearSession a sid = Some a' /\
    loadSessionMessages a' sid = Some [] /\
    (forall sid', sid' <> sid -> loadSessionMessages a' sid' = loadSessionMessages a sid') /\
    DbInvariants.keys_ascending (objectStore a').
Proof.
  intros Ha Hasc.
  set (keys := key <$> IndexedDb.getAll sid (objectStore a)).
  set (db' := List.filter (fun r => negb (bool_decide (key r ∈ keys))) (objectStore a)).
  exists {| indexedDB_available := indexedDB_available a; objectStore := db' |}.
  cbn [clearSession loadSessionMessages IndexedDbAdapter_adapter].
  unfold IndexedDb.clearSession, IndexedDb.loadSessionMessages, IndexedDb.openDb.
  cbn [indexedDB_available objectStore]. rewrite Ha. cbn [mbind option_bind].
  split; [done|]. split; [|split; [|by apply filter_ascending]].
  - assert (IndexedDb.getAll sid db' = []) as ->; [|done].
    apply elem_of_nil_inv. intros r [Hr Hsid]%getAll_elem.
    apply list_elem_of_In, filter_In in Hr as [Hr Hkeep].
    apply negb_true_iff, bool_decide_eq_false in Hkeep. apply Hkeep.
    apply list_elem_of_fmap_2, getAll_elem. split; [by apply list_elem_of_In|done].
  - intros sid' Hne. do 3 f_equal. unfold IndexedDb.getAll, db'.
    apply filter_filter_sub. intros r Hr Hsid'%String.eqb_eq.
    apply negb_true_iff, bool_decide_eq_false.
    intros (r' & Hk & [Hr' Hsid]%getAll_elem)%list_elem_of_fmap.
    assert (r = r') as <- by (by eapply ascending_unique). congruence.
Qed.

(** [indexeddb_clearSession] at a database with two sessions. *)
Lemma indexeddb_clearSession_witness :
  let m := Samples.message "a" "user_command" [] 1 in
  let a := {| indexedDB_available := true;
              objectStore := [IndexedDb.record "s1" m; IndexedDb.record "s2" m] |} in
  exists a',
    clearSession a "s1" = Some a' /\
    loadSessionMessages a' "s1" = Some [] /\
    loadSessionMessages a' "s2" = Some [m].
Proof.
  intros m a.
  destruct (indexeddb_clearSession a "s1") as (a' & Hclear & Hgone & Hkept & _);
    [reflexivity|repeat constructor|].
  exists a'. split; [exact Hclear|]. split; [exact Hgone|].
  by rewrite (Hkept "s2").
Defined.

End StoreProps.

(** ** The polling loop *)

Module WaitProps.
Import Js Tool FloatFacts ProgressFacts ToolFacts WaitInvariants.

Section Loop.
Variable h : Host.
Variable taskId : JsValue.
Variable timeoutMs : Z.

Lemma same_report_dec (a b : float * string) : Decision (same_report a b).
Proof. unfold same_report. apply _. Qed.

(** The result of the wait depends on the polls alone: not on the
    listener, not on the caller's state, not on what was reported last. *)
Lemma wait_loop_fst {St St'} (cb : option (float -> string -> St -> St))
    (cb' : option (float -> string -> St' -> St')) lp lm lp' lm' polls s s' :
  fst (TaskClient.waitForCompletion_loop h taskId timeoutMs cb lp lm polls s)
    = fst (TaskClient.waitForCompletion_loop h taskId timeoutMs cb' lp' lm' polls s').
Proof.
  revert lp lm lp' lm' s s'.
  induction polls as [|poll polls IH]; intros lp lm lp' lm' s s'; [done|]. simpl.
  destruct (TaskClient.elapsed poll >? timeoutMs)%Z; [done|].
  destruct (TaskClient.get h _) as [[task|]|e]; [|done..].
  destruct cb as [f|], cb' as [f'|];
    repeat match goal with |- context [if ?b then _ else _] => destruct b end;
    try done; apply IH.
Qed.




(** *** The calls of the listener *)

Lemma loop_reports {St} (cb : float -> string -> St -> St) lp lm polls s calls :
  exists R,
    snd (TaskClient.waitForCompletion_loop h taskId timeoutMs (Some recorder) lp lm polls calls)
      = calls ++ R /\
    snd (TaskClient.waitForCompletion_loop h taskId timeoutMs (Some cb) lp lm polls s)
      = foldl (fun s pm => cb pm.1 pm.2 s) s R /\
    HdRel (fun a b => ~ same_report a b) (lp, lm) R /\
    Sorted (fun a b => ~ same_report a b) R /\
    Forall (fun pm => (0 <=? pm.1)%float = true /\ (pm.1 <=? 1)%float = true) R.
Proof.
  revert lp lm s calls.
  induction polls as [|poll polls IH]; intros lp lm s calls; simpl.
  { exists []. rewrite app_nil_r. by repeat split. }
  destruct (TaskClient.elapsed poll >? timeoutMs)%Z.
  { exists []. rewrite app_nil_r. by repeat split. }
  destruct (TaskClient.get h _) as [[task|]|e];
    [|exists []; rewrite app_nil_r; by repeat split..].
  set (p := TaskClient.normalizeProgress h (ToolTaskPayload.progress task)).
  set (m := String h _).
  destruct (negb (p =? lp)%float || negb (String.eqb m lm)) eqn:Hchanged.
  - assert (~ same_report (lp, lm) (p, m)) as Hnew.
    { intros [Hp Hm]. simpl in Hp, Hm. rewrite Hp, Hm, String.eqb_refl in Hchanged. done. }
    assert ((0 <=? p)%float = true /\ (p <=? 1)%float = true) as Hrange.
    { by destruct (normalizeProgress_range h (ToolTaskPayload.progress task)) as (_ & ? & ?). }
    destruct (_ || _ || _).
    + exists [(p, m)]. cbn [snd]. split; [done|]. split; [done|].
      split; [by constructor|]. split; [by repeat constructor|].
      constructor; [exact Hrange|constructor].
    + destruct (IH p m (cb p m s) (recorder p m calls)) as (R & HR & Hcb & Hhd & Hs & Hall).
      exists ((p, m) :: R). rewrite HR. unfold recorder. rewrite <- app_assoc.
      split; [done|]. split; [done|]. split; [by constructor|].
      split; by constructor.
  - apply orb_false_iff in Hchanged as [Hp Hm].
    apply negb_false_iff in Hp. apply negb_false_iff, String.eqb_eq in Hm.
    destruct (_ || _ || _).
    + exists []. rewrite app_nil_r. by repeat split.
    + apply IH.
Qed.


(** What a listener has done by the end of the wait is its fold over
    the calls recorded. *)
Lemma wait_fold (polls : list TaskClient.Poll) {St} (cb : float -> string -> St -> St)
    (s : St) :
  snd (TaskClient.waitForCompletion h taskId timeoutMs (Some cb) polls s)
    = foldl (fun s pm => cb pm.1 pm.2 s) s (reports h taskId timeoutMs polls).
Proof.
  unfold reports, TaskClient.waitForCompletion.
  destruct (loop_reports recorder (-1)%float "" polls [] []) as (R & HR & _).
  destruct (loop_reports cb (-1)%float "" polls s []) as (R' & HR' & -> & _).
  rewrite HR in HR'. rewrite HR. simpl in *. by subst R'.
Qed.


End Loop.


End WaitProps.

(** ** The orchestrator *)

Module RunProps.
Import Js Tool Tool.UseToolTask FloatFacts ProgressFacts ToolFacts WaitInvariants WaitProps.

Ltac cells :=
  cbn [fst snd taskId state progress message result error errorCode errorDetails
       state_history progress_history log_events
       set_taskId set_state set_progress set_message set_result set_error
       set_errorCode set_errorDetails log reset negb].




Lemma applyError_cells d code r :
  error (applyError d code r) = ToolErrorDetails.message d /\
  errorCode (applyError d code r) = ToolErrorDetails.code d /\
  errorDetails (applyError d code r) = Some d /\
  result (applyError d code r) = result r /\
  taskId (applyError d code r) = taskId r /\
  progress (applyError d code r) = progress r /\
  message (applyError d code r) = message r /\
  state (applyError d code r)
    = (if bool_decide (state r = cancelled) then cancelled
       else if bool_decide (ToolErrorDetails.code d = TASK_CANCELLED) then cancelled
            else failed) /\
  state_history (applyError d code r)
    = (if bool_decide (state r = cancelled) then state_history r
       else state_history r ++
              [if bool_decide (ToolErrorDetails.code d = TASK_CANCELLED) then cancelled
               else failed]).
Proof.
  unfold applyError. cells.
  destruct (bool_decide_reflect (state r = cancelled)); cells; by repeat split.
Qed.






(** *** A run starts from a clean slate *)

Ltac after_eq :=
  intros; unfold after;
  cbn [taskId state progress message result error errorCode errorDetails
       state_history progress_history log_events
       set_taskId set_state set_progress set_message set_result set_error
       set_errorCode set_errorDetails log];
  f_equal; by rewrite ?app_assoc, ?app_nil_r.

Lemma set_taskId_after b v r : set_taskId v (after b r) = after b (set_taskId v r).
Proof. after_eq. Qed.
Lemma set_state_after b v r : set_state v (after b r) = after b (set_state v r).
Proof. after_eq. Qed.
Lemma set_progress_after b v r : set_progress v (after b r) = after b (set_progress v r).
Proof. after_eq. Qed.
Lemma set_message_after b v r : set_message v (after b r) = after b (set_message v r).
Proof. after_eq. Qed.
Lemma set_result_after b v r : set_result v (after b r) = after b (set_result v r).
Proof. after_eq. Qed.
Lemma set_error_after b v r : set_error v (after b r) = after b (set_error v r).
Proof. after_eq. Qed.
Lemma set_errorCode_after b v r : set_errorCode v (after b r) = after b (set_errorCode v r).
Proof. after_eq. Qed.
Lemma set_errorDetails_after b v r :
  set_errorDetails v (after b r) = after b (set_errorDetails v r).
Proof. after_eq. Qed.
Lemma log_after b level code m r : log level code m (after b r) = after b (log level code m r).
Proof. after_eq. Qed.

Lemma reset_after r : reset false r = after r (reset false create).
Proof.
  unfold reset, after. cbn [negb].
  cbn [taskId state progress message result error errorCode errorDetails
       state_history progress_history log_events create
       set_taskId set_state set_progress set_message set_result set_error
       set_errorCode set_errorDetails].
  f_equal. by rewrite app_nil_r.
Qed.

Lemma applyError_after b d code r :
  applyError d code (after b r) = after b (applyError d code r).
Proof.
  unfold applyError. cbv zeta.
  rewrite set_error_after, set_errorCode_after, set_errorDetails_after.
  assert (forall r0, state (after b r0) = state r0) as -> by done.
  destruct (negb _); by rewrite ?set_state_after, log_after.
Qed.

Lemma onProgress_after h b p m r :
  onProgress h p m (after b r) = after b (onProgress h p m r).
Proof.
  unfold onProgress. cbv zeta. rewrite set_progress_after, set_message_after.
  by assert (forall r0, progress (after b r0) = progress r0) as -> by done.
Qed.

Lemma wait_after h tid t polls b r :
  TaskClient.waitForCompletion h tid t (Some (onProgress h)) polls (after b r)
    = (fst (TaskClient.waitForCompletion h tid t (Some (onProgress h)) polls r),
       after b (snd (TaskClient.waitForCompletion h tid t (Some (onProgress h)) polls r))).
Proof.
  rewrite (surjective_pairing (TaskClient.waitForCompletion _ _ _ _ _ (after b r))).
  f_equal; [apply wait_loop_fst|].
  rewrite !wait_fold. generalize (reports h tid t polls). intros R. revert r.
  induction R as [|pm R IH]; intros r; [done|]. simpl.
  by rewrite onProgress_after, IH.
Qed.

(** [run] begins by resetting every cell, so nothing that an earlier run
    left behind plays a part: the way the run ends and every cell after it
    are the same as on a new orchestrator; only the records of what was
    assigned and logged go on from the earlier ones. *)
Theorem run_clean_slate (h : Host) (server : Server) (request : ToolCallRequest.t)
    (r : Refs) :
  fst (run h server request r) = fst (run h server request create) /\
  cells (snd (run h server request r)) = cells (snd (run h server request create)) /\
  snd (run h server request r) = after r (snd (run h server request create)).
Proof.
  assert (run h server request r
          = (fst (run h server request create), after r (snd (run h server request create))))
    as ->; [|done].
  unfold run. cbv zeta. rewrite (reset_after r).
  generalize (reset false create). intros r0.
  rewrite !set_state_after, !log_after.
  destruct (ToolClient.call h _) as [[response|]|err].
  2: { done. }
  2: { by rewrite applyError_after. }
  destruct (_ && _).
  2: { by rewrite !set_state_after, !set_progress_after, !set_result_after, !log_after. }
  rewrite !set_taskId_after, !set_state_after, !log_after, wait_after.
  destruct (TaskClient.waitForCompletion h _ _ _ _ _) as [[finalTask|err|] r1]; cbn [fst snd].
  - assert (forall r0, progress (after r r0) = progress r0) as -> by done.
    rewrite !set_progress_after, !set_message_after.
    destruct (is_string _ "completed"); [|destruct (is_string _ "cancelled")].
    + by rewrite !set_state_after, !set_result_after, !log_after.
    + by rewrite !set_state_after, !applyError_after.
    + by rewrite !applyError_after.
  - by rewrite applyError_after.
  - done.
Qed.

(** The errors of a cancel request never carry the code of a
    cancellation. *)
Lemma cancel_throw_code h fetched err :
  TaskClient.cancel h fetched = Throw err ->
  ToolErrorDetails.code (normalizeError h err TASK_FAILED) <> TASK_CANCELLED.
Proof.
  unfold TaskClient.cancel, TaskClient.request, request_body.
  destruct fetched as [error|status json|status]; cbv zeta.
  - by intros [= <-].
  - destruct (negb (ok status)); [|done]. intros [= <-].
    cbn [normalizeError ToolErrorDetails.code]. unfold codeFromHttpStatus.
    destruct (status >=? 500)%Z; [done|]. by destruct (status >=? 400)%Z.
  - destruct (negb (ok status)); by intros [= <-].
Qed.

(** *** Cancelling *)

Lemma cancel_done h fetched r :
  isRunning r = false -> cancel h fetched r = (Return false, r).
Proof. intros Hnot. unfold cancel. by rewrite Hnot, orb_true_r. Qed.

(** [cancel] asks the server only for a task that is under way: with no
    task id, or in a state other than pending and running (so after a
    run has ended, or after a cancel that succeeded), it returns false
    and changes nothing.  Otherwise: if the server confirms, the state
    becomes cancelled with the message "task cancelled" and [cancel]
    returns true; if the server answers anything else, it returns false
    and changes nothing; if the request fails, the state becomes failed,
    the error cells are set and [cancel] throws.  An error applied to a
    cancelled orchestrator leaves it cancelled. *)
Theorem cancel_outcomes (h : Host) (fetched : FetchOutcome TaskClient.CancelResponse.t)
    (r : Refs) :
  (truthy (taskId r) = false \/ isRunning r = false ->
     cancel h fetched r = (Return false, r)) /\
  (truthy (taskId r) = true -> isRunning r = true ->
     match TaskClient.cancel h fetched with
     | Return true =>
         fst (cancel h fetched r) = Return true /\
         state (snd (cancel h fetched r)) = cancelled /\
         message (snd (cancel h fetched r)) = "task cancelled" /\
         isRunning (snd (cancel h fetched r)) = false /\
         taskId (snd (cancel h fetched r)) = taskId r /\
         (forall fetched',
            cancel h fetched' (snd (cancel h fetched r))
              = (Return false, snd (cancel h fetched r)))
     | Return false => cancel h fetched r = (Return false, r)
     | Throw err =>
         fst (cancel h fetched r) = Throw (toError (normalizeError h err TASK_FAILED)) /\
         state (snd (cancel h fetched r)) = failed /\
         errorDetails (snd (cancel h fetched r)) = Some (normalizeError h err TASK_FAILED) /\
         error (snd (cancel h fetched r))
           = ToolErrorDetails.message (normalizeError h err TASK_FAILED)
     end) /\
  (forall d code,
     state r = cancelled -> state (applyError d code r) = cancelled).
Proof.
  split; [|split].
  - intros Hno. unfold cancel.
    assert (negb (truthy (taskId r)) || negb (isRunning r) = true) as ->; [|done].
    destruct Hno as [-> | ->]; [done|]. by rewrite orb_true_r.
  - intros Htask Hrun.
    assert (cancel h fetched r
            = match TaskClient.cancel h fetched with
              | Throw err =>
                  (Throw (toError (normalizeError h err TASK_FAILED)),
                   applyError (normalizeError h err TASK_FAILED) "TOOL_TASK_CANCEL_FAILED" r)
              | Return true =>
                  (Return true,
                   log warn "TOOL_TASK_CANCELLED" "Task cancelled by user"
                     (set_message "task cancelled" (set_state cancelled r)))
              | Return false => (Return false, r)
              end) as Heq.
    { unfold cancel. rewrite Htask, Hrun. cbn [negb orb].
      by destruct (TaskClient.cancel h fetched) as [[|]|err]. }
    destruct (TaskClient.cancel h fetched) as [[|]|err] eqn:Hcancel; [|done|]; rewrite Heq.
    + cells. repeat split. intros fetched'. by apply cancel_done.
    + cbn [fst snd].
      match goal with |- context [applyError ?d ?c ?r] =>
        destruct (applyError_cells d c r) as (He & _ & Hd & _ & _ & _ & _ & Hs & _);
        rewrite He, Hd, Hs end.
      split; [done|]. split; [|done].
      unfold isRunning in Hrun. apply orb_true_iff in Hrun.
      pose proof (cancel_throw_code h fetched err Hcancel) as Hcode.
      rewrite (bool_decide_eq_false_2 _ Hcode).
      destruct Hrun as [->%bool_decide_eq_true | ->%bool_decide_eq_true]; done.
  - intros d code Hst. destruct (applyError_cells d code r) as (_ & _ & _ & _ & _ & _ & _ & -> & _).
    by rewrite Hst.
Qed.


End RunProps.

(** ** The realtime client, further *)

Module ClientProps.
Import Js Client ClientInvariants ClientFacts ClientMessages.

Section WithSocket.
Context {W : Type} `{WebSocketApi W}.
Implicit Types c : ZmpLiteClient W.

Ltac fields :=
  cbn [ws options pendingMessages heartbeatTimer reconnectAttempts state transmitted
       scheduled heartbeat emitted
       set_ws set_pendingMessages set_heartbeatTimer set_reconnectAttempts set_state
       set_transmitted set_scheduled set_heartbeat set_emitted emit updateState].

(** When the socket opens, the handshake goes out first and the queue
    after it, in its order; whatever the socket does meanwhile, nothing
    is lost or reordered: what has been transmitted followed by what is
    still queued is the old transmissions, the handshake, and the old
    queue.  The state is open, the attempt counter is back at 0, and the
    client has emitted the state and then 'open'.  If the socket stays
    open while frames are sent, the whole queue has gone out. *)
Theorem open_sends_handshake_first (f : Fresh) c :
  ws_open c = true ->
  exists hs,
    type hs = "handshake" /\ direction hs = request /\
    message_id hs = fresh_message_id f /\
    (exists sent,
       transmitted (ws_onopen f c) = transmitted c ++ hs :: sent /\
       pendingMessages c = sent ++ pendingMessages (ws_onopen f c)) /\
    (pendingMessages (ws_onopen f c) = [] \/ ws_open (ws_onopen f c) = false) /\
    state (ws_onopen f c) = open /\
    reconnectAttempts (ws_onopen f c) = 0%nat /\
    emitted (ws_onopen f c) = emitted c ++ [EmitState open; EmitOpen] /\
    ((forall w msg, readyState w = OPEN -> readyState (send w msg) = OPEN) ->
     transmitted (ws_onopen f c) = transmitted c ++ hs :: pendingMessages c /\
     pendingMessages (ws_onopen f c) = []).
Proof.
  intros Hopen. unfold ws_onopen. cbv zeta.
  set (c1 := updateState open (set_reconnectAttempts 0 c)).
  assert (ws_open c1 = true /\ transmitted c1 = transmitted c /\
          pendingMessages c1 = pendingMessages c /\ state c1 = open /\
          reconnectAttempts c1 = 0%nat /\ emitted c1 = emitted c ++ [EmitState open])
    as (Hopen1 & Ht1 & Hp1 & Hs1 & Hr1 & He1) by done.
  destruct (sendHandshake_envelope f c1) as (hs & -> & Hty & Hdir & Hid & _).
  clearbody c1. set (c2 := sendEnvelopeInternal hs c1).
  destruct (sendEnvelopeInternal_open hs c1 Hopen1) as [Ht2 Hp2]. fold c2 in Ht2, Hp2.
  destruct (sendEnvelopeInternal_frame hs c1) as (_ & Hr2 & _ & Hs2 & _ & _ & He2).
  fold c2 in Hr2, Hs2, He2.
  set (c3 := flushPendingMessages c2).
  destruct (flush_loop_steps (pendingMessages c2) c2 eq_refl) as [Hsteps Hend].
  fold (flushPendingMessages c2) in Hsteps, Hend. fold c3 in Hsteps, Hend.
  destruct (flush_steps_inv c2 c3 Hsteps) as (sent & Ht3 & Hp3).
  destruct (flush_loop_frame (pendingMessages c2) c2) as (_ & Hr3 & _ & Hs3 & _ & _ & He3).
  fold (flushPendingMessages c2) in Hr3, Hs3, He3. fold c3 in Hr3, Hs3, He3.
  destruct (startHeartbeat_frame c3) as (_ & Hr4 & _ & Hs4 & Hw4 & Ht4 & Hp4 & He4).
  assert (ws_open (emit EmitOpen (startHeartbeat c3)) = ws_open c3) as Hopen4.
  { unfold ws_open. fields. by rewrite Hw4. }
  exists hs. split; [done|]. split; [done|]. split; [done|].
  fields. rewrite Ht4, Hp4, Hs4, Hr4, He4, Hopen4.
  split. { exists sent. rewrite Ht3, Ht2, Ht1, <- app_assoc. split; [done|]. congruence. }
  split; [done|]. split; [congruence|]. split; [congruence|].
  split. { by rewrite He3, He2, He1, <- app_assoc. }
  intros Hstay.
  assert (ws_open c2 = true) as Hopen2.
  { unfold c2, ws_open, sendEnvelopeInternal in *. destruct (ws c1) as [w|]; [|done].
    apply bool_decide_eq_true in Hopen1. rewrite bool_decide_eq_true_2 by done. fields.
    apply bool_decide_eq_true_2. by apply Hstay. }
  pose proof (flush_steps_open c2 c3 Hstay Hsteps Hopen2) as Hopen3.
  destruct Hend as [Hnil|Hclosed]; [|congruence].
  rewrite Hnil, app_nil_r in Hp3. split; [|done].
  rewrite Ht3, Ht2, Ht1, <- app_assoc. simpl. congruence.
Qed.

Lemma ws_onopen_frame f c :
  options (ws_onopen f c) = options c /\
  scheduled (ws_onopen f c) = scheduled c /\
  reconnectAttempts (ws_onopen f c) = 0%nat.
Proof.
  unfold ws_onopen. cbv zeta. fields.
  destruct (startHeartbeat_frame
              (flushPendingMessages
                 (sendHandshake f (updateState open (set_reconnectAttempts 0 c)))))
    as (-> & -> & -> & _).
  unfold flushPendingMessages.
  destruct (flush_loop_frame
              (pendingMessages (sendHandshake f (updateState open (set_reconnectAttempts 0 c))))
              (sendHandshake f (updateState open (set_reconnectAttempts 0 c))))
    as (-> & -> & -> & _).
  unfold sendHandshake.
  match goal with |- context [sendEnvelopeInternal ?e ?c0] =>
    destruct (sendEnvelopeInternal_frame e c0) as (-> & -> & -> & _) end.
  done.
Qed.

(** An open connection resets the backoff: however many attempts went
    before, the first close after the socket has opened schedules a
    reconnect after the base delay itself (1000 ms if none is
    configured) and counts it as attempt one. *)
Theorem open_resets_backoff (f : Fresh) c (config : ReconnectOptions) :
  reconnect (options c) = Some config ->
  enabled config = Some true ->
  (0 < default 0 (maxAttempts config))%Z ->
  scheduled (ws_onclose (ws_onopen f c))
    = scheduled c ++ [default 1000%Z (baseDelay config)] /\
  reconnectAttempts (ws_onclose (ws_onopen f c)) = 1%nat /\
  state (ws_onclose (ws_onopen f c)) = reconnecting.
Proof.
  intros Hc He Hmax. destruct (ws_onopen_frame f c) as (Ho & Hs & Hr).
  destruct (ws_onclose_schedules (ws_onopen f c) config) as (Hsched & Hatt & Hst & _).
  - by rewrite Ho.
  - done.
  - by rewrite Hr.
  - rewrite Hsched, Hatt, Hs, Hr. split; [|done]. do 2 f_equal. simpl. lia.
Qed.

Lemma disconnect_cells c :
  state (disconnect c) = closed /\ ws (disconnect c) = None /\
  heartbeat (disconnect c)
    = match heartbeatTimer c with Some _ => None | None => heartbeat c end /\
  heartbeatTimer (disconnect c) = None /\
  scheduled (disconnect c) = scheduled c /\
  reconnectAttempts (disconnect c) = reconnectAttempts c /\
  options (disconnect c) = options c /\
  pendingMessages (disconnect c) = pendingMessages c /\
  transmitted (disconnect c) = transmitted c.
Proof.
  unfold disconnect, stopHeartbeat. cbv zeta.
  destruct (heartbeatTimer c) eqn:Ht; fields; destruct (ws c) eqn:Hw; fields;
    by rewrite ?Ht, ?Hw.
Qed.

(** [disconnect] itself stops the heartbeat, lets go of the socket and
    sets the state closed; it schedules nothing and keeps the queue.  But
    the close handler does not tell a close that was asked for from one
    that was not: when the close event of that socket then arrives, and
    reconnection is enabled with attempts left, a reconnect is scheduled
    and the state becomes reconnecting. *)
Theorem disconnect_then_close c :
  (state (disconnect c) = closed /\ ws (disconnect c) = None /\
   heartbeatTimer (disconnect c) = None /\
   scheduled (disconnect c) = scheduled c /\
   pendingMessages (disconnect c) = pendingMessages c) /\
  (forall config,
     reconnect (options c) = Some config ->
     enabled config = Some true ->
     (Z.of_nat (reconnectAttempts c) < default 0 (maxAttempts config))%Z ->
     scheduled (ws_onclose (disconnect c))
       = scheduled c ++
         [(default 1000 (baseDelay config) * 2 ^ Z.of_nat (reconnectAttempts c))%Z] /\
     state (ws_onclose (disconnect c)) = reconnecting) /\
  (shouldReconnect c = false ->
     scheduled (ws_onclose (disconnect c)) = scheduled c /\
     state (ws_onclose (disconnect c)) = closed).
Proof.
  destruct (disconnect_cells c) as (Hst & Hws & _ & Hht & Hs & Hr & Ho & Hp & _).
  split; [done|]. split.
  - intros config Hc He Hlt.
    destruct (ws_onclose_schedules (disconnect c) config) as (Hsched & _ & Hstate & _);
      rewrite ?Ho, ?Hr; try done.
    by rewrite Hsched, Hs, Hr.
  - intros Hno.
    destruct (ws_onclose_stops (disconnect c)) as (Hsched & _ & Hstate & _).
    + unfold shouldReconnect in *. by rewrite Ho, Hr.
    + by rewrite Hsched, Hs.
Qed.

(** *** Inbound envelopes *)

(** An inbound envelope goes one of three ways.  A handshake response
    sets the session fields from its payload ([null], [null] and the empty
    array where the payload has none) and is emitted as 'handshake'; a
    heartbeat request is answered by a heartbeat that carries the same
    ping time; neither reaches the message handlers.  Every other
    envelope is handed to the message handlers as it is, and changes
    nothing else.  Data that is not JSON is answered by an 'error' event
    alone: the state of the connection stays as it is. *)
Theorem inbound_dispatch (f : Fresh) (message : ZmpEnvelope) (s : Session W) :
  (type message = "handshake" -> direction message = response ->
     delivered (handleMessage f message s) = delivered s /\
     client (handleMessage f message s) = client s /\
     handshakes (handleMessage f message s)
       = handshakes s ++ [sessionInfo (handleMessage f message s)] /\
     info_sessionId (sessionInfo (handleMessage f message s))
       = nullish (get (payload message) "session_id") JNull /\
     info_serverVersion (sessionInfo (handleMessage f message s))
       = nullish (get (payload message) "server_version") JNull /\
     info_supportedFeatures (sessionInfo (handleMessage f message s))
       = nullish (get (payload message) "supported_features") (JArray [])) /\
  (type message = "heartbeat" -> direction message = request ->
     delivered (handleMessage f message s) = delivered s /\
     sessionInfo (handleMessage f message s) = sessionInfo s /\
     handshakes (handleMessage f message s) = handshakes s /\
     exists reply,
       client (handleMessage f message s) = sendEnvelopeInternal reply (client s) /\
       type reply = "heartbeat" /\ direction reply = request /\
       get (payload reply) "ping_time" = get (payload message) "ping_time") /\
  (~ (type message = "handshake" /\ direction message = response) ->
   ~ (type message = "heartbeat" /\ direction message = request) ->
     handleMessage f message s
       = {| client := client s; sessionInfo := sessionInfo s;
            delivered := delivered s ++ [message]; handshakes := handshakes s |}) /\
  (state (client (ws_onmessage f None s)) = state (client s) /\
   emitted (client (ws_onmessage f None s)) = emitted (client s) ++ [EmitError] /\
   delivered (ws_onmessage f None s) = delivered s).
Proof.
  split; [|split; [|split]].
  - intros Hty Hdir. unfold handleMessage. rewrite Hty, Hdir. by cbn.
  - intros Hty Hdir. unfold handleMessage. rewrite Hty, Hdir. cbn [String.eqb andb].
    rewrite bool_decide_eq_false_2 by done. rewrite bool_decide_eq_true_2 by done.
    cbn [andb]. split; [done|]. split; [done|]. split; [done|].
    eexists. split; [reflexivity|]. split; [done|]. split; [done|].
    cbn [payload createEnvelope p_payload default from_option id]. unfold get.
    by rewrite lookup_singleton_eq.
  - intros Hh Hb. unfold handleMessage.
    destruct (String.eqb_spec (type message) "handshake") as [Hty|Hty];
      destruct (bool_decide_reflect (direction message = response)) as [Hdir|Hdir];
      cbn [andb]; try (by destruct Hh);
      destruct (String.eqb_spec (type message) "heartbeat") as [Hty'|Hty'];
      destruct (bool_decide_reflect (direction message = request)) as [Hdir'|Hdir'];
      cbn [andb]; try done; by destruct Hb.
  - done.
Qed.

(** The heartbeat of the client: a firing of the interval sends a
    heartbeat with the ping time when the socket is open, and does
    nothing at all when it is not -- a heartbeat is never queued, so none
    is flushed when the connection comes back. *)
Theorem heartbeat_never_queued (f : Fresh) (ping_time : float) c :
  (ws_open c = false -> heartbeat_tick f ping_time c = c) /\
  (ws_open c = true ->
     pendingMessages (heartbeat_tick f ping_time c) = pendingMessages c /\
     exists beat,
       transmitted (heartbeat_tick f ping_time c) = transmitted c ++ [beat] /\
       type beat = "heartbeat" /\ direction beat = request /\
       get (payload beat) "ping_time" = JNumber ping_time).
Proof.
  split; intros Hopen; unfold heartbeat_tick; rewrite Hopen; [done|].
  match goal with |- context [sendEnvelopeInternal ?e c] =>
    destruct (sendEnvelopeInternal_open e c Hopen) as [-> ->]; split; [done|]; exists e end.
  split; [done|]. split; [done|]. split; [done|].
  cbn [payload createEnvelope p_payload default from_option id]. unfold get.
  by rewrite lookup_singleton_eq.
Qed.

(** *** Outbound commands *)

(** An envelope that is complete passes [createEnvelope] unchanged,
    whatever ids and clock the host would supply. *)
Lemma createEnvelope_as_partial f e c : createEnvelope f (as_partial e) c = e.
Proof. by destruct e. Qed.

Lemma sendEnvelopeInternal_lands e c :
  (ws_open c = true ->
     transmitted (sendEnvelopeInternal e c) = transmitted c ++ [e] /\
     pendingMessages (sendEnvelopeInternal e c) = pendingMessages c) /\
  (ws_open c = false ->
     transmitted (sendEnvelopeInternal e c) = transmitted c /\
     pendingMessages (sendEnvelopeInternal e c) = pendingMessages c ++ [e]).
Proof.
  split; intros Hopen.
  - by apply sendEnvelopeInternal_open.
  - by destruct (enqueue_when_closed e c Hopen) as (? & ? & _).
Qed.

Lemma sendUserCommand_sends (f f' : Fresh) c fresh_trace fresh_message fresh_task payload o :
  exists env,
    sendUserCommand fresh_trace fresh_message fresh_task f f' payload o c
      = ((trace_id env, message_id env, default fresh_task (o ≫= taskId)),
         sendEnvelopeInternal env c) /\
    trace_id env = default fresh_trace (o ≫= traceId) /\
    message_id env = default fresh_message (o ≫= messageId) /\
    (context env ≫= ctx_task_id) = Some (default fresh_task (o ≫= taskId)) /\
    project_id env
      = default (default "" (projectId (options c))) (o ≫= command_projectId) /\
    type env = "user_command" /\ direction env = request /\
    Client.payload env = payload /\ timestamp env = now f.
Proof.
  unfold sendUserCommand, sendEnvelope. cbv zeta. cbn [snd].
  rewrite createEnvelope_as_partial.
  match goal with |- context [sendEnvelopeInternal ?e c] => exists e end.
  by repeat split.
Qed.

(** What [sendUserCommand] and [sendHumanInterventionResponse] return
    are the ids on the wire.  The one envelope that either of them sends
    (transmitted if the socket is open, queued at the end if not) carries
    the trace id, the message id and, in its context, the task id that
    [sendUserCommand] returns -- each the caller's if given, else fresh --
    with the type user_command, the payload as given and the time of its
    making; the id that [sendHumanInterventionResponse] returns is the
    message id of its envelope, whose payload names the request and the
    action.  The second [createEnvelope], inside [sendEnvelope], changes
    nothing. *)
Theorem outbound_ids (f f' : Fresh) c :
  (forall fresh_trace fresh_message fresh_task payload o,
     exists env,
       sendUserCommand fresh_trace fresh_message fresh_task f f' payload o c
         = ((trace_id env, message_id env, default fresh_task (o ≫= taskId)),
            sendEnvelopeInternal env c) /\
       trace_id env = default fresh_trace (o ≫= traceId) /\
       message_id env = default fresh_message (o ≫= messageId) /\
       (context env ≫= ctx_task_id) = Some (default fresh_task (o ≫= taskId)) /\
       project_id env
         = default (default "" (projectId (options c))) (o ≫= command_projectId) /\
       type env = "user_command" /\ direction env = request /\
       Client.payload env = payload /\ timestamp env = now f) /\
  (forall r,
     exists env,
       sendHumanInterventionResponse f f' r c
         = (message_id env, sendEnvelopeInternal env c) /\
       message_id env = fresh_message_id f /\
       type env = "human_intervention_response" /\ direction env = request /\
       get (Client.payload env) "request_id" = JString (requestId r) /\
       get (Client.payload env) "action" = JString (action_name (action r)) /\
       get (Client.payload env) "reason" = reason r) /\
  (forall env,
     (ws_open c = true ->
        transmitted (sendEnvelopeInternal env c) = transmitted c ++ [env] /\
        pendingMessages (sendEnvelopeInternal env c) = pendingMessages c) /\
     (ws_open c = false ->
        transmitted (sendEnvelopeInternal env c) = transmitted c /\
        pendingMessages (sendEnvelopeInternal env c) = pendingMessages c ++ [env])).
Proof.
  split; [|split; [|intros env; apply sendEnvelopeInternal_lands]].
  - intros fresh_trace fresh_message fresh_task payload o. apply sendUserCommand_sends.
  - intros r. unfold sendHumanInterventionResponse, sendEnvelope. cbv zeta. cbn [snd].
    rewrite createEnvelope_as_partial.
    match goal with |- context [sendEnvelopeInternal ?e c] => exists e end.
    split; [done|]. split; [done|]. split; [done|]. split; [done|].
    cbn [Client.payload createEnvelope p_payload default from_option id]. unfold get.
    split; [|split].
    + by rewrite lookup_insert_eq.
    + by rewrite lookup_insert_ne, lookup_insert_eq.
    + by rewrite !(lookup_insert_ne _ _ "reason"), lookup_singleton_eq.
Qed.

End WithSocket.

(** [open_sends_handshake_first] at a socket that takes two frames and
    a queue of two envelopes: the handshake and the first envelope go out,
    the second stays queued. *)
Lemma open_sends_handshake_first_witness :
  let socket := {| Samples.ready := OPEN; Samples.budget := 2 |} in
  let queue := [Samples.envelope "1"; Samples.envelope "2"] in
  let c :=
    set_pendingMessages queue
      (set_ws (Some socket) (create (Samples.client_options default_reconnect))) in
  let f := {| fresh_trace_id := "t"; fresh_message_id := "h"; now := 7 |} in
  exists hs,
    type hs = "handshake" /\
    transmitted (ws_onopen f c) = [hs; Samples.envelope "1"] /\
    pendingMessages (ws_onopen f c) = [Samples.envelope "2"].
Proof.
  intros socket queue c f.
  destruct (open_sends_handshake_first f c) as (hs & Hty & _ & _ & (sent & Ht & Hp) & _);
    [reflexivity|].
  exists hs. split; [exact Hty|]. split; [|reflexivity].
  rewrite Ht. cbn [transmitted c set_pendingMessages set_ws create app]. f_equal.
  assert (pendingMessages (ws_onopen f c) = [Samples.envelope "2"]) as Hrest by reflexivity.
  rewrite Hrest in Hp. cbn [pendingMessages c set_pendingMessages queue] in Hp.
  destruct sent as [|e1 [|e2 sent]]; simpl in Hp; by simplify_eq.
Defined.

(** [open_resets_backoff] after three failed attempts. *)
Lemma open_resets_backoff_witness :
  let config := {| enabled := Some true; maxAttempts := Some 5; baseDelay := Some 1000 |} in
  let socket := {| Samples.ready := OPEN; Samples.budget := 9 |} in
  let c :=
    set_reconnectAttempts 3
      (set_ws (Some socket) (create (Samples.client_options config))) in
  let f := {| fresh_trace_id := "t"; fresh_message_id := "h"; now := 7 |} in
  scheduled (ws_onclose c) = [8000] /\
  scheduled (ws_onclose (ws_onopen f c)) = [1000].
Proof.
  intros config socket c f. split; [reflexivity|].
  by destruct (open_resets_backoff f c config) as (-> & _); [reflexivity..|].
Defined.

End ClientProps.

(** ** The chat session *)

Module SessionProps.
Import Js Protocol Store StoreInvariants StoreFacts Client ClientFacts ClientMessages
  ClientProps ChatSession.

Section WithSocketAndAdapter.
Context {W : Type} `{WebSocketApi W}.
Context {A : Type} `{StorageAdapter A}.

Lemma findIndex_fresh m (l : list RawProtocolMessage) :
  (forall x, x ∈ l -> Protocol.id x <> Protocol.id m) -> findIndex m l = None.
Proof.
  intros Hfresh. unfold findIndex. apply list_find_None, Forall_forall.
  intros x Hx. by apply Hfresh.
Qed.

Lemma findIndex_last m e (l : list RawProtocolMessage) :
  (forall x, x ∈ l -> Protocol.id x <> Protocol.id m) -> Protocol.id e = Protocol.id m ->
  findIndex m (l ++ [e]) = Some (length l, e).
Proof.
  intros Hfresh He. unfold findIndex. apply list_find_Some.
  split; [by rewrite list_lookup_middle|]. split; [done|].
  intros j y Hj Hlt. rewrite lookup_app_l in Hj by done.
  apply Hfresh. by eapply list_elem_of_lookup_2.
Qed.

(** What is delivered of one inbound envelope. *)
Lemma receive_store f message (cs : ChatSession W A) :
  store (receive f message cs)
    = if String.eqb (type message) "handshake" && bool_decide (direction message = response)
      then store cs
      else if String.eqb (type message) "heartbeat"
              && bool_decide (direction message = request)
           then store cs
           else onMessage message (store cs).
Proof.
  unfold receive, handleMessage. cbv zeta. cbn [store].
  destruct (_ && _); [by rewrite drop_all|].
  destruct (_ && _); cbn [delivered with_client]; [by rewrite drop_all|].
  by rewrite drop_app_length.
Qed.

(** A message that the user sends shows up once.  [sendMessage] returns
    the ids of the envelope that it hands to the client and adds a local
    copy to the store under the same message id, marked as sent by
    "user", with the payload and the trace id of the envelope.  When an
    envelope with that message id comes back from the server, the store
    gains no entry: the copy is overwritten in place by what came back,
    now marked as sent by "assistant".  Handshake responses and heartbeat
    requests never reach the store. *)
Theorem sent_message_echo (config : Config) (fresh_trace fresh_message fresh_task : string)
    (f f' : Fresh) (now_local : Z) (text : string) (options : option SendOptions)
    (cs : ChatSession W A) :
  (forall m, m ∈ rawMessages (store cs) -> Protocol.id m <> fresh_message) ->
  let sent :=
    sendMessage config fresh_trace fresh_message fresh_task f f' now_local text options cs in
  fst sent = (fresh_trace, fresh_message, fresh_task) /\
  (exists env,
     client (session (snd sent)) = sendEnvelopeInternal env (client (session cs)) /\
     message_id env = fresh_message /\ Client.trace_id env = fresh_trace /\
     Client.payload env = user_payload config text options) /\
  (exists raw,
     rawMessages (store (snd sent)) = rawMessages (store cs) ++ [raw] /\
     Protocol.id raw = fresh_message /\ Protocol.trace_id raw = Present fresh_trace /\
     message_type raw = "user_command" /\ sender_id raw = Present "user" /\
     Protocol.payload raw = user_payload config text options /\
     Protocol.timestamp raw = now_local) /\
  (forall fr echo,
     message_id echo = fresh_message ->
     type echo <> "handshake" -> type echo <> "heartbeat" ->
     length (rawMessages (store (receive fr echo (snd sent))))
       = length (rawMessages (store (snd sent))) /\
     exists e,
       rawMessages (store (receive fr echo (snd sent))) !! length (rawMessages (store cs))
         = Some e /\
       Protocol.id e = fresh_message /\ sender_id e = Present "assistant" /\
       message_type e = type echo /\ Protocol.payload e = Client.payload echo) /\
  (forall fr control,
     type control = "handshake" /\ direction control = response \/
     type control = "heartbeat" /\ direction control = request ->
     store (receive fr control (snd sent)) = store (snd sent)).
Proof.
  intros Hfresh sent. unfold sent, sendMessage. cbv zeta.
  destruct (sendUserCommand_sends f f' (client (session cs)) fresh_trace fresh_message
              fresh_task (user_payload config text options)
              (Some {| traceId := None; messageId := None; taskId := None;
                       command_projectId := config_projectId config |}))
    as (env & -> & Htrace & Hmid & _ & _ & _ & _ & Hpayload & _).
  cbn [mbind option_bind traceId messageId taskId default from_option id] in *.
  rewrite Htrace, Hmid. cbn [fst snd session store client with_client].
  set (raw := toRawProtocolMessage _ (Some "user")).
  assert (rawMessages (fst (addMessage raw (store cs))) = rawMessages (store cs) ++ [raw])
    as Hraw.
  { rewrite rawMessages_addMessage. unfold upsert. by rewrite findIndex_fresh. }
  split; [done|]. split; [by exists env|]. split; [by exists raw|]. split.
  - intros fr echo Hecho Hh Hb. rewrite receive_store. cbn [store].
    rewrite (proj2 (String.eqb_neq _ _) Hh), (proj2 (String.eqb_neq _ _) Hb). cbn [andb].
    unfold onMessage. rewrite rawMessages_addMessage, Hraw. unfold upsert.
    rewrite (findIndex_last _ raw);
      [|intros x Hx; cbn [toRawProtocolMessage Protocol.id]; rewrite Hecho; by apply Hfresh
       |by cbn [toRawProtocolMessage Protocol.id]].
    rewrite length_insert. split; [done|].
    eexists. rewrite list_lookup_insert_eq by (rewrite length_app; simpl; lia).
    split; [done|]. by repeat split.
  - intros fr control Hcontrol. rewrite receive_store.
    destruct Hcontrol as [[-> ->]|[-> ->]]; by cbn.
Qed.

End WithSocketAndAdapter.

(** [sent_message_echo] for a message sent while the socket is not yet
    open, in a session whose store holds one message. *)
Lemma sent_message_echo_witness :
  let config :=
    {| config_projectId := Some "p"; config_modelConfig := JUndefined;
       config_mode := JString "chat"; config_workflowContext := JUndefined;
       config_pluginContext := JUndefined |} in
  let f := {| fresh_trace_id := "t"; fresh_message_id := "m"; now := 7 |} in
  let cs : ChatSession Samples.Socket MemoryStorageAdapter :=
    {| session := start (Client.create (Samples.client_options default_reconnect));
       store := fst (addMessage (Samples.message "m0" "agent_ack" [] 1)
                                (Store.create (Some "s1") (Some Memory.create) None)) |} in
  let sent := sendMessage config "t1" "m1" "k1" f f 5 "hi" None cs in
  let echo := Samples.envelope "m1" in
  fst sent = ("t1", "m1", "k1") /\
  Protocol.id <$> rawMessages (store (snd sent)) = ["m0"; "m1"] /\
  sender_id <$> rawMessages (store (snd sent)) = [Absent; Present "user"] /\
  length (rawMessages (store (receive f echo (snd sent)))) = 2%nat /\
  sender_id <$> rawMessages (store (receive f echo (snd sent))) = [Absent; Present "assistant"].
Proof.
  intros config f cs sent echo.
  destruct (sent_message_echo config "t1" "m1" "k1" f f 5 "hi" None cs)
    as (Hids & _ & _ & Hecho & _).
  { intros m Hm. apply list_elem_of_singleton in Hm. by subst m. }
  split; [exact Hids|]. split; [reflexivity|]. split; [reflexivity|].
  destruct (Hecho f echo) as [Hlen _]; [reflexivity|discriminate|discriminate|].
  split; [exact Hlen|reflexivity].
Defined.

End SessionProps.
